(** * FinancelyAI ledger logic: a shallow embedding and its properties

    The development follows the TypeScript sources of the household
    finance tracker:

    - [types.ts]                       the data model;
    - [components/AddExpenseModal.tsx] [handleSplitEqually], [handleSubmit];
    - [App.tsx]                        [handleAddExpense];
    - [services/db.ts]                 [addExpense];
    - [components/Dashboard.tsx]       the monthly aggregates;
    - [components/ExpenseTracker.tsx]  [handleExportCSV];
    - [utils/expenseUtils.ts]          [suggestCategory];
    - [utils/chartUtils.ts]            [prepareTrendData].

    Conventions of the embedding.  Amounts in cents are JavaScript numbers
    holding integers; they are modelled as [Z].  Where the code divides
    an amount by 100 (the export, the trend chart) the result is a
    binary64 number, modelled in [Float64] with the rounding of the host.
    A JavaScript string is the list of its UTF-16 code units.  A value
    that may be [undefined] or [null] is an [option].  React state is
    passed explicitly: a handler takes the state it reads and returns the
    state it sets.  A handler that writes to the store returns the tables
    after the call together with the way the call completes. *)

From Stdlib Require Import ZArith QArith String Ascii Sorted.
From Stdlib Require DecimalN.
From stdpp Require Import base option list gmap.

Close Scope Q_scope.

Local Open Scope Z_scope.

(** ** JavaScript strings *)

Module JsString.

(** A string is a sequence of UTF-16 code units. *)
Definition code_unit := N.
Abbreviation jsstring := (list N).

(** A literal of the source, written with the characters of its text. *)
Definition js (s : string) : jsstring :=
  N_of_ascii <$> list_ascii_of_string s.

Definition COMMA : code_unit := 44%N.
Definition QUOTE : code_unit := 34%N.
Definition NEWLINE : code_unit := 10%N.
Definition LETTER_T : code_unit := 84%N.

(** A string is falsy exactly when it is empty. *)
Definition falsy (s : jsstring) : bool := bool_decide (s = []).

(** [s.startsWith(p)] *)
Fixpoint startsWith (s p : jsstring) {struct p} : bool :=
  match p, s with
  | [], _ => true
  | _ :: _, [] => false
  | c :: p', d :: s' => bool_decide (c = d) && startsWith s' p'
  end.

(** [s.includes(t)]: [t] occurs in [s] as a contiguous substring. *)
Fixpoint includes (s t : jsstring) : bool :=
  startsWith s t ||
  match s with
  | [] => false
  | _ :: s' => includes s' t
  end.

(** ECMAScript WhiteSpace and LineTerminator code points, the
    characters removed by [String.prototype.trim]. *)
Definition isWhiteSpace (c : code_unit) : bool :=
  bool_decide (c ∈ [0x09; 0x0A; 0x0B; 0x0C; 0x0D; 0x20; 0xA0; 0x1680;
                    0x2028; 0x2029; 0x202F; 0x205F; 0x3000; 0xFEFF]%N)
  || ((0x2000 <=? c)%N && (c <=? 0x200A)%N).

Fixpoint trimStart (s : jsstring) : jsstring :=
  match s with
  | c :: s' => if isWhiteSpace c then trimStart s' else s
  | [] => []
  end.

Definition trimEnd (s : jsstring) : jsstring :=
  reverse (trimStart (reverse s)).

Definition trim (s : jsstring) : jsstring := trimEnd (trimStart s).

(** Lower-casing of the ASCII letters.  On text made of ASCII
    characters this is [String.prototype.toLowerCase]. *)
Definition asciiLower (c : code_unit) : code_unit :=
  if ((65 <=? c)%N && (c <=? 90)%N)%bool then (c + 32)%N else c.

Definition asciiToLowerCase (s : jsstring) : jsstring := asciiLower <$> s.

(** [s.replace(/QUOTE/g, QUOTE QUOTE)]: every quote character is doubled. *)
Definition doubleQuotes (s : jsstring) : jsstring :=
  s ≫= λ c, if bool_decide (c = QUOTE) then [QUOTE; QUOTE] else [c].

(** [s.split('T')[0]]: the text before the first letter T. *)
Fixpoint beforeT (s : jsstring) : jsstring :=
  match s with
  | [] => []
  | c :: s' => if bool_decide (c = LETTER_T) then [] else c :: beforeT s'
  end.


End JsString.
Import JsString.

(** ** The data model ([types.ts]) *)

(** What [new Date(text)] gives for a stored date: the ISO text of
    [toISOString()] and the calendar fields read in local time by
    [getFullYear()], [getMonth()] (0 to 11) and [getDate()] (1 to 31). *)
Record JsDate := mkDate {
  iso : jsstring;
  fullYear : Z;
  month : Z;
  dayOfMonth : Z
}.

Record Member := mkMember {
  memId : jsstring;
  memName : jsstring;
  avatarUrl : jsstring
}.

Record Category := mkCategory {
  catId : jsstring;
  catName : jsstring;
  icon : jsstring
}.

Record Rule := mkRule {
  ruleId : jsstring;
  keyword : jsstring;
  ruleCategoryId : jsstring
}.

Record Split := mkSplit {
  memberId : jsstring;
  amount : Z
}.

Record Expense := mkExpense {
  expId : jsstring;
  description : jsstring;
  expAmount : Z;
  date : JsDate;
  payerId : jsstring;
  categoryId : jsstring;
  splits : list Split
}.

(** The object handed to [onAddExpense]: an expense without its id
    ([Omit<Expense, 'id'>]). *)
Record NewExpense := mkNewExpense {
  newDescription : jsstring;
  newAmount : Z;
  newCategoryId : jsstring;
  newMemberId : jsstring;
  newDate : JsDate;
  newSplits : list Split
}.

Record Budget := mkBudget {
  budId : jsstring;
  budCategoryId : jsstring;
  budAmount : Z
}.

Inductive NotificationType := info | warning | error | success.

Record Notification := mkNotification {
  notifId : jsstring;
  message : jsstring;
  notifDate : jsstring;
  type : NotificationType;
  isRead : bool
}.

Record Household := mkHousehold {
  members : list Member;
  categories : list Category;
  rules : list Rule;
  expenses : list Expense;
  budgets : list Budget;
  notifications : list Notification
}.

#[global] Instance Split_eq_dec : EqDecision Split.
Proof. solve_decision. Defined.
#[global] Instance NotificationType_eq_dec : EqDecision NotificationType.
Proof. solve_decision. Defined.

(** [xs.reduce((sum, x) => sum + f(x), 0)] *)
Definition sumOf {A} (f : A → Z) (xs : list A) : Z :=
  foldl (λ sum x, sum + f x) 0 xs.

(** ** Equal split ([AddExpenseModal.tsx], [handleSplitEqually]) *)

Module AddExpenseModal.

(** The callback of [household.members.map] in [handleSplitEqually]. *)
Definition equalShare (baseAmount remainder : Z) (index : nat) (member : Member)
    : Split :=
  {| memberId := memId member;
     amount := baseAmount + (if Z.of_nat index <? remainder then 1 else 0) |}.

(** The handler reads [totalAmountCents] and [household.members] and
    sets the [splits] state; the result is the state after the call.
    [Math.floor(a / b)] is [Z.div] for a positive divisor and the
    remainder operator [%] is [Z.rem]. *)
Definition handleSplitEqually (totalAmountCents : Z) (members : list Member)
    (splits : list Split) : list Split :=
  if (totalAmountCents <=? 0) || bool_decide (length members = 0%nat)
  then splits
  else
    let memberCount := Z.of_nat (length members) in
    let baseAmount := totalAmountCents / memberCount in
    let remainder := Z.rem totalAmountCents memberCount in
    imap (equalShare baseAmount remainder) members.

(** The form state read by [handleSubmit]. *)
Record Form := mkForm {
  formDescription : jsstring;
  totalAmountCents : Z;
  formCategoryId : jsstring;
  formMemberId : jsstring;
  formDate : JsDate;
  formSplits : list Split
}.

Definition totalSplitAmount (splits : list Split) : Z := sumOf amount splits.

Definition remainingAmount (f : Form) : Z :=
  totalAmountCents f - totalSplitAmount (formSplits f).

(** [handleSubmit]: [None] when the submission is refused with the alert,
    [Some e] when [onAddExpense(e)] is called. *)
Definition handleSubmit (f : Form) : option NewExpense :=
  if falsy (trim (formDescription f))
     || (totalAmountCents f <=? 0)
     || falsy (formCategoryId f)
     || falsy (formMemberId f)
     || (0 <? Z.abs (remainingAmount f))
  then None
  else Some {| newDescription := trim (formDescription f);
               newAmount := totalAmountCents f;
               newCategoryId := formCategoryId f;
               newMemberId := formMemberId f;
               newDate := formDate f;
               newSplits := filter (λ s, 0 < amount s) (formSplits f) |}.

End AddExpenseModal.

(** ** Exceptions *)

(** A computation that returns a value or throws.  An [async] function
    that rejects is a computation that throws. *)
Inductive Result (A : Type) : Type :=
| Ok (a : A)
| Throw (reason : jsstring).
Arguments Ok {A} a.
Arguments Throw {A} reason.

#[global] Instance Result_ret : MRet Result := λ A a, Ok a.
#[global] Instance Result_bind : MBind Result := λ A B k m,
  match m with
  | Ok a => k a
  | Throw reason => Throw reason
  end.

(** [try { body } catch (error) { handler }] *)
Definition tryCatch {A} (body : Result A) (handler : jsstring → Result A)
    : Result A :=
  match body with
  | Ok a => Ok a
  | Throw reason => handler reason
  end.

(** ** The store ([services/db.ts]) *)

Module Db.

(** Rows of the tables [expenses] and [expense_splits]; the table
    [notifications] holds [Notification] rows.  The column
    [expense_splits.id] is the position of the row. *)
Record ExpenseRow := mkExpenseRow {
  rowId : jsstring;
  rowDescription : jsstring;
  rowAmount : Z;
  rowDate : JsDate;
  rowMemberId : jsstring;
  rowCategoryId : jsstring;
  rowTripId : option jsstring
}.

Record SplitRow := mkSplitRow {
  splitExpenseId : jsstring;
  splitMemberId : jsstring;
  splitAmount : Z
}.

Record Database := mkDatabase {
  tblExpenses : list ExpenseRow;
  tblExpenseSplits : list SplitRow;
  tblNotifications : list Notification
}.

(** [INSERT INTO expenses]: the statement throws when the primary key
    [id] is already present. *)
Definition insertExpense (row : ExpenseRow) (d : Database) : Result Database :=
  if bool_decide (rowId row ∈ rowId <$> tblExpenses d)
  then Throw (js "UNIQUE constraint failed: expenses.id")
  else Ok {| tblExpenses := tblExpenses d ++ [row];
             tblExpenseSplits := tblExpenseSplits d;
             tblNotifications := tblNotifications d |}.

(** [INSERT INTO expense_splits]: the key is generated, the statement
    does not fail. *)
Definition insertSplit (row : SplitRow) (d : Database) : Result Database :=
  Ok {| tblExpenses := tblExpenses d;
        tblExpenseSplits := tblExpenseSplits d ++ [row];
        tblNotifications := tblNotifications d |}.

(** [INSERT INTO notifications]: primary key [id]. *)
Definition insertNotification (n : Notification) (d : Database)
    : Result Database :=
  if bool_decide (notifId n ∈ notifId <$> tblNotifications d)
  then Throw (js "UNIQUE constraint failed: notifications.id")
  else Ok {| tblExpenses := tblExpenses d;
             tblExpenseSplits := tblExpenseSplits d;
             tblNotifications := tblNotifications d ++ [n] |}.

(** [xs.forEach(x => stmt.run(x))] on the database. *)
Fixpoint forEachM {A} (run : A → Database → Result Database) (xs : list A)
    (d : Database) : Result Database :=
  match xs with
  | [] => Ok d
  | x :: rest => d' ← run x d; forEachM run rest d'
  end.

(** [db.exec("ROLLBACK;")].  With a transaction open the tables are
    again those at its [BEGIN]; with none open the statement throws. *)
Definition rollback (open : option Database) (d : Database)
    : Database * Result unit :=
  match open with
  | Some atBegin => (atBegin, Ok tt)
  | None => (d, Throw (js "cannot rollback - no transaction is active"))
  end.

Section Persist.

(** [saveDbToIndexedDB] copies the database file to IndexedDB; the
    promise rejects when the IndexedDB transaction fails.  The copy is
    taken as it comes. *)
Variable saveDbToIndexedDB : Database → Result unit.

(** [addExpense]: the tables after the call, and how the call completes.
    The module variable [db] is [None] before [initDB] has opened the
    database; the call starts with no transaction open, as every call
    leaves the store.  After [BEGIN TRANSACTION] the three groups of
    inserts run in order, then [COMMIT] and the awaited copy to
    IndexedDB, all inside the [try].  The handler runs [ROLLBACK] and
    logs the error:
    after a failed insert the transaction is open and is rolled back;
    after a failed copy the transaction is already committed, so
    [ROLLBACK] throws out of the handler and the call rejects. *)
Definition addExpense (newExpense : Expense) (notifications : list Notification)
    (db : option Database) : option Database * Result unit :=
  match db with
  | None => (None, Ok tt)
  | Some d =>
      match
        d1 ← insertExpense
               {| rowId := expId newExpense;
                  rowDescription := description newExpense;
                  rowAmount := expAmount newExpense;
                  rowDate := date newExpense;
                  rowMemberId := payerId newExpense;
                  rowCategoryId := categoryId newExpense;
                  rowTripId := None |} d;
        d2 ← forEachM
               (λ s, insertSplit {| splitExpenseId := expId newExpense;
                                    splitMemberId := memberId s;
                                    splitAmount := amount s |})
               (splits newExpense) d1;
        forEachM insertNotification notifications d2
      with
      | Throw err =>
          let '(d', completion) := rollback (Some d) d in
          (Some d', completion)
      | Ok d3 =>
          match saveDbToIndexedDB d3 with
          | Ok _ => (Some d3, Ok tt)
          | Throw err =>
              let '(d', completion) := rollback None d3 in
              (Some d', completion)
          end
      end
  end.

End Persist.

End Db.

(** ** Recording an expense ([App.tsx], [handleAddExpense]) *)

Module App.

(** The value the anomaly check resolves to. *)
Record AnomalyResult := mkAnomalyResult {
  isAnomalous : bool;
  reasoning : jsstring
}.

(** What one call reads from its environment: the local year and month
    of [new Date()] in the budget check, the text of
    [new Date().toISOString()] there, the text of
    [new Date().toISOString()] read again after the awaited anomaly
    check, and the values returned by the calls of [crypto.randomUUID()]
    for the expense id, the budget notification id and the anomaly
    notification id. *)
Record Env := mkEnv {
  nowYear : Z;
  nowMonth : Z;
  nowIso : jsstring;
  nowIsoAfterCheck : jsstring;
  uuidExpense : jsstring;
  uuidBudget : jsstring;
  uuidAnomaly : jsstring
}.

(** [new Date(e.date) >= startOfMonth], where [startOfMonth] is local
    midnight of the first day of the current month: the date falls in
    the current month of the current year or later. *)
Definition sinceStartOfMonth (env : Env) (d : JsDate) : bool :=
  (nowYear env <? fullYear d)
  || ((fullYear d =? nowYear env) && (nowMonth env <=? month d)).

Definition expensesForCategoryThisMonth (household : Household)
    (newExpense : NewExpense) (env : Env) : list Expense :=
  filter (λ e, categoryId e = newCategoryId newExpense
               ∧ sinceStartOfMonth env (date e))
         (expenses household).

Definition spentBefore (household : Household) (newExpense : NewExpense)
    (env : Env) : Z :=
  sumOf expAmount (expensesForCategoryThisMonth household newExpense env).

Definition spentAfter (household : Household) (newExpense : NewExpense)
    (env : Env) : Z :=
  spentBefore household newExpense env + newAmount newExpense.

(** [a < b] and [a >= b] on numbers that need not be integers. *)
Definition numLt (a b : Q) : bool := negb (Qle_bool b a).
Definition numGe (a b : Q) : bool := Qle_bool b a.

(** [household.categories.find(c => c.id === id)?.name || 'a category'] *)
Definition categoryName (household : Household) (id : jsstring) : jsstring :=
  match List.find (λ c, bool_decide (catId c = id)) (categories household) with
  | Some c => if falsy (catName c) then js "a category" else catName c
  | None => js "a category"
  end.

Section Handler.

(** [formatCurrencyForNotif] renders an amount with the host's
    [Intl.NumberFormat]; [detectAnomalousExpense] is the call to the
    language model; [saveDbToIndexedDB] is the copy of the database file
    that [db.addExpense] awaits.  All three are taken as they come. *)
Variable formatCurrencyForNotif : Z → jsstring.
Variable detectAnomalousExpense : Household → Expense → Result AnomalyResult.
Variable saveDbToIndexedDB : Db.Database → Result unit.

Definition budgetExceeded (env : Env) (budget : Budget) (name : jsstring)
    : Notification :=
  {| notifId := js "notif-budget-exceeded-" ++ uuidBudget env;
     message := js "You've exceeded your "
                ++ formatCurrencyForNotif (budAmount budget)
                ++ js " budget for " ++ name ++ js "!";
     notifDate := nowIso env;
     type := error;
     isRead := false |}.

Definition budgetWarning (env : Env) (budget : Budget) (name : jsstring)
    : Notification :=
  {| notifId := js "notif-budget-warning-" ++ uuidBudget env;
     message := js "You're approaching your "
                ++ formatCurrencyForNotif (budAmount budget)
                ++ js " budget for " ++ name ++ js ".";
     notifDate := nowIso env;
     type := warning;
     isRead := false |}.

Definition anomalyAlert (env : Env) (anomalyResult : AnomalyResult)
    : Notification :=
  {| notifId := js "notif-anomaly-" ++ uuidAnomaly env;
     message := js "Unusual Spending Alert: " ++ reasoning anomalyResult;
     notifDate := nowIsoAfterCheck env;
     type := warning;
     isRead := false |}.

(** Step 1, the budget alert check: the notifications pushed.  The
    product [budget.amount * 0.9] is taken in the rationals; on integer
    amounts of cents below 2^49 the floating-point product compares with
    an integer number of cents in the same way. *)
Definition budgetAlertCheck (household : Household) (newExpense : NewExpense)
    (env : Env) : list Notification :=
  match List.find (λ b, bool_decide (budCategoryId b = newCategoryId newExpense))
                  (budgets household) with
  | Some budget =>
      if 0 <? budAmount budget then
        let before := spentBefore household newExpense env in
        let after := spentAfter household newExpense env in
        let ninetyPercentBudget := (inject_Z (budAmount budget) * 0.9)%Q in
        let name := categoryName household (newCategoryId newExpense) in
        if (before <? budAmount budget) && (budAmount budget <=? after)
        then [budgetExceeded env budget name]
        else if numLt (inject_Z before) ninetyPercentBudget
                && numGe (inject_Z after) ninetyPercentBudget
                && (after <? budAmount budget)
        then [budgetWarning env budget name]
        else []
      else []
  | None => []
  end.

(** Step 2, the anomaly detection check: the list after the [try]
    statement.  A throwing call leaves the list as it was. *)
Definition anomalyDetectionCheck (household : Household)
    (expenseWithId : Expense) (env : Env)
    (notificationsToAdd : list Notification) : Result (list Notification) :=
  tryCatch
    (anomalyResult ← detectAnomalousExpense household expenseWithId;
     Ok (if isAnomalous anomalyResult
         then notificationsToAdd ++ [anomalyAlert env anomalyResult]
         else notificationsToAdd))
    (λ err, Ok notificationsToAdd).

Definition withId (newExpense : NewExpense) (id : jsstring) : Expense :=
  {| expId := id;
     description := newDescription newExpense;
     expAmount := newAmount newExpense;
     date := newDate newExpense;
     payerId := newMemberId newExpense;
     categoryId := newCategoryId newExpense;
     splits := newSplits newExpense |}.

(** [handleAddExpense]: the tables after the call and how the call
    completes.  [await db.addExpense(...)] is not inside a [try]: when
    it rejects, the handler rejects and [reloadData] is not reached;
    otherwise [reloadData] reads the tables back into the React
    state. *)
Definition handleAddExpense (household : Household) (newExpense : NewExpense)
    (env : Env) (db : option Db.Database)
    : option Db.Database * Result unit :=
  let expenseWithId := withId newExpense (js "exp-" ++ uuidExpense env) in
  let notificationsToAdd := budgetAlertCheck household newExpense env in
  match anomalyDetectionCheck household expenseWithId env notificationsToAdd
  with
  | Ok notificationsToAdd =>
      Db.addExpense saveDbToIndexedDB expenseWithId notificationsToAdd db
  | Throw reason => (db, Throw reason)
  end.

End Handler.

End App.

(** ** Monthly aggregates ([components/Dashboard.tsx]) *)

Module Dashboard.

(** A JavaScript number holding an integer, or [NaN].  Reading a missing
    property gives [undefined], modelled by [None]; used as a number,
    [undefined] is [NaN]. *)
Inductive jsnum := Num (z : Z) | NaN.

Definition toNumber (v : option jsnum) : jsnum :=
  match v with
  | Some n => n
  | None => NaN
  end.

Definition jsAdd (a b : jsnum) : jsnum :=
  match a, b with
  | Num x, Num y => Num (x + y)
  | _, _ => NaN
  end.

Definition jsSub (a b : jsnum) : jsnum :=
  match a, b with
  | Num x, Num y => Num (x - y)
  | _, _ => NaN
  end.

(** [expenses.filter(exp => new Date(exp.date).getMonth() ===
    new Date().getMonth())]: the selection reads the month only. *)
Definition expensesThisMonth (expenses : list Expense) (nowMonth : Z)
    : list Expense :=
  filter (λ exp, month (date exp) = nowMonth) expenses.

Definition totalExpensesThisMonth (expenses : list Expense) (nowMonth : Z) : Z :=
  sumOf expAmount (expensesThisMonth expenses nowMonth).

(** [spent] of one budget line in the budgets overview. *)
Definition spent (expenses : list Expense) (nowMonth : Z) (budget : Budget) : Z :=
  sumOf expAmount
    (filter (λ e, categoryId e = budCategoryId budget)
            (expensesThisMonth expenses nowMonth)).

(** [members.forEach(m => { memberSpending[m.id] = 0; })] on the empty
    object.  Member ids are the application's identifiers; names that an
    object inherits from [Object.prototype] are not modelled. *)
Definition initialSpending (members : list Member) : gmap jsstring jsnum :=
  foldl (λ memberSpending m, <[memId m := Num 0]> memberSpending) ∅ members.

(** The body of the inner [forEach]:
    [if (memberSpending[split.memberId] !== undefined)
       memberSpending[split.memberId] += split.amount]. *)
Definition addSplit (memberSpending : gmap jsstring jsnum) (split : Split)
    : gmap jsstring jsnum :=
  if bool_decide (memberSpending !! memberId split ≠ None)
  then <[memberId split :=
           jsAdd (toNumber (memberSpending !! memberId split))
                 (Num (amount split))]> memberSpending
  else memberSpending.

Definition addExpenseSplits (memberSpending : gmap jsstring jsnum)
    (expense : Expense) : gmap jsstring jsnum :=
  foldl addSplit memberSpending (splits expense).

Definition memberSpending (members : list Member) (selected : list Expense)
    : gmap jsstring jsnum :=
  foldl addExpenseSplits (initialSpending members) selected.

(** [{ ...m, spent: memberSpending[m.id] }] *)
Record MemberSpent := mkMemberSpent {
  member : Member;
  memberSpent : option jsnum
}.

(** The comparator [(a, b) => b.spent - a.spent]. *)
Definition bySpentDescending (a b : MemberSpent) : jsnum :=
  jsSub (toNumber (memberSpent b)) (toNumber (memberSpent a)).

(** [Array.prototype.sort] is stable: [a] moves behind [b] only when
    the comparator is positive ([NaN] counts as zero). *)
Definition movesBehind (compare : MemberSpent → MemberSpent → jsnum)
    (a b : MemberSpent) : bool :=
  match compare a b with
  | Num z => 0 <? z
  | NaN => false
  end.

Fixpoint sortInsert (compare : MemberSpent → MemberSpent → jsnum)
    (x : MemberSpent) (sorted : list MemberSpent) : list MemberSpent :=
  match sorted with
  | [] => [x]
  | y :: rest =>
      if movesBehind compare x y
      then y :: sortInsert compare x rest
      else x :: y :: rest
  end.

Definition sort (compare : MemberSpent → MemberSpent → jsnum)
    (xs : list MemberSpent) : list MemberSpent :=
  foldr (sortInsert compare) [] xs.

Definition spendingByMember (members : list Member) (selected : list Expense)
    : list MemberSpent :=
  let spending := memberSpending members selected in
  sort bySpentDescending
    ((λ m, {| member := m; memberSpent := spending !! memId m |}) <$> members).

(** [spendingByMember.reduce((sum, m) => sum + m.spent, 0)] *)
Definition totalSpentByMembers (rows : list MemberSpent) : jsnum :=
  foldl (λ sum m, jsAdd sum (toNumber (memberSpent m))) (Num 0) rows.

End Dashboard.

(** ** Category suggestion ([utils/expenseUtils.ts]) *)

Module ExpenseUtils.

Section Suggest.

(** [String.prototype.toLowerCase] of the host. *)
Variable toLowerCase : jsstring → jsstring.

(** The [for ... of] loop over the rules, leaving at the first match. *)
Fixpoint firstMatch (lowercasedDescription : jsstring) (rules : list Rule)
    : option jsstring :=
  match rules with
  | [] => None
  | rule :: rest =>
      if includes lowercasedDescription (toLowerCase (keyword rule))
      then Some (ruleCategoryId rule)
      else firstMatch lowercasedDescription rest
  end.

(** The parameter [categories] is not read by the function. *)
Definition suggestCategory (description : jsstring) (rules : list Rule)
    (categories : list Category) : option jsstring :=
  let lowercasedDescription := toLowerCase description in
  firstMatch lowercasedDescription rules.

End Suggest.

End ExpenseUtils.

(** ** Numbers of the host ([Number], IEEE 754 binary64) *)

Module Float64.

(** A finite double is [mantissa * 2^exponent]; the representation is
    kept unique: the mantissa is odd, or the number is zero, written
    [0 * 2^0].  The computations modelled start from integers of at most
    53 bits and divide by 100 or add up: they stay far from the ends of
    the exponent range, so overflow, subnormal numbers, infinities and
    [NaN] do not occur, and the sign of a zero is never read. *)
Record double := mkDouble {
  mantissa : Z;
  exponent : Z
}.

#[global] Instance double_eq_dec : EqDecision double.
Proof. solve_decision. Defined.

Definition zero : double := mkDouble 0 0.

Fixpoint oddPart (p : positive) : positive :=
  match p with
  | xO p' => oddPart p'
  | _ => p
  end.

Fixpoint trailingZeros (p : positive) : Z :=
  match p with
  | xO p' => 1 + trailingZeros p'
  | _ => 0
  end.

(** The representation of [m * 2^e]. *)
Definition normalize (m e : Z) : double :=
  match m with
  | Z0 => zero
  | Zpos p => mkDouble (Zpos (oddPart p)) (e + trailingZeros p)
  | Zneg p => mkDouble (Zneg (oddPart p)) (e + trailingZeros p)
  end.

(** The integer nearest to [n / d], the even one of two, for [0 <= n]
    and [0 < d]. *)
Definition nearestEven (n d : Z) : Z :=
  let q := n / d in
  let r := n mod d in
  if 2 * r <? d then q
  else if d <? 2 * r then q + 1
  else if Z.even q then q else q + 1.

(** The double nearest to [m * 2^e] (round to nearest, ties to even):
    a mantissa of more than 53 bits loses its surplus bits. *)
Definition round (m e : Z) : double :=
  let a := Z.abs m in
  let surplus := Z.log2 a - 52 in
  if surplus <=? 0 then normalize m e
  else normalize (Z.sgn m * nearestEven a (2 ^ surplus)) (e + surplus).

(** The number holding an integer; exact up to 2^53. *)
Definition ofInteger (z : Z) : double := round z 0.

(** [x + y] *)
Definition add (x y : double) : double :=
  let e := Z.min (exponent x) (exponent y) in
  round (mantissa x * 2 ^ (exponent x - e) + mantissa y * 2 ^ (exponent y - e))
        e.

(** [n / d] for numbers holding the integers [n] and [d], [0 < d]: the
    quotient is scaled by the power of two [2^s] that brings it between
    2^52 and 2^53, and rounded there. *)
Definition quotient (n d : Z) : double :=
  if n =? 0 then zero
  else
    let a := Z.abs n in
    let s0 := 53 + Z.log2 d - Z.log2 a in
    let s := if 2 ^ 53 * d * 2 ^ Z.max 0 (- s0) <=? a * 2 ^ Z.max 0 s0
             then s0 - 1 else s0 in
    normalize
      (Z.sgn n * nearestEven (a * 2 ^ Z.max 0 s) (d * 2 ^ Z.max 0 (- s)))
      (- s).

(** The integer nearest to [100 * (a * 2^e)], the larger of two. *)
Definition hundredthsOf (a e : Z) : Z :=
  if 0 <=? e then 100 * a * 2 ^ e
  else (200 * a + 2 ^ (- e)) / 2 ^ (1 - e).

(** The integer [n] of [Number.prototype.toFixed] for two digits: the
    one for which [n / 100] is nearest to the absolute value of [x], the
    larger of two. *)
Definition hundredths (x : double) : Z :=
  hundredthsOf (Z.abs (mantissa x)) (exponent x).

End Float64.

(** ** Numbers as text *)

Module NumberText.

Definition DIGIT_0 : code_unit := 48%N.
Definition MINUS : code_unit := 45%N.
Definition DOT : code_unit := 46%N.

Fixpoint digitsOf (u : Decimal.uint) : jsstring :=
  match u with
  | Decimal.Nil => []
  | Decimal.D0 u => 48%N :: digitsOf u
  | Decimal.D1 u => 49%N :: digitsOf u
  | Decimal.D2 u => 50%N :: digitsOf u
  | Decimal.D3 u => 51%N :: digitsOf u
  | Decimal.D4 u => 52%N :: digitsOf u
  | Decimal.D5 u => 53%N :: digitsOf u
  | Decimal.D6 u => 54%N :: digitsOf u
  | Decimal.D7 u => 55%N :: digitsOf u
  | Decimal.D8 u => 56%N :: digitsOf u
  | Decimal.D9 u => 57%N :: digitsOf u
  end.

(** [n.toString()] for a natural number. *)
Definition natToString (n : N) : jsstring := digitsOf (N.to_uint n).

(** An amount in cents written in units with two decimals: sign, whole
    units, a dot and two digits. *)
Definition decimal2 (cents : Z) : jsstring :=
  let a := Z.to_N (Z.abs cents) in
  (if cents <? 0 then [MINUS] else [])
  ++ natToString (a / 100)%N
  ++ [DOT; (DIGIT_0 + (a mod 100) / 10)%N; (DIGIT_0 + a mod 10)%N].

(** [x.toFixed(2)] for a number below 10^21 in absolute value: the sign,
    then the digits of [n] with a dot before the last two. *)
Definition toFixed (x : Float64.double) : jsstring :=
  let n := Z.to_N (Float64.hundredths x) in
  (if Float64.mantissa x <? 0 then [MINUS] else [])
  ++ natToString (n / 100)%N
  ++ [DOT; (DIGIT_0 + (n mod 100) / 10)%N; (DIGIT_0 + n mod 10)%N].

(** [(cents / 100).toFixed(2)]: the division is the host's. *)
Definition toFixed2 (cents : Z) : jsstring :=
  toFixed (Float64.quotient cents 100).

(** Reading a decimal amount back, as a reader of the exported file
    does: the number of cents of a text with two decimals. *)
Fixpoint readDigits (s : jsstring) : option Decimal.uint :=
  match s with
  | [] => Some Decimal.Nil
  | c :: rest =>
      u ← readDigits rest;
      if bool_decide (c = 48%N) then Some (Decimal.D0 u)
      else if bool_decide (c = 49%N) then Some (Decimal.D1 u)
      else if bool_decide (c = 50%N) then Some (Decimal.D2 u)
      else if bool_decide (c = 51%N) then Some (Decimal.D3 u)
      else if bool_decide (c = 52%N) then Some (Decimal.D4 u)
      else if bool_decide (c = 53%N) then Some (Decimal.D5 u)
      else if bool_decide (c = 54%N) then Some (Decimal.D6 u)
      else if bool_decide (c = 55%N) then Some (Decimal.D7 u)
      else if bool_decide (c = 56%N) then Some (Decimal.D8 u)
      else if bool_decide (c = 57%N) then Some (Decimal.D9 u)
      else None
  end.

Definition readUnsigned (s : jsstring) : option Z :=
  match reverse s with
  | d2 :: d1 :: dot :: whole =>
      if bool_decide (dot = DOT) then
        u ← readDigits (reverse whole);
        u1 ← readDigits [d1];
        u2 ← readDigits [d2];
        Some (Z.of_N (N.of_uint u * 100 + N.of_uint u1 * 10 + N.of_uint u2))
      else None
  | _ => None
  end.

Definition readAmount (s : jsstring) : option Z :=
  match s with
  | c :: rest =>
      if bool_decide (c = MINUS) then Z.opp <$> readUnsigned rest
      else readUnsigned s
  | [] => None
  end.

End NumberText.
Import NumberText.

(** ** CSV export ([components/ExpenseTracker.tsx], [handleExportCSV]) *)

Module ExpenseTracker.


(** [formatCSVCell]; [String(cellData || '')] is the text itself. *)
Definition formatCSVCell (cellData : jsstring) : jsstring :=
  let cell := cellData in
  if includes cell [COMMA] || includes cell [QUOTE] || includes cell [NEWLINE]
  then [QUOTE] ++ doubleQuotes cell ++ [QUOTE]
  else cell.

Section CsvExport.

Variable members : list Member.
Variable categories : list Category.

Definition getCategory (id : jsstring) : option Category :=
  List.find (λ c, bool_decide (catId c = id)) categories.

Definition getMember (id : jsstring) : option Member :=
  List.find (λ m, bool_decide (memId m = id)) members.

(** [x?.name || fallback] *)
Definition nameOr (name : option jsstring) (fallback : jsstring) : jsstring :=
  match name with
  | Some n => if falsy n then fallback else n
  | None => fallback
  end.

(** The array [row] built for one split of one expense. *)
Definition row (exp : Expense) (split : Split) : list jsstring :=
  [formatCSVCell (expId exp);
   beforeT (iso (date exp));
   formatCSVCell (description exp);
   toFixed2 (expAmount exp);
   formatCSVCell (nameOr (catName <$> getCategory (categoryId exp))
                         (js "Uncategorized"));
   formatCSVCell (nameOr (memName <$> getMember (payerId exp)) (js "Unknown"));
   formatCSVCell (nameOr (memName <$> getMember (memberId split)) (js "Unknown"));
   toFixed2 (amount split)].

(** The rows pushed by the inner [forEach] for one expense. *)
Definition expenseRows (exp : Expense) : list (list jsstring) :=
  row exp <$> filter (λ split, 0 < amount split) (splits exp).

(** The rows pushed for all the expenses shown. *)
Definition dataRows (filteredExpenses : list Expense) : list (list jsstring) :=
  filteredExpenses ≫= expenseRows.



End CsvExport.

(** The columns a reader of the file sums. *)
Definition totalAmountColumn (r : list jsstring) : option Z :=
  r !! 3%nat ≫= readAmount.

Definition memberShareColumn (r : list jsstring) : option Z :=
  r !! 7%nat ≫= readAmount.

End ExpenseTracker.

(** ** Trend series ([utils/chartUtils.ts], [prepareTrendData]) *)

Module ChartUtils.

Definition isLeapYear (year : Z) : bool :=
  ((year mod 4 =? 0) && negb (year mod 100 =? 0)) || (year mod 400 =? 0).

(** Days of month [m] (0 to 11) of [year]. *)
Definition daysOfMonth (year m : Z) : Z :=
  if m =? 1 then (if isLeapYear year then 29 else 28)
  else if (m =? 3) || (m =? 5) || (m =? 8) || (m =? 10) then 30
  else 31.

(** [new Date(year, m + 1, 0).getDate()]: day 0 of the next month is the
    last day of month [m]. *)
Definition daysInCurrentMonthOf (year m : Z) : Z := daysOfMonth year m.

(** [new Date(year, m, 0).getDate()]: the last day of the month before
    [m], which for January is December of the year before. *)
Definition daysInPreviousMonthOf (year m : Z) : Z :=
  if m =? 0 then daysOfMonth (year - 1) 11 else daysOfMonth year (m - 1).

(** [new Date()]: local year, month (0 to 11) and day of month. *)
Record Now := mkNow {
  currentYear : Z;
  currentMonth : Z;
  today : Z
}.

(** The series hold the host's numbers: the source adds [amount / 100]
    to a day's bucket and adds the buckets up, in floating point.
    [null] is [None]. *)
Record TrendData := mkTrendData {
  labels : list jsstring;
  currentMonthData : list (option Float64.double);
  previousMonthData : list Float64.double
}.

(** [new Array(n).fill(0)] *)
Definition filled (n : Z) : list Float64.double :=
  replicate (Z.to_nat n) Float64.zero.

(** [arr[i] += v] on an array of numbers, for an index below the length:
    a negative index names a property that is not an element. *)
Definition addAt (arr : list Float64.double) (i : Z) (v : Float64.double)
    : list Float64.double :=
  if i <? 0 then arr else alter (λ x, Float64.add x v) (Z.to_nat i) arr.

(** The body of the loop over the expenses, on the pair
    [(tempCurrent, tempPrevious)]. *)
Definition aggregate (now : Now) (daysInCurrentMonth daysInPreviousMonth : Z)
    (temp : list Float64.double * list Float64.double) (expense : Expense)
    : list Float64.double * list Float64.double :=
  let '(tempCurrent, tempPrevious) := temp in
  let expenseYear := fullYear (date expense) in
  let expenseMonth := month (date expense) in
  let expenseDay := dayOfMonth (date expense) - 1 in
  let rupees := Float64.quotient (expAmount expense) 100 in
  if (expenseYear =? currentYear now) && (expenseMonth =? currentMonth now)
     && (expenseDay <? daysInCurrentMonth)
  then (addAt tempCurrent expenseDay rupees, tempPrevious)
  else if ((currentMonth now =? 0) && (expenseYear =? currentYear now - 1)
           && (expenseMonth =? 11))
          || ((expenseYear =? currentYear now)
              && (expenseMonth =? currentMonth now - 1))
  then
    if expenseDay <? daysInPreviousMonth
    then (tempCurrent, addAt tempPrevious expenseDay rupees)
    else temp
  else temp.

(** [tempCurrent.reduce(...)] writing [currentMonthData]: entry [i] is
    the running total when [i < today] and [null] otherwise.  The two
    arrays have the same length, so every index written is an element. *)
Fixpoint reduceCurrent (today : Z) (i : nat) (acc : Float64.double)
    (tempCurrent : list Float64.double)
    (currentMonthData : list (option Float64.double))
    : list (option Float64.double) :=
  match tempCurrent with
  | [] => currentMonthData
  | val :: rest =>
      reduceCurrent today (S i) (Float64.add acc val) rest
        (<[i := if Z.of_nat i <? today then Some (Float64.add acc val)
                else None]>
           currentMonthData)
  end.

(** [for (let i = today; i < daysInCurrentMonth; i++)
      currentMonthData[i] = null] *)
Definition fillNulls (today daysInCurrentMonth : Z)
    (currentMonthData : list (option Float64.double))
    : list (option Float64.double) :=
  imap (λ i x, if (today <=? Z.of_nat i) && (Z.of_nat i <? daysInCurrentMonth)
               then None else x)
       currentMonthData.

(** [tempPrevious.reduce(...)] writing [previousMonthData]: entry [i] is
    written only when [i < previousMonthData.length]. *)
Fixpoint reducePrevious (i : nat) (acc : Float64.double)
    (tempPrevious : list Float64.double)
    (previousMonthData : list Float64.double) : list Float64.double :=
  match tempPrevious with
  | [] => previousMonthData
  | val :: rest =>
      reducePrevious (S i) (Float64.add acc val) rest
        (if bool_decide (i < length previousMonthData)%nat
         then <[i := Float64.add acc val]> previousMonthData
         else previousMonthData)
  end.

(** The final adjustment of [previousMonthData] to the length of the
    labels: cut when longer, extended with its last value ([|| 0]) when
    shorter. *)
Definition matchLength (daysInCurrentMonth : Z)
    (previousMonthData : list Float64.double) : list Float64.double :=
  let n := Z.of_nat (length previousMonthData) in
  if daysInCurrentMonth <? n
  then take (Z.to_nat daysInCurrentMonth) previousMonthData
  else if n <? daysInCurrentMonth
  then
    let lastVal := default Float64.zero (last previousMonthData) in
    previousMonthData ++ replicate (Z.to_nat (daysInCurrentMonth - n)) lastVal
  else previousMonthData.

(** The loop over the expenses: the pair [(tempCurrent, tempPrevious)]
    of the amounts per day of the current and of the previous month. *)
Definition dailyTotals (now : Now) (expenses : list Expense)
    : list Float64.double * list Float64.double :=
  let daysInCurrentMonth :=
    daysInCurrentMonthOf (currentYear now) (currentMonth now) in
  let daysInPreviousMonth :=
    daysInPreviousMonthOf (currentYear now) (currentMonth now) in
  foldl (aggregate now daysInCurrentMonth daysInPreviousMonth)
        (filled daysInCurrentMonth, filled daysInPreviousMonth) expenses.

Definition prepareTrendData (now : Now) (expenses : list Expense) : TrendData :=
  let daysInCurrentMonth :=
    daysInCurrentMonthOf (currentYear now) (currentMonth now) in
  let labels :=
    (λ i, natToString (N.of_nat (i + 1))) <$> seq 0 (Z.to_nat daysInCurrentMonth) in
  let currentMonthData := Some <$> filled daysInCurrentMonth in
  let previousMonthData := filled daysInCurrentMonth in
  let '(tempCurrent, tempPrevious) := dailyTotals now expenses in
  let currentMonthData :=
    fillNulls (today now) daysInCurrentMonth
      (reduceCurrent (today now) 0 Float64.zero tempCurrent currentMonthData) in
  let previousMonthData :=
    matchLength daysInCurrentMonth
      (reducePrevious 0 Float64.zero tempPrevious previousMonthData) in
  {| labels := labels;
     currentMonthData := currentMonthData;
     previousMonthData := previousMonthData |}.

End ChartUtils.

(** ** Vocabulary of the statements *)

(** The sum of a list of integers. *)
Definition sumZ (xs : list Z) : Z := foldr Z.add 0 xs.

(** What the splits [ss] charge to the member with id [k]. *)
Definition owed (k : jsstring) (ss : list Split) : Z :=
  sumZ (amount <$> filter (λ s, memberId s = k) ss).

(** A notification is an anomaly notification when its id carries the
    prefix [handleAddExpense] gives to those. *)
Definition isAnomalyNotification (n : Notification) : bool :=
  startsWith (notifId n) (js "notif-anomaly-").

(** The rows [db.addExpense] writes for an expense. *)
Definition expenseRowOf (e : Expense) : Db.ExpenseRow :=
  {| Db.rowId := expId e;
     Db.rowDescription := description e;
     Db.rowAmount := expAmount e;
     Db.rowDate := date e;
     Db.rowMemberId := payerId e;
     Db.rowCategoryId := categoryId e;
     Db.rowTripId := None |}.

Definition splitRowsOf (e : Expense) : list Db.SplitRow :=
  (λ s, {| Db.splitExpenseId := expId e;
           Db.splitMemberId := memberId s;
           Db.splitAmount := amount s |}) <$> splits e.

(** The database [d] with the expense [e] and the notifications [ns]
    added to its tables. *)
Definition persisted (d : Db.Database) (e : Expense) (ns : list Notification)
    : Db.Database :=
  {| Db.tblExpenses := Db.tblExpenses d ++ [expenseRowOf e];
     Db.tblExpenseSplits := Db.tblExpenseSplits d ++ splitRowsOf e;
     Db.tblNotifications := Db.tblNotifications d ++ ns |}.

(** How a call completes that has committed the tables [d] and awaits
    their copy to IndexedDB: it returns when the copy succeeds and
    rejects with the error of [ROLLBACK] when the copy fails. *)
Definition afterCommit {T} (save : T → Result unit) (d : T) : Result unit :=
  match save d with
  | Ok _ => Ok tt
  | Throw _ => Throw (js "cannot rollback - no transaction is active")
  end.

(** What the expenses of the category [cat] dated in the month [m] of
    the year [y] add up to. *)
Definition spentInMonth (household : Household) (cat : jsstring) (y m : Z)
    : Z :=
  sumOf expAmount
    (filter (λ e, categoryId e = cat
                  ∧ fullYear (date e) = y ∧ month (date e) = m)
            (expenses household)).

(** An expense dated after the month [m] of the year [y]. *)
Definition datedAfterMonth (y m : Z) (e : Expense) : Prop :=
  y < fullYear (date e) ∨ (fullYear (date e) = y ∧ m < month (date e)).

(** What the expenses [selected] add up to in the trend chart: their
    amounts divided by 100, added one after the other in the host's
    arithmetic. *)
Definition addedUp (selected : list Expense) : Float64.double :=
  foldl (λ acc e, Float64.add acc (Float64.quotient (expAmount e) 100))
        Float64.zero selected.

(** The dates the trend chart counts in the current month, and those it
    counts in the previous month: December of the year before, seen
    from January. *)
Definition inCurrentMonth (now : ChartUtils.Now) (e : Expense) : Prop :=
  fullYear (date e) = ChartUtils.currentYear now
  ∧ month (date e) = ChartUtils.currentMonth now.

Definition inPreviousMonth (now : ChartUtils.Now) (e : Expense) : Prop :=
  (ChartUtils.currentMonth now = 0
   ∧ fullYear (date e) = ChartUtils.currentYear now - 1
   ∧ month (date e) = 11)
  ∨ (fullYear (date e) = ChartUtils.currentYear now
     ∧ month (date e) = ChartUtils.currentMonth now - 1).

(** The expense [e] without the splits that name nobody in [members]. *)
Definition withoutStrangers (members : list Member) (e : Expense) : Expense :=
  {| expId := expId e;
     description := description e;
     expAmount := expAmount e;
     date := date e;
     payerId := payerId e;
     categoryId := categoryId e;
     splits := filter (λ s, memberId s ∈ memId <$> members) (splits e) |}.

(** The number a row shows. *)
Definition shown (row : Dashboard.MemberSpent) : Z :=
  match Dashboard.memberSpent row with
  | Some (Dashboard.Num z) => z
  | _ => 0
  end.

(** The test of the loop of [suggestCategory] for one rule. *)
Definition ruleMatches (toLowerCase : jsstring → jsstring)
    (description : jsstring) (rule : Rule) : bool :=
  includes (toLowerCase description) (toLowerCase (keyword rule)).

(** The sum of one column over the rows, when every cell reads as an
    amount. *)
Fixpoint columnSum (column : list jsstring → option Z)
    (rows : list (list jsstring)) : option Z :=
  match rows with
  | [] => Some 0
  | r :: rest =>
      v ← column r;
      total ← columnSum column rest;
      Some (v + total)
  end.

(** A cell needs quoting when it holds a comma, a quote or a newline. *)
Definition needsQuoting (cell : jsstring) : Prop :=
  COMMA ∈ cell ∨ QUOTE ∈ cell ∨ NEWLINE ∈ cell.

(** ** The rest of the expense form ([AddExpenseModal.tsx]) *)

Module SplitEditing.

Import AddExpenseModal.

(** The effect that resets the splits when the dialog opens or the payer
    or the amount changes: the payer covers the whole amount. *)
Definition defaultSplits (members : list Member) (payer : jsstring)
    (totalAmountCents : Z) : list Split :=
  (λ member, {| memberId := memId member;
                amount := if bool_decide (memId member = payer)
                          then totalAmountCents else 0 |}) <$> members.

Definition resetSplitsEffect (isOpen : bool) (members : list Member)
    (payer : jsstring) (totalAmountCents : Z) (splits : list Split)
    : list Split :=
  if isOpen then defaultSplits members payer totalAmountCents else splits.

(** [handleSplitAmountChange], from the amount in cents that
    [Math.round(parseFloat(value || '0') * 100)] gives for the text
    typed. *)
Definition handleSplitAmountChange (target : jsstring) (newAmount : Z)
    (prevSplits : list Split) : list Split :=
  (λ split, if bool_decide (memberId split = target)
            then {| memberId := memberId split; amount := newAmount |}
            else split) <$> prevSplits.

(** [isFormValid], as a truth value; the submit button is disabled when
    it is false. *)
Definition isFormValid (f : Form) : bool :=
  negb (falsy (trim (formDescription f)))
  && (0 <? totalAmountCents f)
  && negb (falsy (formCategoryId f))
  && negb (falsy (formMemberId f))
  && (remainingAmount f =? 0).

(** The form after [setSplits(s)]. *)
Definition setSplits (f : Form) (s : list Split) : Form :=
  {| formDescription := formDescription f;
     totalAmountCents := totalAmountCents f;
     formCategoryId := formCategoryId f;
     formMemberId := formMemberId f;
     formDate := formDate f;
     formSplits := s |}.

End SplitEditing.

(** ** Reading the store back ([services/db.ts], [loadHouseholdData];
    [App.tsx], [unreadNotificationsCount]) *)

Module DbLoad.

Section Queries.

(** The engine's [ORDER BY date DESC] on the rows of [expenses] and of
    [notifications]: taken as it comes, a rearrangement of the rows. *)
Variable orderExpenses : list Db.ExpenseRow → list Db.ExpenseRow.
Variable orderNotifications : list Notification → list Notification.

(** [SELECT * FROM expense_splits WHERE expenseId = :id], in table
    order. *)
Definition loadSplits (d : Db.Database) (id : jsstring) : list Split :=
  (λ r, {| memberId := Db.splitMemberId r; amount := Db.splitAmount r |})
  <$> filter (λ r, Db.splitExpenseId r = id) (Db.tblExpenseSplits d).

(** The field [expenses] of the snapshot:
    [SELECT * FROM expenses WHERE tripId IS NULL ORDER BY date DESC],
    each row with its splits. *)
Definition loadExpenses (d : Db.Database) : list Expense :=
  (λ e, {| expId := Db.rowId e;
           description := Db.rowDescription e;
           expAmount := Db.rowAmount e;
           date := Db.rowDate e;
           payerId := Db.rowMemberId e;
           categoryId := Db.rowCategoryId e;
           splits := loadSplits d (Db.rowId e) |})
  <$> orderExpenses (filter (λ e, Db.rowTripId e = None) (Db.tblExpenses d)).

(** The field [notifications] of the snapshot. *)
Definition loadNotifications (d : Db.Database) : list Notification :=
  orderNotifications (Db.tblNotifications d).

End Queries.

(** [household.notifications.filter(n => !n.isRead).length] *)
Definition unreadNotificationsCount (notifications : list Notification) : nat :=
  length (filter (λ n, isRead n = false) notifications).

End DbLoad.

(** ** Relative times ([utils/time.ts], [timeAgo]) *)

Module Time.

(** [n.toString()] for an integer below 10^21 in absolute value. *)
Definition numberText (z : Z) : jsstring :=
  (if z <? 0 then [MINUS] else []) ++ natToString (Z.to_N (Z.abs z)).

(** [timeAgo], from the time values in milliseconds of [new Date()] and
    of the date given, both valid.  [Math.floor] of the quotient by 1000
    is the quotient of the integers, rounded down.  The source divides
    [seconds] by the length of a unit in floating point, compares the
    quotient with 1 and rounds it down; on the seconds between two dates
    the quotient of the integers gives the same answers. *)
Definition timeAgo (nowMs dateMs : Z) : jsstring :=
  let seconds := (nowMs - dateMs) / 1000 in
  if 31536000 <? seconds then numberText (seconds / 31536000) ++ js "y ago"
  else if 2592000 <? seconds then numberText (seconds / 2592000) ++ js "mo ago"
  else if 86400 <? seconds then numberText (seconds / 86400) ++ js "d ago"
  else if 3600 <? seconds then numberText (seconds / 3600) ++ js "h ago"
  else if 60 <? seconds then numberText (seconds / 60) ++ js "m ago"
  else numberText seconds ++ js "s ago".

End Time.

(** ** Budgets and rules in the settings ([components/Settings.tsx]) *)

Module Settings.

(** [handleBudgetChange], from the amount in cents that
    [Math.round(parseFloat(newAmount || '0') * 100)] gives for the text
    typed: the list handed to [onUpdate({ budgets })]. *)
Definition handleBudgetChange (budgets : list Budget) (categoryId : jsstring)
    (amountInCents : Z) : list Budget :=
  match List.find (λ b, bool_decide (budCategoryId b = categoryId)) budgets with
  | Some existingBudget =>
      (λ b, if bool_decide (budCategoryId b = categoryId)
            then {| budId := budId b; budCategoryId := budCategoryId b;
                    budAmount := amountInCents |}
            else b) <$> budgets
  | None =>
      budgets ++ [{| budId := js "bud-" ++ categoryId;
                     budCategoryId := categoryId;
                     budAmount := amountInCents |}]
  end.

Section Rules.

Variable toLowerCase : jsstring → jsstring.

(** [handleAddRule]: [None] when the handler returns early, otherwise
    the list handed to [onUpdate({ rules })].  [uuid] is the value of
    [crypto.randomUUID()]. *)
Definition handleAddRule (rules : list Rule) (uuid : jsstring)
    (newRuleKeyword newRuleCategoryId : jsstring) : option (list Rule) :=
  if falsy (trim newRuleKeyword) || falsy newRuleCategoryId then None
  else Some (rules ++ [{| ruleId := js "rule-" ++ uuid;
                          keyword := toLowerCase (trim newRuleKeyword);
                          ruleCategoryId := newRuleCategoryId |}]).

End Rules.

(** [handleDeleteRule]: the list handed to [onUpdate({ rules })]. *)
Definition handleDeleteRule (rules : list Rule) (id : jsstring) : list Rule :=
  filter (λ rule, ruleId rule ≠ id) rules.

End Settings.

(** The household with other budgets. *)
Definition withBudgets (household : Household) (newBudgets : list Budget)
    : Household :=
  {| members := members household;
     categories := categories household;
     rules := rules household;
     expenses := expenses household;
     budgets := newBudgets;
     notifications := notifications household |}.

(** ** Updating rules and budgets in the store ([services/db.ts],
    [updateHousehold]) *)

Module DbUpdate.

(** The tables [rules] and [budgets].  [rules.id] and [budgets.id] are
    primary keys, [budgets.categoryId] is declared [UNIQUE]. *)
Record Tables := mkTables {
  tblRules : list Rule;
  tblBudgets : list Budget
}.

(** The fields [rules] and [budgets] of the partial household handed
    to [updateHousehold]; the other fields are absent. *)
Record Update := mkUpdate {
  dataRules : option (list Rule);
  dataBudgets : option (list Budget)
}.

(** [INSERT INTO rules] *)
Definition insertRule (r : Rule) (t : Tables) : Result Tables :=
  if bool_decide (ruleId r ∈ ruleId <$> tblRules t)
  then Throw (js "UNIQUE constraint failed: rules.id")
  else Ok {| tblRules := tblRules t ++ [r]; tblBudgets := tblBudgets t |}.

(** [INSERT INTO budgets] *)
Definition insertBudget (b : Budget) (t : Tables) : Result Tables :=
  if bool_decide (budId b ∈ budId <$> tblBudgets t)
  then Throw (js "UNIQUE constraint failed: budgets.id")
  else if bool_decide (budCategoryId b ∈ budCategoryId <$> tblBudgets t)
  then Throw (js "UNIQUE constraint failed: budgets.categoryId")
  else Ok {| tblRules := tblRules t; tblBudgets := tblBudgets t ++ [b] |}.

(** [xs.forEach(x => stmt.run(x))] on the tables. *)
Fixpoint forEachM {A} (run : A → Tables → Result Tables) (xs : list A)
    (t : Tables) : Result Tables :=
  match xs with
  | [] => Ok t
  | x :: rest => t' ← run x t; forEachM run rest t'
  end.

(** [db.exec("ROLLBACK;")] *)
Definition rollback (open : option Tables) (t : Tables)
    : Tables * Result unit :=
  match open with
  | Some atBegin => (atBegin, Ok tt)
  | None => (t, Throw (js "cannot rollback - no transaction is active"))
  end.

Section Persist.

(** [saveDbToIndexedDB], taken as it comes. *)
Variable saveDbToIndexedDB : Tables → Result unit.

(** [updateHousehold] for an update of rules and budgets: the tables
    after the call, and how the call completes.  Each table present in
    the update is emptied and written again inside one transaction,
    then [COMMIT] and the awaited copy to IndexedDB, all inside the
    [try].  The handler runs [ROLLBACK] and logs the error: after a
    failed insert everything is rolled back and the call returns
    normally; after a failed copy the transaction is already committed,
    [ROLLBACK] throws and the call rejects.  The module variable [db] is
    [None] before [initDB] has opened the database. *)
Definition updateHousehold (data : Update) (db : option Tables)
    : option Tables * Result unit :=
  match db with
  | None => (None, Ok tt)
  | Some t =>
      match
        t1 ← match dataRules data with
             | Some rules =>
                 forEachM insertRule rules
                   {| tblRules := []; tblBudgets := tblBudgets t |}
             | None => Ok t
             end;
        match dataBudgets data with
        | Some budgets =>
            forEachM insertBudget budgets
              {| tblRules := tblRules t1; tblBudgets := [] |}
        | None => Ok t1
        end
      with
      | Throw err =>
          let '(t', completion) := rollback (Some t) t in
          (Some t', completion)
      | Ok t2 =>
          match saveDbToIndexedDB t2 with
          | Ok _ => (Some t2, Ok tt)
          | Throw err =>
              let '(t', completion) := rollback None t2 in
              (Some t', completion)
          end
      end
  end.

End Persist.

End DbUpdate.

(** ** Importing a bank statement ([services/geminiService.ts],
    [categorizeTransactions]; [components/ImportReview.tsx]) *)

Module StatementImport.

Inductive TransactionType := credit | debit.

#[global] Instance TransactionType_eq_dec : EqDecision TransactionType.
Proof. solve_decision. Defined.

Section Transactions.

(** The numbers a statement holds for its amounts ([t.amount], not in
    cents) and [Math.round(t.amount * 100)] on them. *)
Variable Amount : Type.
Variable amountInCents : Amount → Z.

(** [new Date(t.date).toISOString()], which throws a [RangeError] when
    the text is not a date. *)
Variable toISODate : jsstring → Result JsDate.

Variable toLowerCase : jsstring → jsstring.

Record UncategorizedTransaction := mkUncategorized {
  txDate : jsstring;
  txDescription : jsstring;
  txAmount : Amount;
  txType : TransactionType
}.

(** [{ ...t, categoryId }]; the category is [undefined] when the
    fallback finds none. *)
Record CategorizedTransaction := mkCategorized {
  uncategorized : UncategorizedTransaction;
  txCategoryId : option jsstring
}.

(** The answer of the language model to the prompt built from the
    household and the descriptions, after [JSON.parse]: an array of
    strings, as the response schema asks, or an exception. *)
Variable askCategoryIds :
  Household → list jsstring → Result (list jsstring).

(** [household.categories.find(c => c.name.toLowerCase() === 'other')?.id
     || household.categories[0]?.id] *)
Definition otherCategoryId (household : Household) : option jsstring :=
  let first := catId <$> head (categories household) in
  match List.find (λ c, bool_decide (toLowerCase (catName c) = js "other"))
                  (categories household) with
  | Some c => if falsy (catId c) then first else Some (catId c)
  | None => first
  end.

Definition categorizeTransactions
    (transactions : list UncategorizedTransaction) (household : Household)
    : Result (list CategorizedTransaction) :=
  if bool_decide (length transactions = 0%nat) then Ok []
  else
    categoryIds ← askCategoryIds household (txDescription <$> transactions);
    if bool_decide (length categoryIds ≠ length transactions)
    then
      Ok ((λ t, {| uncategorized := t;
                   txCategoryId := otherCategoryId household |})
          <$> transactions)
    else
      Ok (imap (λ index transaction,
                  {| uncategorized := transaction;
                     txCategoryId := categoryIds !! index |})
               transactions).

(** A transaction under review: the type [ParsedTransaction]. *)
Record ParsedTransaction := mkParsed {
  parsedDate : jsstring;
  parsedDescription : jsstring;
  parsedAmount : Amount;
  parsedType : TransactionType;
  parsedCategoryId : jsstring;
  parsedMemberId : jsstring
}.

(** The transactions handed to the review, of type
    [Omit<ParsedTransaction, 'memberId'>]: the member is not read. *)
Definition initialReviewableTransactions (members : list Member)
    (transactions : list ParsedTransaction) : list ParsedTransaction :=
  let defaultMemberId := default [] (memId <$> head members) in
  (λ t, {| parsedDate := parsedDate t;
           parsedDescription := parsedDescription t;
           parsedAmount := parsedAmount t;
           parsedType := parsedType t;
           parsedCategoryId := parsedCategoryId t;
           parsedMemberId := defaultMemberId |})
  <$> filter (λ t, parsedType t = debit) transactions.

(** The selection is a [Set] of indices, here the list of its elements
    in the order of insertion. *)
Definition initialSelectedRows (reviewable : list ParsedTransaction)
    : list nat :=
  seq 0 (length reviewable).

Definition handleSelectionChange (selectedRows : list nat) (index : nat)
    : list nat :=
  if bool_decide (index ∈ selectedRows)
  then filter (λ i, i ≠ index) selectedRows
  else selectedRows ++ [index].

Definition handleSelectAll (checked : bool)
    (reviewable : list ParsedTransaction) : list nat :=
  if checked then seq 0 (length reviewable) else [].

(** The body of [selectedRows.forEach] in [handleImportSelected]: the
    expense pushed for one index.  Reading a property of
    [reviewableTransactions[index]] throws when the index is out of
    range. *)
Definition expenseToImport (reviewable : list ParsedTransaction)
    (index : nat) : Result NewExpense :=
  match reviewable !! index with
  | None => Throw (js "TypeError: Cannot read properties of undefined")
  | Some t =>
      let amountInCents := amountInCents (parsedAmount t) in
      isoDate ← toISODate (parsedDate t);
      Ok {| newDescription := parsedDescription t;
            newAmount := amountInCents;
            newCategoryId := parsedCategoryId t;
            newMemberId := parsedMemberId t;
            newDate := isoDate;
            newSplits := [{| memberId := parsedMemberId t;
                             amount := amountInCents |}] |}
  end.

Fixpoint expensesToImport (reviewable : list ParsedTransaction)
    (selectedRows : list nat) : Result (list NewExpense) :=
  match selectedRows with
  | [] => Ok []
  | index :: rest =>
      e ← expenseToImport reviewable index;
      es ← expensesToImport reviewable rest;
      Ok (e :: es)
  end.

(** [prev.filter((_, index) => !importedIndices.has(index))], from
    position [index] on. *)
Fixpoint withoutImported (importedIndices : list nat) (index : nat)
    (prev : list ParsedTransaction) : list ParsedTransaction :=
  match prev with
  | [] => []
  | t :: rest =>
      if bool_decide (index ∈ importedIndices)
      then withoutImported importedIndices (S index) rest
      else t :: withoutImported importedIndices (S index) rest
  end.

End Transactions.

Arguments txDate {Amount} _.
Arguments txDescription {Amount} _.
Arguments txAmount {Amount} _.
Arguments txType {Amount} _.
Arguments uncategorized {Amount} _.
Arguments txCategoryId {Amount} _.
Arguments parsedDate {Amount} _.
Arguments parsedDescription {Amount} _.
Arguments parsedAmount {Amount} _.
Arguments parsedType {Amount} _.
Arguments parsedCategoryId {Amount} _.
Arguments parsedMemberId {Amount} _.

End StatementImport.

(** A selection of rows of the review: indices of the list, each once. *)
Definition selectionOk {A} (reviewable : list A) (selectedRows : list nat)
    : Prop :=
  NoDup selectedRows ∧ ∀ i, i ∈ selectedRows → (i < length reviewable)%nat.

(** ** The list of expenses ([components/ExpenseTracker.tsx],
    [filteredExpenses]) *)

Module ExpenseList.

Definition ALL : jsstring := js "all".

Record Filter := mkFilter {
  filterMemberId : jsstring;
  filterCategoryId : jsstring
}.

(** [exp.splits.some(s => s.memberId === filter.memberId && s.amount > 0)] *)
Definition hasShare (memberId' : jsstring) (exp : Expense) : bool :=
  existsb (λ s, bool_decide (memberId s = memberId') && (0 <? amount s))
          (splits exp).

Section Sorting.

(** [new Date(exp.date).getTime()] *)
Variable getTime : JsDate → Z.

(** The comparator [(a, b) => new Date(b.date).getTime()
    - new Date(a.date).getTime()]. *)
Definition byDateDescending (a b : Expense) : Z :=
  getTime (date b) - getTime (date a).

(** [Array.prototype.sort] is stable: [a] moves behind [b] only when the
    comparator is positive. *)
Fixpoint sortInsert (compare : Expense → Expense → Z) (x : Expense)
    (sorted : list Expense) : list Expense :=
  match sorted with
  | [] => [x]
  | y :: rest =>
      if 0 <? compare x y
      then y :: sortInsert compare x rest
      else x :: y :: rest
  end.

Definition sort (compare : Expense → Expense → Z) (xs : list Expense)
    : list Expense :=
  foldr (sortInsert compare) [] xs.

Definition filteredExpenses (expenses : list Expense) (filter' : Filter)
    : list Expense :=
  sort byDateDescending
    (filter (λ exp, bool_decide (filterCategoryId filter' = ALL)
                    || bool_decide (categoryId exp = filterCategoryId filter'))
       (filter (λ exp, bool_decide (filterMemberId filter' = ALL)
                       || hasShare (filterMemberId filter') exp)
          expenses)).

(** [filteredExpenses.reduce((sum, exp) => sum + exp.amount, 0)] *)
Definition totalFilteredAmount (expenses : list Expense) (filter' : Filter)
    : Z :=
  sumOf expAmount (filteredExpenses expenses filter').

End Sorting.

End ExpenseList.



(** * Properties *)

Import AddExpenseModal.

(** ** Sums *)

Section Sums.

Context {A : Type} (f : A → Z).

Lemma foldl_sum_shift (xs : list A) (a : Z) :
  foldl (λ sum x, sum + f x) a xs = a + sumOf f xs.
Proof.
  unfold sumOf. revert a.
  induction xs as [|x xs IH]; intros a; simpl; [lia|].
  rewrite (IH (a + f x)), (IH (0 + f x)). lia.
Qed.

Lemma sumOf_nil : sumOf f [] = 0.
Proof. reflexivity. Qed.

Lemma sumOf_cons (x : A) (xs : list A) : sumOf f (x :: xs) = f x + sumOf f xs.
Proof. unfold sumOf at 1. simpl. rewrite foldl_sum_shift. lia. Qed.

Lemma sumOf_app (xs ys : list A) : sumOf f (xs ++ ys) = sumOf f xs + sumOf f ys.
Proof.
  induction xs as [|x xs IH]; simpl; [rewrite sumOf_nil; lia|].
  rewrite !sumOf_cons, IH. lia.
Qed.

End Sums.

(** ** Equal split *)

Lemma shares_sum (q r : Z) (members : list Member) (k : nat) :
  sumOf amount (imap (λ i, equalShare q r (k + i)) members)
  = q * Z.of_nat (length members)
    + Z.max 0 (Z.min (r - Z.of_nat k) (Z.of_nat (length members))).
Proof.
  revert k. induction members as [|m members IH]; intros k.
  - simpl. rewrite sumOf_nil. lia.
  - rewrite imap_cons, sumOf_cons.
    rewrite (imap_ext _ (λ i, equalShare q r (S k + i))) by
      (intros i x _; simpl; f_equal; lia).
    rewrite IH. simpl amount. rewrite Nat.add_0_r.
    destruct (Z.ltb_spec (Z.of_nat k) r); simpl length; lia.
Qed.

Lemma shares_ids (q r : Z) (members : list Member) (k : nat) :
  memberId <$> imap (λ i, equalShare q r (k + i)) members = memId <$> members.
Proof.
  revert k. induction members as [|m members IH]; intros k; [done|].
  rewrite imap_cons.
  rewrite (imap_ext _ (λ i, equalShare q r (S k + i))) by
    (intros i x _; simpl; f_equal; lia).
  rewrite fmap_cons, IH. reflexivity.
Qed.

Lemma handleSplitEqually_unfold (total : Z) (members : list Member)
    (splits : list Split) :
  0 < total → members ≠ [] →
  handleSplitEqually total members splits
  = imap (equalShare (total / Z.of_nat (length members))
                     (total mod Z.of_nat (length members)))
         members.
Proof.
  intros Htotal Hne. unfold handleSplitEqually.
  assert (0 < length members)%nat by (destruct members; simpl; [done|lia]).
  rewrite (proj2 (Z.leb_gt _ _)) by lia.
  rewrite bool_decide_eq_false_2 by lia. simpl.
  rewrite Z.rem_mod_nonneg by lia. reflexivity.
Qed.

(** C1.  For a positive total and a non-empty member list, the equal
    split has one split per member in member order; the member at
    position [i] gets [floor(total / n)] cents plus one cent when
    [i < total mod n]; the amounts add up to the total exactly.  For
    1000 cents and three members the amounts are 334, 333, 333. *)
Theorem handleSplitEqually_correct (total : Z) (members : list Member)
    (splits : list Split) :
  0 < total → members ≠ [] →
  let n := Z.of_nat (length members) in
  let result := handleSplitEqually total members splits in
  memberId <$> result = memId <$> members
  ∧ (∀ (i : nat) (m : Member), members !! i = Some m →
       result !! i
       = Some {| memberId := memId m;
                 amount := total / n
                           + (if Z.of_nat i <? total mod n then 1 else 0) |})
  ∧ sumOf amount result = total
  ∧ (∀ a b c : Member,
       amount <$> handleSplitEqually 1000 [a; b; c] splits = [334; 333; 333]).
Proof.
  intros Htotal Hne n result. subst result.
  rewrite handleSplitEqually_unfold by done. fold n.
  assert (0 < n) by (subst n; destruct members; simpl; [done|lia]).
  pose proof (Z.mod_pos_bound total n ltac:(lia)) as Hmod.
  split; [|split; [|split]].
  - apply (shares_ids (total / n) (total mod n) members 0).
  - intros i m Hm. rewrite list_lookup_imap, Hm. reflexivity.
  - etransitivity;
      [exact (shares_sum (total / n) (total mod n) members 0)|].
    fold n. pose proof (Z.div_mod total n ltac:(lia)). lia.
  - intros a b c. reflexivity.
Qed.

(** The case of the claim, 1000 cents over three members. *)
Lemma handleSplitEqually_correct_witness :
  let members := [mkMember (js "mem-1") (js "Rohan") [];
                  mkMember (js "mem-2") (js "Priya") [];
                  mkMember (js "mem-3") (js "Asha") []] in
  amount <$> handleSplitEqually 1000 members [] = [334; 333; 333]
  ∧ sumOf amount (handleSplitEqually 1000 members []) = 1000.
Proof.
  intros members.
  destruct (handleSplitEqually_correct 1000 members [])
    as (_ & _ & Hsum & Hexample).
  - lia.
  - discriminate.
  - split; [apply Hexample | exact Hsum].
Defined.

(** ** Submitting the form *)

Lemma handleSubmit_rejects (f : Form) :
  trim (formDescription f) = []
  ∨ totalAmountCents f ≤ 0
  ∨ totalSplitAmount (formSplits f) ≠ totalAmountCents f →
  handleSubmit f = None.
Proof.
  intros Hbad. unfold handleSubmit, falsy, remainingAmount.
  destruct Hbad as [Hdesc | [Htotal | Hsum]].
  - rewrite bool_decide_eq_true_2 by done. reflexivity.
  - rewrite (proj2 (Z.leb_le _ _)) by done.
    rewrite orb_true_r. reflexivity.
  - rewrite (proj2 (Z.ltb_lt 0 _)) by lia.
    rewrite !orb_true_r. reflexivity.
Qed.

Lemma handleSubmit_accepted (f : Form) (e : NewExpense) :
  handleSubmit f = Some e →
  trim (formDescription f) ≠ []
  ∧ 0 < totalAmountCents f
  ∧ totalSplitAmount (formSplits f) = totalAmountCents f
  ∧ newAmount e = totalAmountCents f
  ∧ newSplits e = filter (λ s, 0 < amount s) (formSplits f).
Proof.
  unfold handleSubmit, falsy, remainingAmount.
  destruct (bool_decide (trim (formDescription f) = [])) eqn:Hdesc; [done|].
  destruct (Z.leb_spec (totalAmountCents f) 0); [done|].
  destruct (bool_decide (formCategoryId f = [])); [done|].
  destruct (bool_decide (formMemberId f = [])); [done|].
  destruct (Z.ltb_spec 0
              (Z.abs (totalAmountCents f - totalSplitAmount (formSplits f))));
    [done|].
  simpl. intros [= <-]. simpl.
  apply bool_decide_eq_false in Hdesc.
  repeat split; [done | lia | lia].
Qed.

(** Accepted splits of amount zero are not persisted. *)
Lemma handleSubmit_drops_zero (f : Form) (e : NewExpense) (s : Split) :
  handleSubmit f = Some e → s ∈ newSplits e → amount s ≠ 0.
Proof.
  intros Hok Hs. apply handleSubmit_accepted in Hok as (_ & _ & _ & _ & Heq).
  rewrite Heq in Hs. apply list_elem_of_filter in Hs as [? _]. lia.
Qed.

Lemma sumOf_filter_positive (l : list Split) :
  (∀ s, s ∈ l → 0 ≤ amount s) →
  sumOf amount (filter (λ s, 0 < amount s) l) = sumOf amount l.
Proof.
  induction l as [|s l IH]; intros Hall; [done|].
  assert (0 ≤ amount s) by (apply Hall; left).
  assert (sumOf amount (filter (λ s, 0 < amount s) l) = sumOf amount l) as IH'
    by (apply IH; intros y Hy; apply Hall; by right).
  rewrite filter_cons. case_decide.
  - rewrite !sumOf_cons, IH'. reflexivity.
  - rewrite sumOf_cons, IH'. lia.
Qed.

(** When no split of the form is negative, the persisted splits add up
    to the amount of the expense. *)
Lemma handleSubmit_sum_when_nonnegative (f : Form) (e : NewExpense) :
  (∀ s, s ∈ formSplits f → 0 ≤ amount s) →
  handleSubmit f = Some e →
  sumOf amount (newSplits e) = newAmount e.
Proof.
  intros Hall Hok.
  apply handleSubmit_accepted in Hok as (_ & _ & Hsum & Hamount & Hsplits).
  rewrite Hamount, Hsplits, sumOf_filter_positive by done. exact Hsum.
Qed.

(** C2.  The form with total 1000 cents and the shares 15.00 and -5.00
    passes the checks of [handleSubmit] (the shares add up to the
    total), the negative share is dropped with the zero ones, and the
    expense handed on has the amount 1000 with splits adding up to 1500:
    the persisted splits do not sum to the amount. *)
Theorem handleSubmit_negative_share_breaks_sum :
  let f := {| formDescription := js "Dinner";
              totalAmountCents := 1000;
              formCategoryId := js "cat-3";
              formMemberId := js "mem-1";
              formDate := mkDate (js "2024-03-10T00:00:00.000Z") 2024 2 10;
              formSplits := [mkSplit (js "mem-1") 1500;
                             mkSplit (js "mem-2") (-500)] |} in
  totalSplitAmount (formSplits f) = totalAmountCents f
  ∧ ∃ e, handleSubmit f = Some e
         ∧ newAmount e = 1000
         ∧ newSplits e = [mkSplit (js "mem-1") 1500]
         ∧ sumOf amount (newSplits e) = 1500.
Proof.
  intros f. split; [reflexivity|].
  eexists. split; [reflexivity|]. repeat split.
Qed.

(** ** Budget notifications *)

Import App.

Lemma numLt_spec (a b : Q) : numLt a b = true ↔ (a < b)%Q.
Proof.
  unfold numLt. rewrite negb_true_iff, <- not_true_iff_false, Qle_bool_iff.
  split; [apply Qnot_le_lt | apply Qlt_not_le].
Qed.

Lemma numGe_spec (a b : Q) : numGe a b = true ↔ (b <= a)%Q.
Proof. apply Qle_bool_iff. Qed.

(** The thresholds of the budget check.  For an expense whose category
    has a budget [b > 0], with [s0] what the check itself adds up (the
    expenses of the category dated on or after the first of the current
    month, later months included) and [s1 = s0 + amount]: the error
    notification (budget exceeded) is
    emitted iff [s0 < b] and [s1 >= b]; the warning notification
    (approaching budget) is emitted iff that is not the case and
    [s0 < 0.9 b], [s1 >= 0.9 b] and [s1 < b]; at most one notification
    is emitted, never both. *)
Lemma budgetAlertCheck_thresholds (formatCurrencyForNotif : Z → jsstring)
    (household : Household) (newExpense : NewExpense) (env : Env)
    (budget : Budget) :
  List.find (λ b, bool_decide (budCategoryId b = newCategoryId newExpense))
            (budgets household) = Some budget →
  0 < budAmount budget →
  let b := budAmount budget in
  let s0 := spentBefore household newExpense env in
  let s1 := s0 + newAmount newExpense in
  let name := categoryName household (newCategoryId newExpense) in
  let emitted := budgetAlertCheck formatCurrencyForNotif household newExpense env in
  let exceeded := budgetExceeded formatCurrencyForNotif env budget name in
  let approaching := budgetWarning formatCurrencyForNotif env budget name in
  type exceeded = error
  ∧ type approaching = warning
  ∧ (exceeded ∈ emitted ↔ s0 < b ∧ b ≤ s1)
  ∧ (approaching ∈ emitted ↔
       ¬ (s0 < b ∧ b ≤ s1)
       ∧ (inject_Z s0 < inject_Z b * 0.9)%Q
       ∧ (inject_Z b * 0.9 <= inject_Z s1)%Q
       ∧ s1 < b)
  ∧ (emitted = [exceeded] ∨ emitted = [approaching] ∨ emitted = [])
  ∧ ¬ (exceeded ∈ emitted ∧ approaching ∈ emitted).
Proof.
  intros Hfind Hpos b s0 s1 name emitted exceeded approaching.
  assert (exceeded ≠ approaching) as Hne by (intros [=]).
  subst emitted. unfold budgetAlertCheck. rewrite Hfind.
  rewrite (proj2 (Z.ltb_lt 0 _)) by done.
  unfold spentAfter. fold b s0 s1 name. cbv zeta.
  fold exceeded approaching.
  split; [done|]. split; [done|].
  assert ((s0 <? b) && (b <=? s1) = true ↔ s0 < b ∧ b ≤ s1) as Hc1
    by (rewrite andb_true_iff, Z.ltb_lt, Z.leb_le; done).
  assert (numLt (inject_Z s0) (inject_Z b * 0.9)
          && numGe (inject_Z s1) (inject_Z b * 0.9) && (s1 <? b) = true
          ↔ (inject_Z s0 < inject_Z b * 0.9)%Q
            ∧ (inject_Z b * 0.9 <= inject_Z s1)%Q ∧ s1 < b) as Hc2
    by (rewrite !andb_true_iff, numLt_spec, numGe_spec, Z.ltb_lt; tauto).
  destruct ((s0 <? b) && (b <=? s1)) eqn:Ec1.
  - assert (s0 < b ∧ b ≤ s1) as H1 by (by apply Hc1).
    rewrite !list_elem_of_singleton.
    repeat split; try tauto; try (intros; exfalso; intuition congruence);
      intros [? ?]; congruence.
  - assert (¬ (s0 < b ∧ b ≤ s1)) as H1
      by (intros H; apply Hc1 in H; discriminate).
    destruct (numLt (inject_Z s0) (inject_Z b * 0.9)
              && numGe (inject_Z s1) (inject_Z b * 0.9) && (s1 <? b)) eqn:Ec2.
    + assert ((inject_Z s0 < inject_Z b * 0.9)%Q
              ∧ (inject_Z b * 0.9 <= inject_Z s1)%Q ∧ s1 < b) as H2
        by (by apply Hc2).
      rewrite !list_elem_of_singleton.
      repeat split; try tauto; try (intros; exfalso; intuition congruence);
      intros [? ?]; congruence.
    + assert (¬ ((inject_Z s0 < inject_Z b * 0.9)%Q
                 ∧ (inject_Z b * 0.9 <= inject_Z s1)%Q ∧ s1 < b)) as H2
        by (intros H; apply Hc2 in H; discriminate).
      rewrite !elem_of_nil.
      repeat split; try tauto.
Qed.

(** ** The store *)

Lemma forEachM_insertSplit (e : Expense) (ss : list Split) (d : Db.Database) :
  Db.forEachM (λ s, Db.insertSplit {| Db.splitExpenseId := expId e;
                                      Db.splitMemberId := memberId s;
                                      Db.splitAmount := amount s |}) ss d
  = Ok {| Db.tblExpenses := Db.tblExpenses d;
          Db.tblExpenseSplits :=
            Db.tblExpenseSplits d
            ++ ((λ s, {| Db.splitExpenseId := expId e;
                         Db.splitMemberId := memberId s;
                         Db.splitAmount := amount s |}) <$> ss);
          Db.tblNotifications := Db.tblNotifications d |}.
Proof.
  revert d. induction ss as [|s ss IH]; intros d; simpl.
  - rewrite app_nil_r. by destruct d.
  - unfold mbind, Result_bind. simpl. rewrite IH. simpl.
    rewrite <- app_assoc. reflexivity.
Qed.

Lemma insertNotification_fresh (n : Notification) (d : Db.Database) :
  notifId n ∉ notifId <$> Db.tblNotifications d →
  Db.insertNotification n d
  = Ok {| Db.tblExpenses := Db.tblExpenses d;
          Db.tblExpenseSplits := Db.tblExpenseSplits d;
          Db.tblNotifications := Db.tblNotifications d ++ [n] |}.
Proof.
  intros Hfresh. unfold Db.insertNotification.
  by rewrite bool_decide_eq_false_2.
Qed.

Lemma forEachM_insertNotification (ns : list Notification) (d : Db.Database) :
  NoDup (notifId <$> ns) →
  (∀ n, n ∈ ns → notifId n ∉ notifId <$> Db.tblNotifications d) →
  Db.forEachM Db.insertNotification ns d
  = Ok {| Db.tblExpenses := Db.tblExpenses d;
          Db.tblExpenseSplits := Db.tblExpenseSplits d;
          Db.tblNotifications := Db.tblNotifications d ++ ns |}.
Proof.
  revert d. induction ns as [|n ns IH]; intros d Hnodup Hfresh.
  - simpl. rewrite app_nil_r. by destruct d.
  - rewrite fmap_cons in Hnodup. apply NoDup_cons in Hnodup as [Hn Hnodup].
    cbn [Db.forEachM].
    rewrite insertNotification_fresh by (apply Hfresh; left).
    unfold mbind, Result_bind. rewrite IH; simpl.
    + rewrite <- app_assoc. reflexivity.
    + exact Hnodup.
    + intros m Hm. rewrite fmap_app, elem_of_app. simpl.
      intros [Hin | Hin%list_elem_of_singleton].
      * by apply (Hfresh m); [right|].
      * apply Hn. rewrite <- Hin. by apply list_elem_of_fmap_2.
Qed.

Lemma insertNotification_taken (n : Notification) (d : Db.Database) :
  notifId n ∈ notifId <$> Db.tblNotifications d →
  Db.insertNotification n d
  = Throw (js "UNIQUE constraint failed: notifications.id").
Proof.
  intros Hin. unfold Db.insertNotification.
  by rewrite bool_decide_eq_true_2.
Qed.

Lemma forEachM_insertNotification_fails (ns : list Notification)
    (d : Db.Database) :
  ¬ (NoDup (notifId <$> ns)
     ∧ ∀ n, n ∈ ns → notifId n ∉ notifId <$> Db.tblNotifications d) →
  ∃ reason, Db.forEachM Db.insertNotification ns d = Throw reason.
Proof.
  revert d. induction ns as [|n ns IH]; intros d Hbad.
  { exfalso. apply Hbad. split; [apply NoDup_nil_2|].
    by intros n []%elem_of_nil. }
  cbn [Db.forEachM].
  destruct (decide (notifId n ∈ notifId <$> Db.tblNotifications d))
    as [Hin|Hout].
  { rewrite insertNotification_taken by done. by eexists. }
  rewrite insertNotification_fresh by done.
  unfold mbind, Result_bind. apply IH. simpl. intros [Hnodup Hfresh].
  apply Hbad. split.
  - rewrite fmap_cons. apply NoDup_cons. split; [|done].
    intros (m & Heq & Hm)%list_elem_of_fmap.
    apply (Hfresh m Hm). rewrite fmap_app, elem_of_app. right.
    rewrite <- Heq. left.
  - intros m [->|Hm]%elem_of_cons; [done|].
    intros Hin. apply (Hfresh m Hm). rewrite fmap_app, elem_of_app. by left.
Qed.

(** With fresh keys the transaction commits and the rows are there; the
    call completes as the copy to IndexedDB lets it. *)
Lemma addExpense_commits (save : Db.Database → Result unit) (e : Expense)
    (ns : list Notification) (d : Db.Database) :
  expId e ∉ Db.rowId <$> Db.tblExpenses d →
  NoDup (notifId <$> ns) →
  (∀ n, n ∈ ns → notifId n ∉ notifId <$> Db.tblNotifications d) →
  Db.addExpense save e ns (Some d)
  = (Some (persisted d e ns), afterCommit save (persisted d e ns)).
Proof.
  intros He Hnodup Hfresh. unfold Db.addExpense, Db.insertExpense.
  simpl. rewrite bool_decide_eq_false_2 by done.
  unfold mbind, Result_bind. rewrite forEachM_insertSplit. simpl.
  rewrite forEachM_insertNotification by done.
  unfold afterCommit, persisted, splitRowsOf, expenseRowOf. simpl.
  by destruct (save _).
Qed.

(** With a key that is taken the transaction is rolled back and the call
    returns normally; nothing is copied to IndexedDB. *)
Lemma addExpense_rolls_back (save : Db.Database → Result unit) (e : Expense)
    (ns : list Notification) (d : Db.Database) :
  ¬ ((expId e ∉ Db.rowId <$> Db.tblExpenses d)
     ∧ NoDup (notifId <$> ns)
     ∧ ∀ n, n ∈ ns → notifId n ∉ notifId <$> Db.tblNotifications d) →
  Db.addExpense save e ns (Some d) = (Some d, Ok tt).
Proof.
  intros Hbad. unfold Db.addExpense, Db.insertExpense. simpl.
  case_bool_decide as He; [done|].
  unfold mbind, Result_bind. rewrite forEachM_insertSplit. simpl.
  edestruct forEachM_insertNotification_fails as [reason ->]; [|done].
  simpl. intros [Hnodup Hfresh]. apply Hbad. by repeat split.
Qed.

Lemma afterCommit_cases {T} (save : T → Result unit) (d : T) :
  (save d = Ok tt → afterCommit save d = Ok tt)
  ∧ (∀ reason, save d = Throw reason →
     afterCommit save d
     = Throw (js "cannot rollback - no transaction is active")).
Proof. unfold afterCommit. split; [by intros ->|by intros reason ->]. Qed.

(** ** Recording an expense *)

Section Recording.

Variable formatCurrencyForNotif : Z → jsstring.
Variable detectAnomalousExpense : Household → Expense → Result AnomalyResult.
Variable saveDbToIndexedDB : Db.Database → Result unit.

Lemma budgetAlertCheck_cases (household : Household) (newExpense : NewExpense)
    (env : Env) :
  let emitted := budgetAlertCheck formatCurrencyForNotif household newExpense env in
  emitted = []
  ∨ ∃ budget name,
      emitted = [budgetExceeded formatCurrencyForNotif env budget name]
      ∨ emitted = [budgetWarning formatCurrencyForNotif env budget name].
Proof.
  unfold budgetAlertCheck.
  destruct (List.find _ _) as [budget|]; [|by left].
  destruct (0 <? budAmount budget); [|by left].
  cbv zeta.
  destruct (_ && _); [right; eauto|].
  destruct (_ && _); [right; eauto|by left].
Qed.

Lemma budgetAlertCheck_at_most_one (household : Household)
    (newExpense : NewExpense) (env : Env) :
  (length (budgetAlertCheck formatCurrencyForNotif household newExpense env)
   ≤ 1)%nat.
Proof.
  destruct (budgetAlertCheck_cases household newExpense env)
    as [-> | (budget & name & [-> | ->])]; simpl; lia.
Qed.

Lemma budgetAlertCheck_no_anomaly (household : Household)
    (newExpense : NewExpense) (env : Env) (n : Notification) :
  n ∈ budgetAlertCheck formatCurrencyForNotif household newExpense env →
  isAnomalyNotification n = false.
Proof.
  destruct (budgetAlertCheck_cases household newExpense env)
    as [-> | (budget & name & [-> | ->])].
  - intros []%elem_of_nil.
  - intros ->%list_elem_of_singleton. reflexivity.
  - intros ->%list_elem_of_singleton. reflexivity.
Qed.

Lemma anomalyAlert_is_anomaly (env : Env) (r : AnomalyResult) :
  isAnomalyNotification (anomalyAlert env r) = true.
Proof. reflexivity. Qed.

Lemma anomalyDetectionCheck_throws (household : Household) (e : Expense)
    (env : Env) (ns : list Notification) (reason : jsstring) :
  detectAnomalousExpense household e = Throw reason →
  anomalyDetectionCheck detectAnomalousExpense household e env ns = Ok ns.
Proof. intros H. unfold anomalyDetectionCheck. rewrite H. reflexivity. Qed.

Lemma anomalyDetectionCheck_returns (household : Household) (e : Expense)
    (env : Env) (ns : list Notification) (r : AnomalyResult) :
  detectAnomalousExpense household e = Ok r →
  anomalyDetectionCheck detectAnomalousExpense household e env ns
  = Ok (if isAnomalous r then ns ++ [anomalyAlert env r] else ns).
Proof. intros H. unfold anomalyDetectionCheck. rewrite H. reflexivity. Qed.

(** The handler hands to [db.addExpense] the expense under its new id
    and the notifications of the budget check, followed by the anomaly
    alert when the check succeeds and flags the expense. *)
Lemma handleAddExpense_unfold (household : Household) (newExpense : NewExpense)
    (env : Env) (db : option Db.Database) :
  let expenseWithId := withId newExpense (js "exp-" ++ uuidExpense env) in
  let budgetNotifications :=
    budgetAlertCheck formatCurrencyForNotif household newExpense env in
  handleAddExpense formatCurrencyForNotif detectAnomalousExpense
    saveDbToIndexedDB household newExpense env db
  = Db.addExpense saveDbToIndexedDB expenseWithId
      (match detectAnomalousExpense household expenseWithId with
       | Ok r => if isAnomalous r
                 then budgetNotifications ++ [anomalyAlert env r]
                 else budgetNotifications
       | Throw _ => budgetNotifications
       end) db.
Proof.
  intros expenseWithId budgetNotifications.
  unfold handleAddExpense, anomalyDetectionCheck, tryCatch.
  fold expenseWithId budgetNotifications.
  by destruct (detectAnomalousExpense household expenseWithId).
Qed.

Lemma notification_ids_distinct (household : Household)
    (newExpense : NewExpense) (env : Env) (r : AnomalyResult) :
  NoDup (notifId <$>
           budgetAlertCheck formatCurrencyForNotif household newExpense env
           ++ [anomalyAlert env r]).
Proof.
  destruct (budgetAlertCheck_cases household newExpense env)
    as [-> | (budget & name & [-> | ->])]; simpl.
  - apply NoDup_singleton.
  - apply NoDup_cons. split; [|apply NoDup_singleton].
    intros H%list_elem_of_singleton. discriminate H.
  - apply NoDup_cons. split; [|apply NoDup_singleton].
    intros H%list_elem_of_singleton. discriminate H.
Qed.

Lemma budget_ids_distinct (household : Household) (newExpense : NewExpense)
    (env : Env) :
  NoDup (notifId <$>
           budgetAlertCheck formatCurrencyForNotif household newExpense env).
Proof.
  destruct (budgetAlertCheck_cases household newExpense env)
    as [-> | (budget & name & [-> | ->])]; simpl;
    [apply NoDup_nil_2 | apply NoDup_singleton | apply NoDup_singleton].
Qed.

(** The ids of the notifications of one call are new to the store when
    the three ids the call may use are. *)
Lemma notification_ids_fresh (household : Household) (newExpense : NewExpense)
    (env : Env) (d : Db.Database) (n : Notification) :
  let budgetNotifications :=
    budgetAlertCheck formatCurrencyForNotif household newExpense env in
  let stored := notifId <$> Db.tblNotifications d in
  js "notif-budget-exceeded-" ++ uuidBudget env ∉ stored →
  js "notif-budget-warning-" ++ uuidBudget env ∉ stored →
  n ∈ budgetNotifications → notifId n ∉ stored.
Proof.
  intros budgetNotifications stored Hexceeded Hwarning.
  subst budgetNotifications.
  destruct (budgetAlertCheck_cases household newExpense env)
    as [-> | (budget & name & [-> | ->])].
  - intros []%elem_of_nil.
  - intros ->%list_elem_of_singleton. exact Hexceeded.
  - intros ->%list_elem_of_singleton. exact Hwarning.
Qed.

(** With an open database and fresh ids: if the anomaly check throws,
    the expense is persisted with the notifications of the budget check
    alone, at most one and none of them an anomaly notification; if the
    check succeeds and flags the expense, a warning notification
    carrying the reasoning text is added after the budget notification.
    In both cases the call completes as the copy to IndexedDB lets
    it. *)
Lemma handleAddExpense_oracle_isolation (household : Household)
    (newExpense : NewExpense) (env : Env) (d : Db.Database) :
  let expenseWithId := withId newExpense (js "exp-" ++ uuidExpense env) in
  let budgetNotifications :=
    budgetAlertCheck formatCurrencyForNotif household newExpense env in
  let stored := notifId <$> Db.tblNotifications d in
  expId expenseWithId ∉ Db.rowId <$> Db.tblExpenses d →
  js "notif-budget-exceeded-" ++ uuidBudget env ∉ stored →
  js "notif-budget-warning-" ++ uuidBudget env ∉ stored →
  js "notif-anomaly-" ++ uuidAnomaly env ∉ stored →
  (∀ reason,
     detectAnomalousExpense household expenseWithId = Throw reason →
     handleAddExpense formatCurrencyForNotif detectAnomalousExpense
       saveDbToIndexedDB household newExpense env (Some d)
     = (Some (persisted d expenseWithId budgetNotifications),
        afterCommit saveDbToIndexedDB
          (persisted d expenseWithId budgetNotifications))
     ∧ (length budgetNotifications ≤ 1)%nat
     ∧ ∀ n, n ∈ budgetNotifications → isAnomalyNotification n = false)
  ∧ (∀ r,
       detectAnomalousExpense household expenseWithId = Ok r →
       isAnomalous r = true →
       handleAddExpense formatCurrencyForNotif detectAnomalousExpense
         saveDbToIndexedDB household newExpense env (Some d)
       = (Some (persisted d expenseWithId
                  (budgetNotifications ++ [anomalyAlert env r])),
          afterCommit saveDbToIndexedDB
            (persisted d expenseWithId
               (budgetNotifications ++ [anomalyAlert env r])))
       ∧ type (anomalyAlert env r) = warning
       ∧ message (anomalyAlert env r)
         = js "Unusual Spending Alert: " ++ reasoning r).
Proof.
  intros expenseWithId budgetNotifications stored Hexp Hexceeded Hwarning
    Hanomaly.
  pose proof (λ n, notification_ids_fresh household newExpense env d n
                     Hexceeded Hwarning) as Hfresh.
  cbv zeta in Hfresh. fold budgetNotifications stored in Hfresh.
  split.
  - intros reason Hthrow. split; [|split].
    + rewrite handleAddExpense_unfold. cbv zeta.
      fold expenseWithId budgetNotifications. rewrite Hthrow.
      apply addExpense_commits; [done | apply budget_ids_distinct | done].
    + apply budgetAlertCheck_at_most_one.
    + apply budgetAlertCheck_no_anomaly.
  - intros r Hok Hflag. split; [|split; reflexivity].
    rewrite handleAddExpense_unfold. cbv zeta.
    fold expenseWithId budgetNotifications. rewrite Hok, Hflag.
    apply addExpense_commits; [done | apply notification_ids_distinct |].
    intros n [Hn | ->%list_elem_of_singleton]%elem_of_app;
      [by apply Hfresh | exact Hanomaly].
Qed.

End Recording.

(** ** Monthly aggregates *)

Import Dashboard.

Lemma sumOf_sumZ {A} (f : A → Z) (xs : list A) : sumOf f xs = sumZ (f <$> xs).
Proof.
  induction xs as [|x xs IH]; [done|].
  rewrite sumOf_cons, IH. reflexivity.
Qed.

Lemma owed_cons (k : jsstring) (s : Split) (ss : list Split) :
  owed k (s :: ss)
  = (if decide (memberId s = k) then amount s else 0) + owed k ss.
Proof.
  unfold owed. rewrite filter_cons.
  destruct (decide (memberId s = k)); [reflexivity | lia].
Qed.

Lemma owed_app (k : jsstring) (ss ts : list Split) :
  owed k (ss ++ ts) = owed k ss + owed k ts.
Proof.
  unfold owed. rewrite filter_app, <- !sumOf_sumZ. apply sumOf_app.
Qed.

Lemma initialSpending_from (members : list Member)
    (start : gmap jsstring jsnum) (k : jsstring) :
  foldl (λ memberSpending m, <[memId m := Num 0]> memberSpending) start members
  !! k
  = if decide (k ∈ memId <$> members) then Some (Num 0) else start !! k.
Proof.
  revert start. induction members as [|m members IH]; intros start; simpl.
  - destruct (decide (k ∈ [])) as [[]%elem_of_nil|]; done.
  - rewrite IH.
    destruct (decide (k ∈ memId <$> members)) as [Hin|Hout].
    + rewrite decide_True by (by right). done.
    + destruct (decide (memId m = k)) as [<-|Hne].
      * rewrite decide_True by left. apply lookup_insert_eq.
      * rewrite lookup_insert_ne by done.
        rewrite decide_False; [done|].
        intros [?|?]%elem_of_cons; done.
Qed.

Lemma initialSpending_lookup (members : list Member) (k : jsstring) :
  initialSpending members !! k
  = if decide (k ∈ memId <$> members) then Some (Num 0) else None.
Proof. unfold initialSpending. by rewrite initialSpending_from, lookup_empty. Qed.

Lemma addSplit_member (spending : gmap jsstring jsnum) (s : Split)
    (k : jsstring) (z : Z) :
  spending !! k = Some (Num z) →
  addSplit spending s !! k
  = Some (Num (z + (if decide (memberId s = k) then amount s else 0))).
Proof.
  intros Hk. unfold addSplit.
  destruct (decide (memberId s = k)) as [->|Hne].
  - rewrite bool_decide_eq_true_2 by (rewrite Hk; done).
    rewrite lookup_insert_eq, Hk. reflexivity.
  - case_bool_decide.
    + rewrite lookup_insert_ne by done. rewrite Hk. do 2 f_equal. lia.
    + rewrite Hk. do 2 f_equal. lia.
Qed.

Lemma addSplit_stranger (spending : gmap jsstring jsnum) (s : Split)
    (k : jsstring) :
  spending !! k = None → addSplit spending s !! k = None.
Proof.
  intros Hk. unfold addSplit. case_bool_decide as Hdef; [|done].
  rewrite lookup_insert_ne; [done|]. intros Heq. by rewrite Heq in Hdef.
Qed.

(** A split naming nobody in the table leaves the table as it is. *)
Lemma addSplit_unknown (spending : gmap jsstring jsnum) (s : Split) :
  spending !! memberId s = None → addSplit spending s = spending.
Proof.
  intros Hk. unfold addSplit. by rewrite bool_decide_eq_false_2 by (by intros ?).
Qed.

Lemma foldl_addSplit_member (ss : list Split)
    (spending : gmap jsstring jsnum) (k : jsstring) (z : Z) :
  spending !! k = Some (Num z) →
  foldl addSplit spending ss !! k = Some (Num (z + owed k ss)).
Proof.
  revert spending z. induction ss as [|s ss IH]; intros spending z Hk; simpl.
  - rewrite Hk. unfold owed. simpl. do 2 f_equal. lia.
  - rewrite (IH _ _ (addSplit_member _ s _ _ Hk)), owed_cons.
    do 2 f_equal. lia.
Qed.

Lemma foldl_addSplit_stranger (ss : list Split)
    (spending : gmap jsstring jsnum) (k : jsstring) :
  spending !! k = None → foldl addSplit spending ss !! k = None.
Proof.
  revert spending. induction ss as [|s ss IH]; intros spending Hk; simpl;
    [done|].
  apply IH. by apply addSplit_stranger.
Qed.

Lemma foldl_addExpenseSplits (selected : list Expense)
    (spending : gmap jsstring jsnum) :
  foldl addExpenseSplits spending selected
  = foldl addSplit spending (selected ≫= splits).
Proof.
  revert spending. induction selected as [|e es IH]; intros spending; [done|].
  rewrite bind_cons, foldl_app. simpl. apply IH.
Qed.

(** The table after the two loops: a member's entry is the sum of the
    splits that name the member; no other key is present. *)
Lemma memberSpending_lookup (members : list Member) (selected : list Expense)
    (k : jsstring) :
  memberSpending members selected !! k
  = if decide (k ∈ memId <$> members)
    then Some (Num (owed k (selected ≫= splits)))
    else None.
Proof.
  unfold memberSpending. rewrite foldl_addExpenseSplits.
  pose proof (initialSpending_lookup members k) as Hinit.
  destruct (decide (k ∈ memId <$> members)).
  - by rewrite (foldl_addSplit_member _ _ _ 0 Hinit).
  - by apply foldl_addSplit_stranger.
Qed.

Lemma sortInsert_Permutation (compare : MemberSpent → MemberSpent → jsnum)
    (x : MemberSpent) (sorted : list MemberSpent) :
  sortInsert compare x sorted ≡ₚ x :: sorted.
Proof.
  induction sorted as [|y rest IH]; simpl; [done|].
  destruct (movesBehind compare x y); [|done].
  rewrite IH. apply Permutation_swap.
Qed.

Lemma sort_Permutation (compare : MemberSpent → MemberSpent → jsnum)
    (xs : list MemberSpent) :
  Dashboard.sort compare xs ≡ₚ xs.
Proof.
  induction xs as [|x xs IH]; simpl; [done|].
  rewrite sortInsert_Permutation. by rewrite IH.
Qed.

Lemma spendingByMember_rows (members : list Member) (selected : list Expense)
    (row : MemberSpent) :
  row ∈ spendingByMember members selected ↔
  ∃ m, m ∈ members
       ∧ row = {| member := m;
                  memberSpent :=
                    Some (Num (owed (memId m) (selected ≫= splits))) |}.
Proof.
  unfold spendingByMember. rewrite sort_Permutation, list_elem_of_fmap.
  split; intros (m & H1 & H2); exists m.
  - split; [done|]. rewrite H1, memberSpending_lookup.
    rewrite decide_True by (by apply list_elem_of_fmap_2). done.
  - split; [|done]. rewrite H2, memberSpending_lookup.
    rewrite decide_True by (by apply list_elem_of_fmap_2). done.
Qed.

Lemma spendingByMember_members (members : list Member)
    (selected : list Expense) :
  member <$> spendingByMember members selected ≡ₚ members.
Proof.
  unfold spendingByMember. rewrite sort_Permutation, <- list_fmap_compose.
  by rewrite list_fmap_id.
Qed.

(** C5.  For the expenses selected for the month, whatever their splits
    add up to: each member row shows the sum of the split amounts that
    name the member, there is one row per member, and the total of a
    budget line and the monthly total are sums of full expense amounts:
    for one expense of 1000 cents the monthly total is 1000 whatever
    shares its splits hold. *)
Theorem monthly_aggregates (members : list Member) (expenses : list Expense)
    (nowMonth : Z) :
  let selected := expensesThisMonth expenses nowMonth in
  (∀ row, row ∈ spendingByMember members selected →
     member row ∈ members
     ∧ memberSpent row
       = Some (Num (sumZ (amount <$> filter (λ s, memberId s = memId (member row))
                                            (selected ≫= splits)))))
  ∧ member <$> spendingByMember members selected ≡ₚ members
  ∧ (∀ budget,
       spent expenses nowMonth budget
       = sumZ (expAmount <$>
                 filter (λ e, categoryId e = budCategoryId budget) selected))
  ∧ totalExpensesThisMonth expenses nowMonth = sumZ (expAmount <$> selected)
  ∧ (∀ (d : JsDate) (shares : list Z),
       let e := {| expId := js "exp-1"; description := js "Imported";
                   expAmount := 1000; date := d; payerId := js "mem-1";
                   categoryId := js "cat-1";
                   splits := mkSplit (js "mem-1") <$> shares |} in
       totalExpensesThisMonth [e] (month d) = 1000).
Proof.
  intros selected. split; [|split; [|split; [|split]]].
  - intros row (m & Hm & ->)%spendingByMember_rows. by split.
  - apply spendingByMember_members.
  - intros budget. apply sumOf_sumZ.
  - apply sumOf_sumZ.
  - intros d shares e. unfold totalExpensesThisMonth, expensesThisMonth.
    rewrite filter_cons, decide_True by done. reflexivity.
Qed.

(** ** Splits that name no member *)

Lemma sumZ_Permutation (xs ys : list Z) : xs ≡ₚ ys → sumZ xs = sumZ ys.
Proof. unfold sumZ. induction 1; simpl; lia. Qed.

Lemma sumZ_app (xs ys : list Z) : sumZ (xs ++ ys) = sumZ xs + sumZ ys.
Proof. unfold sumZ. induction xs as [|x xs IH]; simpl; lia. Qed.

Lemma totalSpentByMembers_from (rows : list MemberSpent) (z : Z) :
  (∀ row, row ∈ rows → ∃ v, memberSpent row = Some (Num v)) →
  foldl (λ sum m, jsAdd sum (toNumber (memberSpent m))) (Num z) rows
  = Num (z + sumZ (shown <$> rows)).
Proof.
  revert z. induction rows as [|row rows IH]; intros z Hnum.
  - simpl. f_equal. lia.
  - destruct (Hnum row ltac:(left)) as [v Hv].
    assert (shown row = v) as Hshown by (unfold shown; by rewrite Hv).
    rewrite fmap_cons. cbn [foldl sumZ foldr]. rewrite Hv. cbn [toNumber jsAdd].
    rewrite IH by (intros r Hr; apply Hnum; by right).
    rewrite Hshown. unfold sumZ. f_equal. lia.
Qed.

Lemma spendingByMember_shown (members : list Member) (selected : list Expense) :
  sumZ (shown <$> spendingByMember members selected)
  = sumZ ((λ m, owed (memId m) (selected ≫= splits)) <$> members).
Proof.
  unfold spendingByMember.
  rewrite (sumZ_Permutation _ _
             (fmap_Permutation shown _ _ (sort_Permutation _ _))).
  rewrite <- list_fmap_compose. f_equal. apply list_fmap_ext.
  intros i m Hm. unfold shown. simpl. rewrite memberSpending_lookup.
  rewrite decide_True; [done|].
  apply list_elem_of_fmap_2. by eapply list_elem_of_lookup_2.
Qed.

(** With distinct member ids, a split is counted once when it names a
    member and not at all otherwise. *)
Lemma owed_over_members (members : list Member) (ss : list Split) :
  NoDup (memId <$> members) →
  sumZ ((λ m, owed (memId m) ss) <$> members)
  = sumZ (amount <$> filter (λ s, memberId s ∈ memId <$> members) ss).
Proof.
  intros Hnodup. induction ss as [|s ss IH].
  - clear Hnodup. unfold owed, sumZ. simpl.
    induction members as [|m members IHm]; [done|].
    rewrite fmap_cons. cbn [foldr]. rewrite IHm. reflexivity.
  - rewrite filter_cons.
    assert (sumZ ((λ m, owed (memId m) (s :: ss)) <$> members)
            = (if decide (memberId s ∈ memId <$> members) then amount s else 0)
              + sumZ ((λ m, owed (memId m) ss) <$> members)) as ->.
    { clear IH. induction members as [|m members IHm].
      - rewrite fmap_nil. by destruct (decide (memberId s ∈ [])) as [[]%elem_of_nil|].
      - rewrite fmap_cons in Hnodup. apply NoDup_cons in Hnodup as [Hm Hnodup].
        rewrite !fmap_cons. simpl sumZ. rewrite owed_cons, (IHm Hnodup).
        destruct (decide (memberId s = memId m)) as [Heq|Hne];
          destruct (decide (memberId s ∈ memId <$> members)) as [Hin|Hout];
          destruct (decide (memberId s ∈ memId m :: (memId <$> members)))
            as [Hc|Hc];
          try lia; exfalso;
          first [ by (rewrite Heq in Hin; apply Hm)
                | by (apply Hc; rewrite Heq; left)
                | by (apply Hc; right)
                | by (apply elem_of_cons in Hc as [?|?]) ]. }
    rewrite IH. destruct (decide (memberId s ∈ memId <$> members)); [|lia].
    rewrite fmap_cons. reflexivity.
Qed.

Lemma owed_withoutStrangers (members : list Member) (selected : list Expense)
    (k : jsstring) :
  k ∈ memId <$> members →
  owed k ((withoutStrangers members <$> selected) ≫= splits)
  = owed k (selected ≫= splits).
Proof.
  intros Hk. induction selected as [|e es IH]; [done|].
  rewrite fmap_cons, !bind_cons, !owed_app, IH. f_equal.
  unfold owed, withoutStrangers. simpl. do 2 f_equal.
  rewrite list_filter_filter. apply list_filter_iff.
  intros s. split; [tauto|]. intros Heq. split; [done|]. by rewrite Heq.
Qed.

(** C10.  A split whose member id is not the id of a member changes
    nothing in the table of totals, wherever it is met; the rows shown
    are those of the expenses with such splits removed; every total
    shown is a number; with distinct member ids the totals shown add up
    to the splits that name a member, which can be strictly less than
    the sum of all split amounts. *)
Theorem strangers_are_ignored (members : list Member) (selected : list Expense) :
  (∀ (seen : list Expense) (s : Split),
     memberId s ∉ memId <$> members →
     addSplit (memberSpending members seen) s = memberSpending members seen)
  ∧ spendingByMember members selected
    = spendingByMember members (withoutStrangers members <$> selected)
  ∧ (∀ row, row ∈ spendingByMember members selected →
       ∃ z, memberSpent row = Some (Num z))
  ∧ (∃ z, totalSpentByMembers (spendingByMember members selected) = Num z)
  ∧ (NoDup (memId <$> members) →
     totalSpentByMembers (spendingByMember members selected)
     = Num (sumZ (amount <$> filter (λ s, memberId s ∈ memId <$> members)
                                    (selected ≫= splits))))
  ∧ (let household := [mkMember (js "mem-1") (js "Rohan") []] in
     let e := {| expId := js "exp-1"; description := js "Dinner";
                 expAmount := 1000;
                 date := mkDate (js "2024-03-10T00:00:00.000Z") 2024 2 10;
                 payerId := js "mem-1"; categoryId := js "cat-3";
                 splits := [mkSplit (js "mem-1") 600;
                            mkSplit (js "mem-9") 400] |} in
     totalSpentByMembers (spendingByMember household [e]) = Num 600
     ∧ sumZ (amount <$> splits e) = 1000).
Proof.
  assert (∀ row, row ∈ spendingByMember members selected →
            ∃ z, memberSpent row = Some (Num z)) as Hnum.
  { intros row (m & _ & ->)%spendingByMember_rows. by eexists. }
  split; [|split; [|split; [|split; [|split]]]].
  - intros seen s Hs. apply addSplit_unknown.
    rewrite memberSpending_lookup. by rewrite decide_False.
  - unfold spendingByMember.
    apply (f_equal (Dashboard.sort bySpentDescending)).
    apply list_fmap_ext. intros i m Hm. f_equal.
    rewrite !memberSpending_lookup.
    destruct (decide (memId m ∈ memId <$> members)); [|done].
    by rewrite owed_withoutStrangers.
  - exact Hnum.
  - unfold totalSpentByMembers. rewrite totalSpentByMembers_from by done.
    by eexists.
  - intros Hnodup. unfold totalSpentByMembers.
    rewrite totalSpentByMembers_from by done.
    rewrite spendingByMember_shown, owed_over_members by done.
    f_equal.
  - split; reflexivity.
Qed.

(** ** Category suggestion *)

Import ExpenseUtils.

Lemma startsWith_spec (s p : jsstring) :
  startsWith s p = true ↔ ∃ rest, s = p ++ rest.
Proof.
  revert s. induction p as [|c p IH]; intros s; simpl.
  - split; [by exists s | done].
  - destruct s as [|d s].
    + split; [done | intros [rest [=]]].
    + rewrite andb_true_iff, bool_decide_eq_true, IH. split.
      * intros [-> [rest ->]]. by exists rest.
      * intros [rest [= -> ->]]. split; [done | by exists rest].
Qed.

(** [includes] is containment as a contiguous substring. *)
Lemma includes_spec (s t : jsstring) :
  includes s t = true ↔ ∃ before after, s = before ++ t ++ after.
Proof.
  induction s as [|c s IH]; simpl.
  - rewrite orb_false_r, startsWith_spec. split.
    + intros [rest H]. by exists [], rest.
    + intros (before & after & H). symmetry in H.
      apply app_eq_nil in H as [-> H]. by exists after.
  - rewrite orb_true_iff, startsWith_spec, IH. split.
    + intros [[rest ->] | (before & after & ->)].
      * by exists [], rest.
      * by exists (c :: before), after.
    + intros (before & after & H). destruct before as [|b before].
      * left. by exists after.
      * right. injection H as -> ->. by exists before, after.
Qed.

Section SuggestProperties.

Variable toLowerCase : jsstring → jsstring.

Lemma firstMatch_Some (description : jsstring) (rules : list Rule)
    (c : jsstring) :
  firstMatch toLowerCase (toLowerCase description) rules = Some c ↔
  ∃ before rule after,
    rules = before ++ rule :: after
    ∧ (∀ r, r ∈ before → ruleMatches toLowerCase description r = false)
    ∧ ruleMatches toLowerCase description rule = true
    ∧ c = ruleCategoryId rule.
Proof.
  unfold ruleMatches. induction rules as [|rule rules IH]; simpl.
  - split; [done|]. intros (before & r & after & H & _). by destruct before.
  - destruct (includes _ (toLowerCase (keyword rule))) eqn:Hrule.
    + split.
      * intros [= <-]. exists [], rule, rules.
        split; [done|]. split; [by intros r []%elem_of_nil|done].
      * intros (before & r & after & H & Hbefore & Hr & ->).
        destruct before as [|b before].
        -- by injection H as <- _.
        -- injection H as <- _. rewrite Hbefore in Hrule by left. done.
    + rewrite IH. split.
      * intros (before & r & after & -> & Hbefore & Hr & ->).
        exists (rule :: before), r, after. split; [done|].
        split; [|done]. intros r' [->|?]%elem_of_cons; [done|by apply Hbefore].
      * intros (before & r & after & H & Hbefore & Hr & ->).
        destruct before as [|b before].
        -- injection H as <- _. congruence.
        -- injection H as <- ->. exists before, r, after.
           split; [done|]. split; [|done].
           intros r' Hr'. apply Hbefore. by right.
Qed.

Lemma firstMatch_None (description : jsstring) (rules : list Rule) :
  firstMatch toLowerCase (toLowerCase description) rules = None ↔
  ∀ r, r ∈ rules → ruleMatches toLowerCase description r = false.
Proof.
  unfold ruleMatches. induction rules as [|rule rules IH]; simpl.
  - split; [by intros _ r []%elem_of_nil | done].
  - destruct (includes _ (toLowerCase (keyword rule))) eqn:Hrule.
    + split; [done|]. intros H. rewrite H in Hrule by left. done.
    + rewrite IH. split.
      * intros H r [->|?]%elem_of_cons; [done | by apply H].
      * intros H r Hr. apply H. by right.
Qed.

End SuggestProperties.

(** C7, as the code has it.  [suggestCategory] lower-cases the
    description and each keyword, tests containment in the order of the
    rules and returns the category id of the first rule that matches; it
    returns none exactly when no rule matches.  The categories given do
    not enter the result.  With the rule netflix to cat-5, NETFLIX
    Monthly gives cat-5 and netflex gives none. *)
Theorem suggestCategory_first_match (toLowerCase : jsstring → jsstring)
    (description : jsstring) (rules : list Rule) (categories : list Category) :
  (∀ c, suggestCategory toLowerCase description rules categories = Some c ↔
     ∃ before rule after,
       rules = before ++ rule :: after
       ∧ (∀ r, r ∈ before → ruleMatches toLowerCase description r = false)
       ∧ ruleMatches toLowerCase description rule = true
       ∧ c = ruleCategoryId rule)
  ∧ (suggestCategory toLowerCase description rules categories = None ↔
       ∀ r, r ∈ rules → ruleMatches toLowerCase description r = false)
  ∧ (∀ other : list Category,
       suggestCategory toLowerCase description rules other
       = suggestCategory toLowerCase description rules categories)
  ∧ (let netflix := [mkRule (js "rule-6") (js "netflix") (js "cat-5")] in
     suggestCategory asciiToLowerCase (js "NETFLIX Monthly") netflix categories
     = Some (js "cat-5")
     ∧ suggestCategory asciiToLowerCase (js "netflex") netflix categories
       = None).
Proof.
  split; [|split; [|split]].
  - intros c. apply firstMatch_Some.
  - apply firstMatch_None.
  - reflexivity.
  - split; reflexivity.
Qed.

(** The claim C7 as stated fails: the matched rule names a category id
    that is not among the categories given, and the id is returned all
    the same. *)
Lemma suggestCategory_unknown_category_returned :
  let netflix := [mkRule (js "rule-6") (js "netflix") (js "cat-5")] in
  let categories := [mkCategory (js "cat-1") (js "Groceries") []] in
  (js "cat-5" ∉ catId <$> categories)
  ∧ suggestCategory asciiToLowerCase (js "NETFLIX Monthly") netflix categories
    = Some (js "cat-5").
Proof.
  split; [|reflexivity].
  intros H%list_elem_of_singleton. discriminate H.
Qed.

(** ** Amounts as text *)

Lemma readDigits_digitsOf (u : Decimal.uint) :
  readDigits (digitsOf u) = Some u.
Proof. induction u as [|u IH|u IH|u IH|u IH|u IH|u IH|u IH|u IH|u IH|u IH];
  simpl; [done | by rewrite IH ..].
Qed.

Lemma readDigits_natToString (n : N) :
  N.of_uint <$> readDigits (natToString n) = Some n.
Proof.
  unfold natToString. rewrite readDigits_digitsOf. simpl.
  f_equal. apply DecimalN.Unsigned.of_to.
Qed.

Lemma readDigits_one (k : N) :
  (k < 10)%N →
  N.of_uint <$> readDigits [(DIGIT_0 + k)%N] = Some k.
Proof.
  intros Hk.
  assert (k ∈ [0; 1; 2; 3; 4; 5; 6; 7; 8; 9]%N) as Hcases.
  { rewrite !elem_of_cons. lia. }
  repeat (apply elem_of_cons in Hcases as [->|Hcases]; [reflexivity|]).
  by apply elem_of_nil in Hcases.
Qed.

Lemma readUnsigned_decimal2 (cents : Z) :
  0 ≤ cents → readUnsigned (decimal2 cents) = Some cents.
Proof.
  intros Hpos. unfold decimal2.
  rewrite (proj2 (Z.ltb_ge _ _)) by lia. simpl app.
  rewrite Z.abs_eq by lia. set (a := Z.to_N cents).
  unfold readUnsigned.
  rewrite reverse_app.
  change (reverse [DOT; (DIGIT_0 + a mod 100 / 10)%N; (DIGIT_0 + a mod 10)%N])
    with [(DIGIT_0 + a mod 10)%N; (DIGIT_0 + a mod 100 / 10)%N; DOT].
  cbn [app]. rewrite bool_decide_eq_true_2 by done.
  rewrite reverse_involutive.
  pose proof (readDigits_natToString (a / 100)) as Hwhole.
  assert ((a mod 100) / 10 < 10)%N as Hlt1
    by (apply N.Div0.div_lt_upper_bound, N.mod_lt; lia).
  assert (a mod 10 < 10)%N as Hlt2 by (apply N.mod_lt; lia).
  pose proof (readDigits_one _ Hlt1) as Htens.
  pose proof (readDigits_one _ Hlt2) as Hunits.
  destruct (readDigits (natToString (a / 100))) as [u|]; [|done].
  destruct (readDigits [(DIGIT_0 + a mod 100 / 10)%N]) as [u1|]; [|done].
  destruct (readDigits [(DIGIT_0 + a mod 10)%N]) as [u2|]; [|done].
  simpl in *.
  injection Hwhole as ->. injection Htens as ->. injection Hunits as ->.
  f_equal. subst a. zify. Z.to_euclidean_division_equations. lia.
Qed.

Lemma digitsOf_no_minus (u : Decimal.uint) : MINUS ∉ digitsOf u.
Proof.
  induction u; simpl; rewrite ?elem_of_cons;
    [apply not_elem_of_nil | intros [[=]|?]; done ..].
Qed.

(** Reading back what [decimal2] wrote gives the cents. *)
Lemma readAmount_decimal2 (cents : Z) : readAmount (decimal2 cents) = Some cents.
Proof.
  destruct (Z.ltb_spec cents 0) as [Hneg|Hpos].
  - pose proof (readUnsigned_decimal2 (- cents) ltac:(lia)) as Hread.
    unfold decimal2 in *.
    rewrite (proj2 (Z.ltb_lt _ _)) by lia.
    rewrite (proj2 (Z.ltb_ge _ _)) in Hread by lia.
    rewrite Z.abs_opp in Hread. simpl app in *.
    unfold readAmount. rewrite bool_decide_eq_true_2 by done.
    rewrite Hread. simpl. f_equal. lia.
  - pose proof (readUnsigned_decimal2 cents Hpos) as Hread.
    unfold readAmount.
    destruct (decimal2 cents) as [|c rest] eqn:Htext; [done|].
    rewrite bool_decide_eq_false_2; [done|].
    intros ->. unfold decimal2 in Htext.
    rewrite (proj2 (Z.ltb_ge _ _)) in Htext by lia. simpl app in Htext.
    unfold natToString in Htext.
    pose proof (digitsOf_no_minus (N.to_uint (Z.to_N (Z.abs cents) / 100)))
      as Hdigits.
    destruct (digitsOf _) as [|d ds]; simpl in Htext.
    + discriminate Htext.
    + injection Htext as -> _. apply Hdigits. left.
Qed.

(** ** The host's division and [toFixed] on amounts in cents *)

Import Float64.

Lemma nearestEven_spec (n d : Z) :
  0 < d → - d ≤ 2 * (d * nearestEven n d - n) ≤ d.
Proof.
  intros Hd. unfold nearestEven. cbv zeta.
  pose proof (Z.div_mod n d ltac:(lia)) as Hdiv.
  pose proof (Z.mod_pos_bound n d Hd) as Hmod.
  repeat match goal with
         | |- context [?a <? ?b] => destruct (Z.ltb_spec a b)
         end;
    try destruct (Z.even (n / d)); cbv iota; lia.
Qed.

Lemma nearestEven_pos (n d : Z) : 0 < d → d < 2 * n → 0 < nearestEven n d.
Proof.
  intros Hd Hn. pose proof (nearestEven_spec n d Hd). nia.
Qed.

Lemma hundredthsOf_double (a e : Z) :
  hundredthsOf (2 * a) e = hundredthsOf a (e + 1).
Proof.
  unfold hundredthsOf.
  destruct (Z.leb_spec 0 e) as [He|He].
  - rewrite (proj2 (Z.leb_le 0 (e + 1))) by lia.
    rewrite Z.pow_add_r by lia. lia.
  - destruct (Z.leb_spec 0 (e + 1)) as [He'|He'].
    + assert (e = -1) as -> by lia.
      change (2 ^ (- -1)) with 2. change (2 ^ (1 - -1)) with 4.
      change (2 ^ (-1 + 1)) with 1.
      symmetry. apply (Z.div_unique _ _ _ 2); lia.
    + replace (- e) with (- (e + 1) + 1) by lia.
      replace (1 - e) with (1 - (e + 1) + 1) by lia.
      rewrite !Z.pow_add_r by lia.
      replace (200 * (2 * a) + 2 ^ (- (e + 1)) * 2 ^ 1)
        with ((200 * a + 2 ^ (- (e + 1))) * 2) by (simpl; lia).
      change (2 ^ 1) with 2.
      rewrite Z.div_mul_cancel_r; [done | | lia].
      apply Z.pow_nonzero; lia.
Qed.

Lemma hundredthsOf_oddPart (p : positive) (e : Z) :
  hundredthsOf (Zpos (oddPart p)) (e + trailingZeros p)
  = hundredthsOf (Zpos p) e.
Proof.
  revert e. induction p as [p IH|p IH|]; intros e; simpl;
    rewrite ?Z.add_0_r; try done.
  replace (e + (1 + trailingZeros p)) with (e + 1 + trailingZeros p) by lia.
  rewrite IH. symmetry. apply (hundredthsOf_double (Zpos p)).
Qed.

Lemma hundredths_normalize (m e : Z) :
  m ≠ 0 → hundredths (normalize m e) = hundredthsOf (Z.abs m) e.
Proof.
  intros Hm. destruct m as [|p|p]; [done | |];
    apply (hundredthsOf_oddPart p e).
Qed.

Lemma mantissa_normalize_neg (m e : Z) :
  (mantissa (normalize m e) <? 0) = (m <? 0).
Proof. by destruct m. Qed.

Lemma quotient_hundredths (c : Z) :
  Z.abs c < 2 ^ 52 →
  hundredths (quotient c 100) = Z.abs c
  ∧ (mantissa (quotient c 100) <? 0) = (c <? 0).
Proof.
  intros Hrange. unfold quotient.
  destruct (Z.eqb_spec c 0) as [->|Hc]; [done|].
  set (a := Z.abs c) in *. assert (1 ≤ a) by lia.
  pose proof (Z.log2_nonneg a) as Hlog0.
  assert (Z.log2 a < 52) as Hlog by (apply Z.log2_lt_pow2; lia).
  change (Z.log2 100) with 6.
  set (s0 := 53 + 6 - Z.log2 a).
  set (s := if _ <=? _ then s0 - 1 else s0).
  assert (7 ≤ s) as Hs by (subst s s0; destruct (_ <=? _); lia).
  rewrite (Z.max_r 0 s), (Z.max_l 0 (- s)) by lia.
  change (2 ^ 0) with 1. rewrite Z.mul_1_r.
  set (p := 2 ^ s).
  assert (128 ≤ p) as Hp.
  { subst p. change 128 with (2 ^ 7). apply Z.pow_le_mono_r; lia. }
  pose proof (nearestEven_spec (a * p) 100 ltac:(lia)) as Hnear.
  pose proof (nearestEven_pos (a * p) 100 ltac:(lia) ltac:(nia)) as Hpos.
  set (m := nearestEven (a * p) 100) in *.
  split.
  - rewrite hundredths_normalize by nia.
    unfold hundredthsOf. rewrite (proj2 (Z.leb_gt 0 (- s))) by lia.
    rewrite Z.opp_involutive.
    replace (1 - - s) with (s + 1) by lia.
    rewrite Z.pow_add_r by lia. fold p. change (2 ^ 1) with 2.
    replace (Z.abs (Z.sgn c * m)) with m
      by (clear -Hc Hpos; destruct c; [done | |]; cbn [Z.sgn]; lia).
    symmetry. apply (Z.div_unique _ _ _ (200 * m + p - p * 2 * a)); lia.
  - rewrite mantissa_normalize_neg.
    destruct (Z.ltb_spec c 0), (Z.ltb_spec (Z.sgn c * m) 0); try done; nia.
Qed.

(** Below 2^52 cents the text [toFixed2] writes is the amount itself
    with two decimals: the rounding of the division by 100 is undone by
    the rounding of [toFixed]. *)
Lemma toFixed2_exact (cents : Z) :
  Z.abs cents < 2 ^ 52 → toFixed2 cents = decimal2 cents.
Proof.
  intros Hrange. unfold toFixed2, toFixed, decimal2.
  destruct (quotient_hundredths cents Hrange) as [-> ->]. done.
Qed.

Lemma readAmount_toFixed2 (cents : Z) :
  Z.abs cents < 2 ^ 52 → readAmount (toFixed2 cents) = Some cents.
Proof.
  intros Hrange. rewrite toFixed2_exact by done. apply readAmount_decimal2.
Qed.

(** Beyond that the two differ: these two amounts are safe integers and
    the host writes them alike. *)
Example toFixed2_collision :
  toFixed2 7036874417766401 = toFixed2 7036874417766402
  ∧ toFixed2 7036874417766402 = decimal2 7036874417766402.
Proof. split; vm_compute; reflexivity. Qed.

(** ** CSV export *)

Import ExpenseTracker.

Lemma includes_singleton (s : jsstring) (c : code_unit) :
  includes s [c] = true ↔ c ∈ s.
Proof.
  rewrite includes_spec. split.
  - intros (before & after & ->). rewrite elem_of_app. right. left.
  - intros (before & after & ->)%list_elem_of_split. by exists before, after.
Qed.

Lemma formatCSVCell_spec (cell : jsstring) :
  (needsQuoting cell →
   formatCSVCell cell = [QUOTE] ++ doubleQuotes cell ++ [QUOTE])
  ∧ (¬ needsQuoting cell → formatCSVCell cell = cell).
Proof.
  unfold formatCSVCell, needsQuoting.
  rewrite <- !includes_singleton.
  destruct (includes cell [COMMA]), (includes cell [QUOTE]),
    (includes cell [NEWLINE]); simpl; split; intros H; try done;
    first [ by (exfalso; apply H; auto)
          | by (destruct H as [?|[?|?]]) ].
Qed.

(** The doubled text, character by character: a quote is written
    twice, any other character once. *)
Lemma doubleQuotes_cons (c : code_unit) (s : jsstring) :
  doubleQuotes (c :: s)
  = (if bool_decide (c = QUOTE) then [QUOTE; QUOTE] else [c]) ++ doubleQuotes s.
Proof. reflexivity. Qed.

Lemma digitsOf_digits (u : Decimal.uint) (c : code_unit) :
  c ∈ digitsOf u → (48 ≤ c ≤ 57)%N.
Proof.
  induction u; simpl; rewrite ?elem_of_cons;
    [by intros ?%elem_of_nil | intros [->|?]; [lia | auto] ..].
Qed.

Lemma toFixed_characters (x : double) (c : code_unit) :
  c ∈ toFixed x → c = MINUS ∨ c = DOT ∨ (48 ≤ c ≤ 57)%N.
Proof.
  unfold toFixed. cbv zeta.
  rewrite !elem_of_app, !elem_of_cons.
  intros [Hsign|[Hwhole|[->|[->|[->|[]%elem_of_nil]]]]].
  - destruct (mantissa x <? 0); [|by apply elem_of_nil in Hsign].
    apply list_elem_of_singleton in Hsign. by left.
  - right. right. by eapply digitsOf_digits.
  - right. by left.
  - right. right. unfold DIGIT_0.
    zify. Z.to_euclidean_division_equations. lia.
  - right. right. unfold DIGIT_0.
    zify. Z.to_euclidean_division_equations. lia.
Qed.

(** An amount written by the host holds digits, a dot and a sign only. *)
Lemma toFixed2_plain (cents : Z) : ¬ needsQuoting (toFixed2 cents).
Proof.
  unfold needsQuoting, COMMA, QUOTE, NEWLINE, toFixed2.
  intros [H|[H|H]]; apply toFixed_characters in H;
    unfold MINUS, DOT in H; destruct H as [H|[H|H]]; try discriminate; lia.
Qed.



Section ExportProperties.

Variable members : list Member.
Variable categories : list Category.








End ExportProperties.



(** Why the splits must not be negative: a list that holds the splits
    1500 and -500 for an amount of 1000 (the export takes it as it
    comes) gives one row, whose share reads 1500 against a total of
    1000. *)
Example handleExportCSV_negative_split :
  let exp := {| expId := js "exp-1"; description := js "Dinner";
                expAmount := 1000;
                date := mkDate (js "2024-03-10T00:00:00.000Z") 2024 2 10;
                payerId := js "mem-1"; categoryId := js "cat-3";
                splits := [mkSplit (js "mem-1") 1500;
                           mkSplit (js "mem-2") (-500)] |} in
  sumOf amount (splits exp) = expAmount exp
  ∧ length (expenseRows [] [] exp) = 1%nat
  ∧ totalAmountColumn <$> expenseRows [] [] exp = [Some 1000]
  ∧ columnSum memberShareColumn (expenseRows [] [] exp) = Some 1500.
Proof. repeat split; vm_compute; reflexivity. Qed.

(** ** Trend series *)

Import ChartUtils.

Lemma daysOfMonth_bounds (year m : Z) : 28 ≤ daysOfMonth year m ≤ 31.
Proof.
  unfold daysOfMonth.
  destruct (m =? 1); [destruct (isLeapYear year); lia|].
  destruct (_ || _); lia.
Qed.

Lemma daysInCurrentMonthOf_bounds (year m : Z) :
  28 ≤ daysInCurrentMonthOf year m ≤ 31.
Proof. apply daysOfMonth_bounds. Qed.

Lemma daysInPreviousMonthOf_bounds (year m : Z) :
  28 ≤ daysInPreviousMonthOf year m ≤ 31.
Proof.
  unfold daysInPreviousMonthOf. destruct (m =? 0); apply daysOfMonth_bounds.
Qed.

Lemma filled_length (n : Z) : length (filled n) = Z.to_nat n.
Proof. apply length_replicate. Qed.

Lemma addAt_length (arr : list double) (i : Z) (v : double) :
  length (addAt arr i v) = length arr.
Proof. unfold addAt. destruct (i <? 0); [done | apply length_alter]. Qed.

Lemma aggregate_lengths (now : Now) (dc dp : Z) (temp : list double * list double)
    (e : Expense) :
  length (aggregate now dc dp temp e).1 = length temp.1
  ∧ length (aggregate now dc dp temp e).2 = length temp.2.
Proof.
  destruct temp as [tc tp]. unfold aggregate.
  repeat (match goal with |- context [if ?b then _ else _] => destruct b end);
    simpl; rewrite ?addAt_length; done.
Qed.

Lemma foldl_aggregate_lengths (now : Now) (dc dp : Z) (es : list Expense)
    (temp : list double * list double) :
  length (foldl (aggregate now dc dp) temp es).1 = length temp.1
  ∧ length (foldl (aggregate now dc dp) temp es).2 = length temp.2.
Proof.
  revert temp. induction es as [|e es IH]; intros temp; [done|].
  simpl. destruct (IH (aggregate now dc dp temp e)) as [-> ->].
  apply aggregate_lengths.
Qed.

Lemma dailyTotals_lengths (now : Now) (expenses : list Expense) :
  length (dailyTotals now expenses).1
  = Z.to_nat (daysInCurrentMonthOf (currentYear now) (currentMonth now))
  ∧ length (dailyTotals now expenses).2
    = Z.to_nat (daysInPreviousMonthOf (currentYear now) (currentMonth now)).
Proof.
  unfold dailyTotals. cbv zeta.
  destruct (foldl_aggregate_lengths now
              (daysInCurrentMonthOf (currentYear now) (currentMonth now))
              (daysInPreviousMonthOf (currentYear now) (currentMonth now))
              expenses
              (filled (daysInCurrentMonthOf (currentYear now) (currentMonth now)),
               filled (daysInPreviousMonthOf (currentYear now) (currentMonth now))))
    as [-> ->].
  simpl. by rewrite !filled_length.
Qed.

Lemma reduceCurrent_length (today : Z) (temp : list double) (i : nat) (acc : double)
    (out : list (option double)) :
  length (reduceCurrent today i acc temp out) = length out.
Proof.
  revert i acc out. induction temp as [|val rest IH]; intros i acc out;
    [done|].
  simpl. rewrite IH. apply length_insert.
Qed.

Lemma reduceCurrent_before (today : Z) (temp : list double) (i : nat) (acc : double)
    (out : list (option double)) (j : nat) :
  (j < i)%nat → reduceCurrent today i acc temp out !! j = out !! j.
Proof.
  revert i acc out. induction temp as [|val rest IH]; intros i acc out Hj;
    [done|].
  simpl. rewrite IH by lia. apply list_lookup_insert_ne. lia.
Qed.

(** Entry [j] of the current series after the reduction: the running
    total of the days up to [j] when [j < today], [null] otherwise. *)
Lemma reduceCurrent_lookup (today : Z) (temp : list double) (i : nat) (acc : double)
    (out : list (option double)) (j : nat) :
  (i ≤ j < i + length temp)%nat → (j < length out)%nat →
  reduceCurrent today i acc temp out !! j
  = Some (if Z.of_nat j <? today
          then Some (foldl add acc (take (S (j - i)) temp))
          else None).
Proof.
  revert i acc out. induction temp as [|val rest IH]; intros i acc out Hj Hout.
  { simpl in Hj. lia. }
  simpl reduceCurrent. destruct (decide (j = i)) as [->|Hne].
  - rewrite reduceCurrent_before by lia.
    rewrite list_lookup_insert_eq by done.
    by rewrite Nat.sub_diag.
  - simpl in Hj. rewrite IH by (rewrite ?length_insert; lia).
    by replace (S (j - i)) with (S (S (j - S i))) by lia.
Qed.

Lemma fillNulls_length (today days : Z) (l : list (option double)) :
  length (fillNulls today days l) = length l.
Proof. apply length_imap. Qed.

Lemma fillNulls_lookup (today days : Z) (l : list (option double)) (i : nat) :
  fillNulls today days l !! i
  = (λ x, if (today <=? Z.of_nat i) && (Z.of_nat i <? days) then None else x)
      <$> l !! i.
Proof. unfold fillNulls. by rewrite list_lookup_imap. Qed.

Lemma reducePrevious_length (temp : list double) (i : nat) (acc : double) (out : list double) :
  length (reducePrevious i acc temp out) = length out.
Proof.
  revert i acc out. induction temp as [|val rest IH]; intros i acc out;
    [done|].
  simpl. rewrite IH. case_bool_decide; [apply length_insert | done].
Qed.

Lemma reducePrevious_before (temp : list double) (i : nat) (acc : double) (out : list double)
    (j : nat) :
  (j < i)%nat → reducePrevious i acc temp out !! j = out !! j.
Proof.
  revert i acc out. induction temp as [|val rest IH]; intros i acc out Hj;
    [done|].
  simpl. rewrite IH by lia.
  case_bool_decide; [apply list_lookup_insert_ne; lia | done].
Qed.

(** Entries past the end of [tempPrevious] are never written. *)
Lemma reducePrevious_beyond (temp : list double) (i : nat) (acc : double) (out : list double)
    (j : nat) :
  (i + length temp ≤ j)%nat → reducePrevious i acc temp out !! j = out !! j.
Proof.
  revert i acc out. induction temp as [|val rest IH]; intros i acc out Hj;
    [done|].
  simpl in *. rewrite IH by lia.
  case_bool_decide; [apply list_lookup_insert_ne; lia | done].
Qed.

Lemma reducePrevious_lookup (temp : list double) (i : nat) (acc : double) (out : list double)
    (j : nat) :
  (i ≤ j < i + length temp)%nat → (j < length out)%nat →
  reducePrevious i acc temp out !! j
  = Some (foldl add acc (take (S (j - i)) temp)).
Proof.
  revert i acc out. induction temp as [|val rest IH]; intros i acc out Hj Hout.
  { simpl in Hj. lia. }
  simpl reducePrevious. destruct (decide (j = i)) as [->|Hne].
  - rewrite reducePrevious_before by lia.
    rewrite bool_decide_eq_true_2 by done.
    rewrite list_lookup_insert_eq by done.
    by rewrite Nat.sub_diag.
  - simpl in Hj.
    rewrite IH by (try case_bool_decide; rewrite ?length_insert; lia).
    by replace (S (j - i)) with (S (S (j - S i))) by lia.
Qed.

Lemma matchLength_same (days : Z) (l : list double) :
  Z.of_nat (length l) = days → matchLength days l = l.
Proof.
  intros Hlen. unfold matchLength. cbv zeta.
  rewrite !(proj2 (Z.ltb_ge _ _)) by lia. reflexivity.
Qed.

Lemma prepareTrendData_unfold (now : Now) (expenses : list Expense) :
  let days := daysInCurrentMonthOf (currentYear now) (currentMonth now) in
  prepareTrendData now expenses
  = {| labels := (λ i, natToString (N.of_nat (i + 1)))
                 <$> seq 0 (Z.to_nat days);
       currentMonthData :=
         fillNulls (today now) days
           (reduceCurrent (today now) 0 zero (dailyTotals now expenses).1
              (Some <$> filled days));
       previousMonthData :=
         reducePrevious 0 zero (dailyTotals now expenses).2 (filled days) |}.
Proof.
  intros days. unfold prepareTrendData. fold days.
  destruct (dailyTotals now expenses) as [tc tp]. simpl.
  rewrite matchLength_same; [done|].
  rewrite reducePrevious_length, filled_length.
  pose proof (daysInCurrentMonthOf_bounds (currentYear now) (currentMonth now)).
  fold days in H. lia.
Qed.

(** The previous-month series, entry by entry: the running total of the
    previous month for the days it has, and the initial zero for the
    days it does not have. *)
Lemma previousMonthData_lookup (now : Now) (expenses : list Expense) (i : nat) :
  let days := Z.to_nat (daysInCurrentMonthOf (currentYear now) (currentMonth now)) in
  let previousDays :=
    Z.to_nat (daysInPreviousMonthOf (currentYear now) (currentMonth now)) in
  (i < days)%nat →
  previousMonthData (prepareTrendData now expenses) !! i
  = Some (if decide (i < previousDays)%nat
          then foldl add zero (take (S i) (dailyTotals now expenses).2)
          else zero).
Proof.
  intros days previousDays Hi. rewrite prepareTrendData_unfold. simpl.
  destruct (dailyTotals_lengths now expenses) as [_ Hlen].
  fold previousDays in Hlen. fold days.
  case_decide.
  - rewrite reducePrevious_lookup by (rewrite ?filled_length; lia).
    rewrite Nat.sub_0_r. done.
  - rewrite reducePrevious_beyond by lia.
    unfold filled. rewrite lookup_replicate_2 by (fold days; lia). done.
Qed.

Lemma previousMonthData_length (now : Now) (expenses : list Expense) :
  length (previousMonthData (prepareTrendData now expenses))
  = Z.to_nat (daysInCurrentMonthOf (currentYear now) (currentMonth now)).
Proof.
  rewrite prepareTrendData_unfold. simpl.
  by rewrite reducePrevious_length, filled_length.
Qed.

(** C8.  The two series and the labels have one entry per day of the
    current month, whatever the length of the previous month; the
    current-month entry of a day after today is [null]; the entry of a
    day up to today is the running total of the month, the buckets of
    the days added up from the first in the host's arithmetic. *)
Theorem prepareTrendData_lengths (now : Now) (expenses : list Expense) :
  let trend := prepareTrendData now expenses in
  let days := Z.to_nat (daysInCurrentMonthOf (currentYear now) (currentMonth now)) in
  length (currentMonthData trend) = days
  ∧ length (previousMonthData trend) = days
  ∧ length (labels trend) = days
  ∧ (∀ day : Z,
       1 ≤ day ≤ Z.of_nat days → today now < day →
       currentMonthData trend !! Z.to_nat (day - 1) = Some None)
  ∧ (∀ day : Z,
       1 ≤ day ≤ Z.of_nat days → day ≤ today now →
       currentMonthData trend !! Z.to_nat (day - 1)
       = Some (Some (foldl add zero
                       (take (Z.to_nat day) (dailyTotals now expenses).1)))).
Proof.
  intros trend days. subst trend. rewrite prepareTrendData_unfold. simpl.
  fold days.
  destruct (dailyTotals_lengths now expenses) as [Hlen _]. fold days in Hlen.
  assert (length (Some <$> filled (daysInCurrentMonthOf (currentYear now)
                                     (currentMonth now))) = days) as Hout
    by (by rewrite length_fmap, filled_length).
  split; [by rewrite fillNulls_length, reduceCurrent_length|].
  split; [by rewrite reducePrevious_length, filled_length|].
  split; [by rewrite length_fmap, length_seq|].
  pose proof (daysInCurrentMonthOf_bounds (currentYear now) (currentMonth now))
    as Hbounds.
  split.
  - intros day Hday Hafter.
    rewrite fillNulls_lookup, reduceCurrent_lookup by lia. simpl.
    rewrite (proj2 (Z.leb_le _ _)) by lia.
    rewrite (proj2 (Z.ltb_lt _ _)) by lia. done.
  - intros day Hday Hupto.
    rewrite fillNulls_lookup, reduceCurrent_lookup by lia. simpl.
    rewrite (proj2 (Z.leb_gt _ _)) by lia. simpl.
    rewrite (proj2 (Z.ltb_lt _ _)) by lia.
    by replace (S (Z.to_nat (day - 1) - 0)) with (Z.to_nat day) by lia.
Qed.

(** C9.  In March 2024 (31 days, after a February of 29) with one
    expense of 1000 cents on 10 February, the previous-month series
    reaches 10 (the amount divided by 100) on the tenth, holds it to the
    last day of February, and its two trailing entries are 0: the
    padding is the zero the array was created with, not the last
    cumulative value. *)
Theorem prepareTrendData_pads_with_zero :
  let now := {| currentYear := 2024; currentMonth := 2; today := 15 |} in
  let e := {| expId := js "exp-6"; description := js "Netflix";
              expAmount := 1000;
              date := mkDate (js "2024-02-10T00:00:00.000Z") 2024 1 10;
              payerId := js "mem-2"; categoryId := js "cat-5";
              splits := [mkSplit (js "mem-2") 1000] |} in
  let trend := prepareTrendData now [e] in
  daysInPreviousMonthOf 2024 2 = 29
  ∧ daysInCurrentMonthOf 2024 2 = 31
  ∧ previousMonthData trend
    = replicate 9 zero ++ replicate 20 (ofInteger 10) ++ [zero; zero]
  ∧ previousMonthData trend !! 28%nat = Some (ofInteger 10)
  ∧ previousMonthData trend !! 29%nat = Some zero
  ∧ previousMonthData trend !! 30%nat = Some zero.
Proof. repeat split; vm_compute; reflexivity. Qed.

(** When the previous month is at least as long as the current one, the
    series stops at the length of the current month: its entries are the
    running totals of the first days of the previous month. *)
Lemma prepareTrendData_truncates (now : Now) (expenses : list Expense) :
  let days := Z.to_nat (daysInCurrentMonthOf (currentYear now) (currentMonth now)) in
  let previousDays :=
    Z.to_nat (daysInPreviousMonthOf (currentYear now) (currentMonth now)) in
  (days ≤ previousDays)%nat →
  previousMonthData (prepareTrendData now expenses)
  = (λ i, foldl add zero (take (S i) (dailyTotals now expenses).2))
    <$> seq 0 days.
Proof.
  intros days previousDays Hle. apply list_eq. intros i.
  destruct (decide (i < days)%nat) as [Hi|Hi].
  - rewrite previousMonthData_lookup by done. fold previousDays.
    rewrite decide_True by lia.
    rewrite list_lookup_fmap, lookup_seq_lt by done. done.
  - rewrite !lookup_ge_None_2; [done | |].
    + rewrite length_fmap, length_seq. lia.
    + rewrite previousMonthData_length. fold days. lia.
Qed.

(** In January the previous month is December of the year before: an
    expense of that month is added to the bucket of its day. *)
Lemma aggregate_january (now : Now) (dc dp : Z) (tc tp : list double) (e : Expense) :
  currentMonth now = 0 →
  fullYear (date e) = currentYear now - 1 →
  month (date e) = 11 →
  dayOfMonth (date e) - 1 < dp →
  aggregate now dc dp (tc, tp) e
  = (tc, addAt tp (dayOfMonth (date e) - 1) (quotient (expAmount e) 100)).
Proof.
  intros Hjan Hyear Hmonth Hday. unfold aggregate.
  rewrite Hjan, Hyear, Hmonth.
  rewrite (proj2 (Z.eqb_neq (currentYear now - 1) (currentYear now))) by lia.
  simpl. rewrite !Z.eqb_refl. simpl.
  rewrite (proj2 (Z.ltb_lt _ _)) by done. reflexivity.
Qed.

Lemma daysInPreviousMonthOf_january (year : Z) :
  daysInPreviousMonthOf year 0 = 31.
Proof. reflexivity. Qed.

(** * The statements at work on concrete inputs *)

Import ChartUtils ExpenseTracker.

(** The budget example: a budget of 2,000,000 cents, nothing spent, and
    an expense of 1,900,000 cents give the warning. *)
Example budgetAlertCheck_warning :
  let budget := mkBudget (js "bud-1") (js "cat-1") 2000000 in
  let household :=
    {| members := [mkMember (js "mem-1") (js "Rohan") []];
       categories := [mkCategory (js "cat-1") (js "Groceries") []];
       rules := []; expenses := []; budgets := [budget];
       notifications := [] |} in
  let newExpense :=
    {| newDescription := js "Festival shopping"; newAmount := 1900000;
       newCategoryId := js "cat-1"; newMemberId := js "mem-1";
       newDate := mkDate (js "2024-03-10T00:00:00.000Z") 2024 2 10;
       newSplits := [mkSplit (js "mem-1") 1900000] |} in
  let env := mkEnv 2024 2 (js "2024-03-10T09:30:00.000Z")
                   (js "2024-03-10T09:30:02.000Z")
                   (js "e1") (js "b1") (js "a1") in
  budgetWarning toFixed2 env budget (js "Groceries")
  ∈ budgetAlertCheck toFixed2 household newExpense env.
Proof.
  intros budget household newExpense env.
  pose proof (budgetAlertCheck_thresholds toFixed2 household newExpense env
                budget eq_refl eq_refl) as H.
  cbv zeta in H. destruct H as (_ & _ & _ & Hwarning & _).
  apply Hwarning. vm_compute. repeat split; try done.
  intros [_ H]. apply H. reflexivity.
Qed.

(** C3.  The budget check counts what is dated after the current month.
    In March 2024 the category has a budget of 1000, an expense of 950
    dated in March and one of 40 dated in April (the form takes any
    date).  The spend recorded for March is 950, as the budgets overview
    of the dashboard shows it, and a new expense of 20 brings it to 970:
    neither threshold is crossed (950 is already above 900, 970 is below
    1000).  The check adds up 990 and emits the error notification;
    without the expense dated in April it emits nothing. *)
Theorem budgetAlertCheck_counts_later_months
    (formatCurrencyForNotif : Z → jsstring) :
  let budget := mkBudget (js "bud-1") (js "cat-1") 1000 in
  let expense (id iso : jsstring) (cents m d : Z) :=
    {| expId := id; description := js "Groceries"; expAmount := cents;
       date := mkDate iso 2024 m d;
       payerId := js "mem-1"; categoryId := js "cat-1";
       splits := [mkSplit (js "mem-1") cents] |} in
  let household (recorded : list Expense) :=
    {| members := [mkMember (js "mem-1") (js "Rohan") []];
       categories := [mkCategory (js "cat-1") (js "Groceries") []];
       rules := []; expenses := recorded; budgets := [budget];
       notifications := [] |} in
  let march := expense (js "exp-1") (js "2024-03-05T00:00:00.000Z") 950 2 5 in
  let april := expense (js "exp-2") (js "2024-04-02T00:00:00.000Z") 40 3 2 in
  let newExpense :=
    {| newDescription := js "Milk"; newAmount := 20;
       newCategoryId := js "cat-1"; newMemberId := js "mem-1";
       newDate := mkDate (js "2024-03-10T00:00:00.000Z") 2024 2 10;
       newSplits := [mkSplit (js "mem-1") 20] |} in
  let env := mkEnv 2024 2 (js "2024-03-10T09:30:00.000Z")
                   (js "2024-03-10T09:30:02.000Z")
                   (js "e1") (js "b1") (js "a1") in
  let s0 := spentInMonth (household [march; april]) (js "cat-1") 2024 2 in
  let s1 := s0 + newAmount newExpense in
  s0 = 950 ∧ s1 = 970
  ∧ Dashboard.spent [march; april] 2 budget = 950
  ∧ ¬ (s0 < budAmount budget ∧ budAmount budget ≤ s1)
  ∧ ¬ ((inject_Z s0 < inject_Z (budAmount budget) * 0.9)%Q
       ∧ (inject_Z (budAmount budget) * 0.9 <= inject_Z s1)%Q
       ∧ s1 < budAmount budget)
  ∧ spentBefore (household [march; april]) newExpense env = 990
  ∧ budgetAlertCheck formatCurrencyForNotif (household [march; april])
      newExpense env
    = [budgetExceeded formatCurrencyForNotif env budget (js "Groceries")]
  ∧ type (budgetExceeded formatCurrencyForNotif env budget (js "Groceries"))
    = error
  ∧ budgetAlertCheck formatCurrencyForNotif (household [march]) newExpense env
    = [].
Proof.
  intros budget expense household march april newExpense env s0 s1.
  assert (s0 = 950) as -> by reflexivity.
  assert (s1 = 970) as -> by reflexivity.
  repeat split; try reflexivity.
  - simpl. lia.
  - intros (Hlt & _ & _). vm_compute in Hlt. discriminate Hlt.
Qed.



(** On 15 March 2024 the entry of day 16 is [null] and the series have
    31 entries, after a February of 29 days. *)
Lemma prepareTrendData_lengths_witness :
  let now := {| currentYear := 2024; currentMonth := 2; today := 15 |} in
  let e := {| expId := js "exp-6"; description := js "Netflix";
              expAmount := 1000;
              date := mkDate (js "2024-02-10T00:00:00.000Z") 2024 1 10;
              payerId := js "mem-2"; categoryId := js "cat-5";
              splits := [mkSplit (js "mem-2") 1000] |} in
  let trend := prepareTrendData now [e] in
  length (currentMonthData trend) = 31%nat
  ∧ length (previousMonthData trend) = 31%nat
  ∧ currentMonthData trend !! 15%nat = Some None.
Proof.
  intros now e trend.
  destruct (prepareTrendData_lengths now [e]) as (H1 & H2 & _ & Hnull & _).
  split; [exact H1|]. split; [exact H2|].
  apply (Hnull 16); vm_compute; split; discriminate || reflexivity.
Defined.

(** The budget example continued: with the 1,900,000 cents recorded, a
    further expense of 200,000 cents gives the error notification and no
    second warning. *)
Example budgetAlertCheck_second_expense :
  let budget := mkBudget (js "bud-1") (js "cat-1") 2000000 in
  let first :=
    {| expId := js "exp-e1"; description := js "Festival shopping";
       expAmount := 1900000;
       date := mkDate (js "2024-03-10T00:00:00.000Z") 2024 2 10;
       payerId := js "mem-1"; categoryId := js "cat-1";
       splits := [mkSplit (js "mem-1") 1900000] |} in
  let household :=
    {| members := [mkMember (js "mem-1") (js "Rohan") []];
       categories := [mkCategory (js "cat-1") (js "Groceries") []];
       rules := []; expenses := [first]; budgets := [budget];
       notifications := [] |} in
  let newExpense :=
    {| newDescription := js "Sweets"; newAmount := 200000;
       newCategoryId := js "cat-1"; newMemberId := js "mem-1";
       newDate := mkDate (js "2024-03-12T00:00:00.000Z") 2024 2 12;
       newSplits := [mkSplit (js "mem-1") 200000] |} in
  let env := mkEnv 2024 2 (js "2024-03-12T09:30:00.000Z")
                   (js "2024-03-12T09:30:02.000Z")
                   (js "e2") (js "b2") (js "a2") in
  budgetAlertCheck toFixed2 household newExpense env
  = [budgetExceeded toFixed2 env budget (js "Groceries")].
Proof. reflexivity. Qed.

(** A description of blanks only is refused. *)
Example handleSubmit_blank_description :
  handleSubmit {| formDescription := js "   ";
                  totalAmountCents := 1000;
                  formCategoryId := js "cat-3";
                  formMemberId := js "mem-1";
                  formDate := mkDate (js "2024-03-10T00:00:00.000Z") 2024 2 10;
                  formSplits := [mkSplit (js "mem-1") 1000] |}
  = None.
Proof. reflexivity. Qed.

(** The rows of the dashboard come out by decreasing total. *)
Example spendingByMember_order :
  let household := [mkMember (js "mem-1") (js "Rohan") [];
                    mkMember (js "mem-2") (js "Priya") []] in
  let e := {| expId := js "exp-1"; description := js "Dinner";
              expAmount := 1000;
              date := mkDate (js "2024-03-10T00:00:00.000Z") 2024 2 10;
              payerId := js "mem-1"; categoryId := js "cat-3";
              splits := [mkSplit (js "mem-1") 300;
                         mkSplit (js "mem-2") 700] |} in
  (λ row, (memId (member row), memberSpent row))
  <$> spendingByMember household [e]
  = [(js "mem-2", Some (Num 700)); (js "mem-1", Some (Num 300))].
Proof. reflexivity. Qed.

(** * More of the code *)

(** ** The expense form *)

Import SplitEditing.

Lemma elem_of_imap_inv {A B} (f : nat → A → B) (l : list A) (y : B) :
  y ∈ imap f l → ∃ i x, l !! i = Some x ∧ y = f i x.
Proof.
  intros (i & Hi)%list_elem_of_lookup_1.
  rewrite list_lookup_imap in Hi.
  destruct (l !! i) as [x|] eqn:Hx; [|done].
  injection Hi as <-. by exists i, x.
Qed.

Lemma handleSplitEqually_share (total : Z) (members : list Member)
    (splits : list Split) (s : Split) :
  0 < total → members ≠ [] →
  s ∈ handleSplitEqually total members splits →
  0 ≤ total / Z.of_nat (length members)
  ∧ (amount s = total / Z.of_nat (length members)
     ∨ amount s = total / Z.of_nat (length members) + 1).
Proof.
  intros Htotal Hne. rewrite handleSplitEqually_unfold by done.
  intros (i & m & _ & ->)%elem_of_imap_inv.
  assert (0 < Z.of_nat (length members))
    by (destruct members; simpl; [done|lia]).
  split; [apply Z.div_pos; lia|].
  unfold equalShare. simpl. destruct (Z.of_nat i <? _); [right|left]; lia.
Qed.

(** X1.  The shares of an equal split are fair: no share is negative,
    each is the floor share or one cent more, and any two differ by at
    most one cent. *)
Theorem equal_shares_within_one_cent (total : Z) (members : list Member)
    (splits : list Split) (s t : Split) :
  0 < total → members ≠ [] →
  s ∈ handleSplitEqually total members splits →
  t ∈ handleSplitEqually total members splits →
  0 ≤ amount s
  ∧ total / Z.of_nat (length members) ≤ amount s
      ≤ total / Z.of_nat (length members) + 1
  ∧ Z.abs (amount s - amount t) ≤ 1.
Proof.
  intros Htotal Hne Hs Ht.
  destruct (handleSplitEqually_share _ _ _ _ Htotal Hne Hs) as [? ?].
  destruct (handleSplitEqually_share _ _ _ _ Htotal Hne Ht) as [_ ?].
  lia.
Qed.

Lemma equal_shares_within_one_cent_witness :
  let members := [mkMember (js "mem-1") (js "Rohan") [];
                  mkMember (js "mem-2") (js "Priya") [];
                  mkMember (js "mem-3") (js "Asha") []] in
  Z.abs (amount (mkSplit (js "mem-1") 334) - amount (mkSplit (js "mem-3") 333))
  ≤ 1.
Proof.
  intros members.
  apply (equal_shares_within_one_cent 1000 members []
           (mkSplit (js "mem-1") 334) (mkSplit (js "mem-3") 333)).
  - lia.
  - discriminate.
  - vm_compute. left.
  - vm_compute. do 2 right. left.
Defined.

Lemma handleSubmit_accepts (f : Form) :
  trim (formDescription f) ≠ [] →
  0 < totalAmountCents f →
  formCategoryId f ≠ [] →
  formMemberId f ≠ [] →
  totalSplitAmount (formSplits f) = totalAmountCents f →
  handleSubmit f
  = Some {| newDescription := trim (formDescription f);
            newAmount := totalAmountCents f;
            newCategoryId := formCategoryId f;
            newMemberId := formMemberId f;
            newDate := formDate f;
            newSplits := filter (λ s, 0 < amount s) (formSplits f) |}.
Proof.
  intros Hdesc Htotal Hcat Hmem Hsum. unfold handleSubmit, falsy, remainingAmount.
  rewrite !bool_decide_eq_false_2 by done.
  rewrite (proj2 (Z.leb_gt _ _)) by lia.
  rewrite (proj2 (Z.ltb_ge _ _)) by lia. reflexivity.
Qed.

Lemma handleSplitEqually_sum (total : Z) (members : list Member)
    (splits : list Split) :
  0 < total → members ≠ [] →
  sumOf amount (handleSplitEqually total members splits) = total.
Proof.
  intros Htotal Hne. rewrite handleSplitEqually_unfold by done.
  assert (0 < Z.of_nat (length members))
    by (destruct members; simpl; [done|lia]).
  etransitivity; [exact (shares_sum _ _ members 0)|].
  pose proof (Z.mod_pos_bound total (Z.of_nat (length members)) ltac:(lia)).
  pose proof (Z.div_mod total (Z.of_nat (length members)) ltac:(lia)). lia.
Qed.

(** X2.  Split equally, then submit: a form with a description, a
    category, a payer and a positive amount is accepted after the equal
    split, and the splits handed on are positive and add up to the
    amount (shares of zero cents, when there are more members than
    cents, are dropped without loss). *)
Theorem split_equally_then_submit (f : Form) (members : list Member) :
  trim (formDescription f) ≠ [] →
  0 < totalAmountCents f →
  formCategoryId f ≠ [] →
  formMemberId f ≠ [] →
  members ≠ [] →
  ∃ e,
    handleSubmit
      (setSplits f (handleSplitEqually (totalAmountCents f) members
                      (formSplits f)))
    = Some e
    ∧ newAmount e = totalAmountCents f
    ∧ sumOf amount (newSplits e) = totalAmountCents f
    ∧ (∀ s, s ∈ newSplits e → 0 < amount s).
Proof.
  intros Hdesc Htotal Hcat Hmem Hne.
  eexists. split.
  - apply handleSubmit_accepts; simpl; try done.
    by apply handleSplitEqually_sum.
  - simpl. split; [done|]. split.
    + rewrite sumOf_filter_positive; [by apply handleSplitEqually_sum|].
      intros s Hs.
      destruct (handleSplitEqually_share _ _ _ _ Htotal Hne Hs) as [? ?].
      lia.
    + intros s [Hs _]%list_elem_of_filter. done.
Qed.

Lemma split_equally_then_submit_witness :
  let members := [mkMember (js "mem-1") (js "Rohan") [];
                  mkMember (js "mem-2") (js "Priya") [];
                  mkMember (js "mem-3") (js "Asha") []] in
  let f := {| formDescription := js " Tea ";
              totalAmountCents := 2;
              formCategoryId := js "cat-3";
              formMemberId := js "mem-1";
              formDate := mkDate (js "2024-03-10T00:00:00.000Z") 2024 2 10;
              formSplits := [] |} in
  ∃ e, handleSubmit (setSplits f (handleSplitEqually 2 members [])) = Some e
       ∧ newAmount e = 2
       ∧ sumOf amount (newSplits e) = 2
       ∧ (∀ s, s ∈ newSplits e → 0 < amount s).
Proof.
  intros members f.
  apply (split_equally_then_submit f members); try (vm_compute; discriminate).
  reflexivity.
Defined.

Lemma defaultSplits_positive (members : list Member) (payer : jsstring)
    (total : Z) :
  0 < total →
  filter (λ s, 0 < amount s) (defaultSplits members payer total)
  = (λ m, {| memberId := memId m; amount := total |})
    <$> filter (λ m, memId m = payer) members.
Proof.
  intros Htotal. unfold defaultSplits.
  induction members as [|m members IH]; [done|].
  rewrite fmap_cons, !filter_cons. cbn [amount].
  destruct (decide (memId m = payer)) as [Hid|Hid].
  - rewrite bool_decide_eq_true_2 by done.
    rewrite decide_True by done. rewrite fmap_cons, IH. reflexivity.
  - rewrite bool_decide_eq_false_2 by done.
    rewrite decide_False by lia. exact IH.
Qed.

Lemma defaultSplits_total (members : list Member) (payer : jsstring)
    (total : Z) :
  totalSplitAmount (defaultSplits members payer total)
  = total * Z.of_nat (length (filter (λ m, memId m = payer) members)).
Proof.
  unfold totalSplitAmount, defaultSplits.
  induction members as [|m members IH].
  { rewrite fmap_nil, sumOf_nil, filter_nil. simpl. lia. }
  rewrite fmap_cons, sumOf_cons, IH, filter_cons. cbn [amount].
  destruct (decide (memId m = payer)) as [Hid|Hid].
  - rewrite bool_decide_eq_true_2 by done. cbn [length]. lia.
  - rewrite bool_decide_eq_false_2 by done. lia.
Qed.

Lemma filter_absent_id (members : list Member) (payer : jsstring) :
  payer ∉ memId <$> members → filter (λ m, memId m = payer) members = [].
Proof.
  induction members as [|m members IH]; intros Hout; [done|].
  rewrite fmap_cons in Hout. apply not_elem_of_cons in Hout as [Hne Hout].
  rewrite filter_cons, decide_False by done. by apply IH.
Qed.

Lemma filter_unique_id (members : list Member) (payer : jsstring) :
  NoDup (memId <$> members) → payer ∈ memId <$> members →
  ∃ m, filter (λ m, memId m = payer) members = [m] ∧ memId m = payer.
Proof.
  induction members as [|m members IH]; intros Hnodup Hin.
  { by apply elem_of_nil in Hin. }
  rewrite fmap_cons in Hnodup, Hin.
  apply NoDup_cons in Hnodup as [Hm Hnodup].
  rewrite filter_cons.
  destruct (decide (memId m = payer)) as [Hid|Hid].
  - exists m. split; [|done]. f_equal.
    apply filter_absent_id. by rewrite <- Hid.
  - apply elem_of_cons in Hin as [Hin|Hin]; [done|]. by apply IH.
Qed.

(** X3.  The default split: when the payer is one of the members and
    member ids are distinct, the form that carries the default splits is
    accepted and hands on one split, the payer's, for the whole amount;
    when the payer is not a member it is refused. *)
Theorem default_splits_then_submit (f : Form) (members : list Member) :
  trim (formDescription f) ≠ [] →
  0 < totalAmountCents f →
  formCategoryId f ≠ [] →
  formMemberId f ≠ [] →
  NoDup (memId <$> members) →
  let opened :=
    setSplits f (resetSplitsEffect true members (formMemberId f)
                   (totalAmountCents f) (formSplits f)) in
  (formMemberId f ∈ memId <$> members →
   handleSubmit opened
   = Some {| newDescription := trim (formDescription f);
             newAmount := totalAmountCents f;
             newCategoryId := formCategoryId f;
             newMemberId := formMemberId f;
             newDate := formDate f;
             newSplits := [{| memberId := formMemberId f;
                              amount := totalAmountCents f |}] |})
  ∧ (formMemberId f ∉ memId <$> members → handleSubmit opened = None).
Proof.
  intros Hdesc Htotal Hcat Hmem Hnodup opened. split.
  - intros Hin.
    destruct (filter_unique_id members (formMemberId f) Hnodup Hin)
      as (m & Hfilter & Hid).
    subst opened. rewrite handleSubmit_accepts; simpl; try done.
    + by rewrite defaultSplits_positive, Hfilter, <- Hid by done.
    + rewrite defaultSplits_total, Hfilter. simpl. lia.
  - intros Hout. apply handleSubmit_rejects. do 2 right.
    subst opened. simpl. rewrite defaultSplits_total.
    rewrite filter_absent_id by done. simpl. lia.
Qed.

Lemma default_splits_then_submit_witness :
  let members := [mkMember (js "mem-1") (js "Rohan") [];
                  mkMember (js "mem-2") (js "Priya") []] in
  let f := {| formDescription := js "Dinner";
              totalAmountCents := 1000;
              formCategoryId := js "cat-3";
              formMemberId := js "mem-2";
              formDate := mkDate (js "2024-03-10T00:00:00.000Z") 2024 2 10;
              formSplits := [] |} in
  newSplits <$> handleSubmit (setSplits f (defaultSplits members (js "mem-2") 1000))
  = Some [mkSplit (js "mem-2") 1000].
Proof.
  intros members f.
  assert (NoDup (memId <$> members)) as Hnodup.
  { apply (bool_decide_unpack _). vm_compute. exact I. }
  destruct (default_splits_then_submit f members) as [Hyes _];
    [by vm_compute | by vm_compute | by vm_compute | by vm_compute
    | exact Hnodup | ].
  change (defaultSplits members (js "mem-2") 1000)
    with (resetSplitsEffect true members (formMemberId f)
            (totalAmountCents f) (formSplits f)).
  rewrite Hyes; [reflexivity|].
  vm_compute. right. left.
Defined.

(** X4.  Changing one member's share keeps the members of the split list
    and their order; with distinct ids the total assigned moves by the
    difference between the new and the old share; a member that is not
    in the list changes nothing. *)
Theorem handleSplitAmountChange_effect (target : jsstring) (newAmount : Z)
    (prevSplits : list Split) :
  memberId <$> handleSplitAmountChange target newAmount prevSplits
  = memberId <$> prevSplits
  ∧ (∀ old, NoDup (memberId <$> prevSplits) →
       {| memberId := target; amount := old |} ∈ prevSplits →
       totalSplitAmount (handleSplitAmountChange target newAmount prevSplits)
       = totalSplitAmount prevSplits - old + newAmount)
  ∧ (target ∉ memberId <$> prevSplits →
     handleSplitAmountChange target newAmount prevSplits = prevSplits).
Proof.
  unfold handleSplitAmountChange, totalSplitAmount.
  assert (∀ l : list Split, target ∉ memberId <$> l →
            (λ split, if bool_decide (memberId split = target)
                      then {| memberId := memberId split; amount := newAmount |}
                      else split) <$> l = l) as Habsent.
  { induction l as [|s l IH]; intros Hout; [done|].
    rewrite fmap_cons in Hout. apply not_elem_of_cons in Hout as [Hne Hout].
    rewrite fmap_cons, bool_decide_eq_false_2 by done. by rewrite IH. }
  split; [|split].
  - induction prevSplits as [|s l IH]; [done|].
    rewrite !fmap_cons, IH. by case_bool_decide.
  - intros old. induction prevSplits as [|s l IH]; intros Hnodup Hin.
    { by apply elem_of_nil in Hin. }
    rewrite fmap_cons in Hnodup. apply NoDup_cons in Hnodup as [Hs Hnodup].
    rewrite fmap_cons, !sumOf_cons.
    apply elem_of_cons in Hin as [<-|Hin].
    + simpl. rewrite bool_decide_eq_true_2 by done.
      rewrite Habsent by done. simpl. lia.
    + assert (memberId s ≠ target) as Hne.
      { intros Heq. apply Hs. rewrite Heq.
        by apply (list_elem_of_fmap_2 memberId _ _ Hin). }
      rewrite bool_decide_eq_false_2 by done. rewrite IH by done. lia.
  - apply Habsent.
Qed.

(** X5.  The submit button and the handler agree: [handleSubmit] accepts
    a form exactly when [isFormValid] holds. *)
Theorem handleSubmit_iff_isFormValid (f : Form) :
  is_Some (handleSubmit f) ↔ isFormValid f = true.
Proof.
  unfold handleSubmit, isFormValid.
  destruct (falsy (trim (formDescription f))); simpl;
    [split; [by intros [? ?] | done]|].
  destruct (Z.leb_spec (totalAmountCents f) 0);
    destruct (Z.ltb_spec 0 (totalAmountCents f)); try lia; simpl;
    [split; [by intros [? ?] | done]|].
  destruct (falsy (formCategoryId f)); simpl;
    [split; [by intros [? ?] | done]|].
  destruct (falsy (formMemberId f)); simpl;
    [split; [by intros [? ?] | done]|].
  destruct (Z.ltb_spec 0 (Z.abs (remainingAmount f)));
    destruct (Z.eqb_spec (remainingAmount f) 0); try lia;
    split; try done; by intros [? ?].
Qed.

Lemma handleSplitAmountChange_effect_witness :
  let prev := [mkSplit (js "mem-1") 600; mkSplit (js "mem-2") 400] in
  totalSplitAmount (handleSplitAmountChange (js "mem-2") 500 prev) = 1100.
Proof.
  intros prev.
  destruct (handleSplitAmountChange_effect (js "mem-2") 500 prev)
    as (_ & Htotal & _).
  rewrite (Htotal 400).
  - reflexivity.
  - apply (bool_decide_unpack _). vm_compute. exact I.
  - right. left.
Defined.

(** X6.  When no share typed into the form is negative, an accepted
    submission hands on splits that add up to the amount of the
    expense. *)
Theorem handleSubmit_keeps_sum (f : Form) (e : NewExpense) :
  (∀ s, s ∈ formSplits f → 0 ≤ amount s) →
  handleSubmit f = Some e →
  sumOf amount (newSplits e) = newAmount e
  ∧ (∀ s, s ∈ newSplits e → 0 < amount s ∧ s ∈ formSplits f).
Proof.
  intros Hall Hok. split; [by apply (handleSubmit_sum_when_nonnegative f)|].
  apply handleSubmit_accepted in Hok as (_ & _ & _ & _ & Heq).
  intros s. rewrite Heq. intros [? ?]%list_elem_of_filter. done.
Qed.

Lemma handleSubmit_keeps_sum_witness :
  let f := {| formDescription := js "Dinner";
              totalAmountCents := 1000;
              formCategoryId := js "cat-3";
              formMemberId := js "mem-1";
              formDate := mkDate (js "2024-03-10T00:00:00.000Z") 2024 2 10;
              formSplits := [mkSplit (js "mem-1") 1000;
                             mkSplit (js "mem-2") 0] |} in
  ∃ e, handleSubmit f = Some e ∧ sumOf amount (newSplits e) = newAmount e.
Proof.
  intros f. eexists. split; [reflexivity|].
  apply (handleSubmit_keeps_sum f); [|reflexivity].
  intros s Hs.
  repeat (apply elem_of_cons in Hs as [->|Hs]; [by vm_compute|]).
  by apply elem_of_nil in Hs.
Defined.

(** ** The store: all or nothing, and reading back *)

Import DbLoad.

(** X7.  [db.addExpense] is all or nothing on the tables.  With no
    database open it does nothing.  When the expense id is new and the
    notification ids are new and distinct, the expense, its splits and
    the notifications are committed together; the call then returns
    normally if the copy to IndexedDB succeeds, and rejects with the
    error of [ROLLBACK] if the copy fails, the rows staying committed.
    Otherwise (a key is taken, even that of the last notification) the
    transaction is rolled back, the tables are as before and the call
    returns normally. *)
Theorem addExpense_all_or_nothing (save : Db.Database → Result unit)
    (e : Expense) (ns : list Notification) (d : Db.Database) :
  let fresh :=
    (expId e ∉ Db.rowId <$> Db.tblExpenses d)
    ∧ NoDup (notifId <$> ns)
    ∧ ∀ n, n ∈ ns → notifId n ∉ notifId <$> Db.tblNotifications d in
  let outcome := Db.addExpense save e ns (Some d) in
  (fresh →
   outcome.1 = Some (persisted d e ns)
   ∧ (save (persisted d e ns) = Ok tt → outcome.2 = Ok tt)
   ∧ (∀ reason,
        save (persisted d e ns) = Throw reason →
        outcome.2 = Throw (js "cannot rollback - no transaction is active")))
  ∧ (¬ fresh → outcome = (Some d, Ok tt))
  ∧ Db.addExpense save e ns None = (None, Ok tt).
Proof.
  intros fresh outcome. split; [|split; [|done]].
  - intros (He & Hnodup & Hfresh). subst outcome.
    rewrite addExpense_commits by done. simpl.
    split; [done|]. apply afterCommit_cases.
  - intros Hbad. by apply addExpense_rolls_back.
Qed.

(** A notification whose id is taken: nothing of the expense is kept,
    whatever the copy to IndexedDB would do. *)
Lemma addExpense_all_or_nothing_witness :
  let seen := {| notifId := js "notif-1"; message := js "Welcome";
                 notifDate := js "2024-03-01T00:00:00.000Z";
                 type := info; isRead := true |} in
  let d := Db.mkDatabase [] [] [seen] in
  let e := {| expId := js "exp-1"; description := js "Dinner";
              expAmount := 1000;
              date := mkDate (js "2024-03-10T00:00:00.000Z") 2024 2 10;
              payerId := js "mem-1"; categoryId := js "cat-3";
              splits := [mkSplit (js "mem-1") 1000] |} in
  let again := {| notifId := js "notif-1"; message := js "Over budget";
                  notifDate := js "2024-03-10T00:00:00.000Z";
                  type := error; isRead := false |} in
  let quotaExceeded := λ _ : Db.Database,
                         @Throw unit (js "QuotaExceededError") in
  Db.addExpense quotaExceeded e [again] (Some d) = (Some d, Ok tt).
Proof.
  intros seen d e again quotaExceeded.
  destruct (addExpense_all_or_nothing quotaExceeded e [again] d)
    as (_ & Hrollback & _).
  apply Hrollback. intros (_ & _ & Hfresh).
  apply (Hfresh again); left.
Defined.

(** X8.  What [handleAddExpense] leaves in the store, and when it
    rejects.  The row it writes carries the fields of the submitted
    expense under the id [exp-] followed by the new UUID, one split row
    per split of the submission, and the notifications of this call:
    those of the budget check, then the anomaly alert when the check
    succeeds and flags the expense.  When the expense id and the ids of
    these notifications are new to the store, all of it is committed;
    the call then returns normally if the copy to IndexedDB succeeds and
    rejects with the error of [ROLLBACK] if the copy fails.  When an id
    is taken nothing is written and the call returns normally.  Without
    a database the call does nothing. *)
Theorem handleAddExpense_outcomes (formatCurrencyForNotif : Z → jsstring)
    (detectAnomalousExpense : Household → Expense → Result AnomalyResult)
    (saveDbToIndexedDB : Db.Database → Result unit)
    (household : Household) (newExpense : NewExpense) (env : Env)
    (d : Db.Database) :
  let id := js "exp-" ++ uuidExpense env in
  let expenseWithId :=
    {| expId := id;
       description := newDescription newExpense;
       expAmount := newAmount newExpense;
       date := newDate newExpense;
       payerId := newMemberId newExpense;
       categoryId := newCategoryId newExpense;
       splits := newSplits newExpense |} in
  let budgetNotifications :=
    budgetAlertCheck formatCurrencyForNotif household newExpense env in
  let added :=
    match detectAnomalousExpense household expenseWithId with
    | Ok r => if isAnomalous r
              then budgetNotifications ++ [anomalyAlert env r]
              else budgetNotifications
    | Throw _ => budgetNotifications
    end in
  let after :=
    {| Db.tblExpenses :=
         Db.tblExpenses d
         ++ [{| Db.rowId := id;
                Db.rowDescription := newDescription newExpense;
                Db.rowAmount := newAmount newExpense;
                Db.rowDate := newDate newExpense;
                Db.rowMemberId := newMemberId newExpense;
                Db.rowCategoryId := newCategoryId newExpense;
                Db.rowTripId := None |}];
       Db.tblExpenseSplits :=
         Db.tblExpenseSplits d
         ++ ((λ s, {| Db.splitExpenseId := id;
                      Db.splitMemberId := memberId s;
                      Db.splitAmount := amount s |})
             <$> newSplits newExpense);
       Db.tblNotifications := Db.tblNotifications d ++ added |} in
  let fresh :=
    (id ∉ Db.rowId <$> Db.tblExpenses d)
    ∧ ∀ n, n ∈ added → notifId n ∉ notifId <$> Db.tblNotifications d in
  let outcome :=
    handleAddExpense formatCurrencyForNotif detectAnomalousExpense
      saveDbToIndexedDB household newExpense env (Some d) in
  (fresh →
   outcome.1 = Some after
   ∧ (saveDbToIndexedDB after = Ok tt → outcome.2 = Ok tt)
   ∧ (∀ reason,
        saveDbToIndexedDB after = Throw reason →
        outcome.2 = Throw (js "cannot rollback - no transaction is active")))
  ∧ (¬ fresh → outcome = (Some d, Ok tt))
  ∧ handleAddExpense formatCurrencyForNotif detectAnomalousExpense
      saveDbToIndexedDB household newExpense env None
    = (None, Ok tt).
Proof.
  intros id expenseWithId budgetNotifications added after fresh outcome.
  assert (NoDup (notifId <$> added)) as Hnodup.
  { subst added. destruct (detectAnomalousExpense _ _) as [r|reason];
      [destruct (isAnomalous r)|];
      first [apply notification_ids_distinct | apply budget_ids_distinct]. }
  assert (outcome
          = Db.addExpense saveDbToIndexedDB expenseWithId added (Some d))
    as Houtcome.
  { subst outcome. by rewrite handleAddExpense_unfold. }
  split; [|split].
  - intros [Hid Hfresh]. rewrite Houtcome.
    rewrite addExpense_commits by done.
    change (persisted d expenseWithId added) with after. simpl.
    split; [done|]. apply afterCommit_cases.
  - intros Hbad. rewrite Houtcome. apply addExpense_rolls_back.
    intros (Hid & _ & Hfresh). apply Hbad. by split.
  - by rewrite handleAddExpense_unfold.
Qed.

(** ** Budget notifications: when nothing is raised *)

Lemma ninetyPercent_lt (s b : Z) :
  numLt (inject_Z s) (inject_Z b * 0.9) = true ↔ 10 * s < 9 * b.
Proof.
  rewrite numLt_spec. unfold Qlt, inject_Z, Qmult. simpl. lia.
Qed.

Lemma ninetyPercent_ge (s b : Z) :
  numGe (inject_Z s) (inject_Z b * 0.9) = true ↔ 9 * b ≤ 10 * s.
Proof.
  rewrite numGe_spec. unfold Qle, inject_Z, Qmult. simpl. lia.
Qed.

(** When the check is silent, in terms of what the check itself adds
    up. *)
Lemma budgetAlertCheck_silent_counted (formatCurrencyForNotif : Z → jsstring)
    (household : Household) (newExpense : NewExpense) (env : Env) :
  let emitted := budgetAlertCheck formatCurrencyForNotif household newExpense env in
  let s0 := spentBefore household newExpense env in
  (newAmount newExpense ≤ 0 → emitted = [])
  ∧ (∀ budget,
       List.find (λ b, bool_decide (budCategoryId b = newCategoryId newExpense))
                 (budgets household) = Some budget →
       (budAmount budget ≤ s0 → emitted = [])
       ∧ (9 * budAmount budget ≤ 10 * s0 →
          s0 + newAmount newExpense < budAmount budget → emitted = [])).
Proof.
  intros emitted s0. subst emitted. unfold budgetAlertCheck, spentAfter.
  fold s0. split.
  - intros Hamount. destruct (List.find _ _) as [budget|]; [|done].
    destruct (Z.ltb_spec 0 (budAmount budget)); [|done]. cbv zeta.
    destruct (Z.ltb_spec s0 (budAmount budget));
      destruct (Z.leb_spec (budAmount budget) (s0 + newAmount newExpense));
      simpl; try lia;
      destruct (numLt _ _) eqn:Hlt; simpl; try done;
      destruct (numGe _ _) eqn:Hge; simpl; try done;
      apply ninetyPercent_lt in Hlt; apply ninetyPercent_ge in Hge; lia.
  - intros budget ->. split.
    + intros Hreached.
      destruct (Z.ltb_spec 0 (budAmount budget)); [|done]. cbv zeta.
      rewrite (proj2 (Z.ltb_ge s0 _)) by done. simpl.
      destruct (numLt _ _) eqn:Hlt; simpl; [|done].
      apply ninetyPercent_lt in Hlt. lia.
    + intros Hninety Hbelow.
      destruct (Z.ltb_spec 0 (budAmount budget)); [|done]. cbv zeta.
      rewrite (proj2 (Z.leb_gt _ (s0 + newAmount newExpense))) by done.
      rewrite andb_false_r.
      destruct (numLt _ _) eqn:Hlt; simpl; [|done].
      apply ninetyPercent_lt in Hlt. lia.
Qed.

(** When no expense of the category is dated after the current month,
    the check adds up the spend of the current month. *)
Lemma spentBefore_month (household : Household) (newExpense : NewExpense)
    (env : Env) :
  (∀ e, e ∈ expenses household →
        categoryId e = newCategoryId newExpense →
        ¬ datedAfterMonth (nowYear env) (nowMonth env) e) →
  spentBefore household newExpense env
  = spentInMonth household (newCategoryId newExpense)
      (nowYear env) (nowMonth env).
Proof.
  intros Hnone. unfold spentBefore, expensesForCategoryThisMonth, spentInMonth.
  f_equal. induction (expenses household) as [|e es IH]; [done|].
  rewrite !filter_cons.
  rewrite IH by (intros e' He'; apply Hnone; by right).
  pose proof (Hnone e ltac:(left)) as He. unfold datedAfterMonth in He.
  assert (Is_true (sinceStartOfMonth env (date e))
          ↔ nowYear env < fullYear (date e)
            ∨ (fullYear (date e) = nowYear env
               ∧ nowMonth env ≤ month (date e))) as Hsince.
  { unfold sinceStartOfMonth.
    rewrite orb_True, andb_True, !Is_true_true, Z.ltb_lt, Z.eqb_eq, Z.leb_le.
    done. }
  repeat case_decide; try done; exfalso.
  - destruct H as [Hcat Hs]. apply Hsince in Hs. specialize (He Hcat).
    apply H0. split; [done|]. lia.
  - destruct H0 as (Hcat & Hy & Hm). apply H. split; [done|].
    apply Hsince. lia.
Qed.

(** X9.  The budget check stays silent when there is nothing new to
    report.  When no expense of the category is dated after the current
    month, with [s0] the spend recorded for the category in the current
    month: the check emits nothing for an expense of amount zero or
    less; once [s0] has reached the budget; and once [s0] has reached
    90% of the budget while the new total stays below the budget (no
    second warning). *)
Theorem budgetAlertCheck_silent (formatCurrencyForNotif : Z → jsstring)
    (household : Household) (newExpense : NewExpense) (env : Env) :
  (∀ e, e ∈ expenses household →
        categoryId e = newCategoryId newExpense →
        ¬ datedAfterMonth (nowYear env) (nowMonth env) e) →
  let emitted := budgetAlertCheck formatCurrencyForNotif household newExpense env in
  let s0 := spentInMonth household (newCategoryId newExpense)
              (nowYear env) (nowMonth env) in
  (newAmount newExpense ≤ 0 → emitted = [])
  ∧ (∀ budget,
       List.find (λ b, bool_decide (budCategoryId b = newCategoryId newExpense))
                 (budgets household) = Some budget →
       (budAmount budget ≤ s0 → emitted = [])
       ∧ (9 * budAmount budget ≤ 10 * s0 →
          s0 + newAmount newExpense < budAmount budget → emitted = [])).
Proof.
  intros Hnone emitted s0. subst s0.
  rewrite <- (spentBefore_month household newExpense env Hnone).
  apply budgetAlertCheck_silent_counted.
Qed.

(** After the warning at 1,900,000 of 2,000,000 cents, an expense of
    50,000 cents raises nothing. *)
Lemma budgetAlertCheck_silent_witness :
  let budget := mkBudget (js "bud-1") (js "cat-1") 2000000 in
  let first :=
    {| expId := js "exp-e1"; description := js "Festival shopping";
       expAmount := 1900000;
       date := mkDate (js "2024-03-10T00:00:00.000Z") 2024 2 10;
       payerId := js "mem-1"; categoryId := js "cat-1";
       splits := [mkSplit (js "mem-1") 1900000] |} in
  let household :=
    {| members := [mkMember (js "mem-1") (js "Rohan") []];
       categories := [mkCategory (js "cat-1") (js "Groceries") []];
       rules := []; expenses := [first]; budgets := [budget];
       notifications := [] |} in
  let newExpense :=
    {| newDescription := js "Milk"; newAmount := 50000;
       newCategoryId := js "cat-1"; newMemberId := js "mem-1";
       newDate := mkDate (js "2024-03-12T00:00:00.000Z") 2024 2 12;
       newSplits := [mkSplit (js "mem-1") 50000] |} in
  let env := mkEnv 2024 2 (js "2024-03-12T09:30:00.000Z")
                   (js "2024-03-12T09:30:02.000Z")
                   (js "e2") (js "b2") (js "a2") in
  budgetAlertCheck toFixed2 household newExpense env = [].
Proof.
  intros budget first household newExpense env.
  assert (∀ e, e ∈ expenses household →
               categoryId e = newCategoryId newExpense →
               ¬ datedAfterMonth (nowYear env) (nowMonth env) e) as Hnone.
  { intros e ->%list_elem_of_singleton _. unfold datedAfterMonth. simpl. lia. }
  destruct (budgetAlertCheck_silent toFixed2 household newExpense env Hnone)
    as [_ Hbudget].
  destruct (Hbudget budget eq_refl) as [_ Hwarned].
  apply Hwarned; by vm_compute.
Defined.

(** ** Reading an expense back *)

Lemma filter_none {A} (P : A → Prop) `{∀ x, Decision (P x)} (l : list A) :
  (∀ x, x ∈ l → ¬ P x) → filter P l = [].
Proof.
  induction l as [|x l IH]; intros Hnone; [done|].
  rewrite filter_cons, decide_False by (apply Hnone; left).
  apply IH. intros y Hy. apply Hnone. by right.
Qed.

Lemma filter_all {A} (P : A → Prop) `{∀ x, Decision (P x)} (l : list A) :
  (∀ x, x ∈ l → P x) → filter P l = l.
Proof.
  induction l as [|x l IH]; intros Hall; [done|].
  rewrite filter_cons, decide_True by (apply Hall; left).
  f_equal. apply IH. intros y Hy. apply Hall. by right.
Qed.

Lemma loadSplits_persisted_new (d : Db.Database) (e : Expense)
    (ns : list Notification) :
  (∀ r, r ∈ Db.tblExpenseSplits d → Db.splitExpenseId r ≠ expId e) →
  loadSplits (persisted d e ns) (expId e) = splits e.
Proof.
  intros Hnone. unfold loadSplits, persisted, splitRowsOf. simpl.
  rewrite filter_app, fmap_app, filter_none by done. simpl.
  rewrite filter_all.
  - rewrite <- list_fmap_compose. simpl.
    induction (splits e) as [|[m a] l IH]; [done|].
    rewrite fmap_cons, IH. done.
  - intros r (s & -> & _)%list_elem_of_fmap. done.
Qed.

Lemma loadSplits_persisted_old (d : Db.Database) (e : Expense)
    (ns : list Notification) (id : jsstring) :
  id ≠ expId e → loadSplits (persisted d e ns) id = loadSplits d id.
Proof.
  intros Hne. unfold loadSplits, persisted, splitRowsOf. simpl.
  rewrite filter_app, fmap_app.
  rewrite (filter_none _ (_ <$> splits e)); [by rewrite app_nil_r|].
  intros r (s & -> & _)%list_elem_of_fmap. simpl. congruence.
Qed.

Section ReadBack.

Variable orderExpenses : list Db.ExpenseRow → list Db.ExpenseRow.
Variable orderNotifications : list Notification → list Notification.
Variable saveDbToIndexedDB : Db.Database → Result unit.

(** X10.  What is stored is read back.  Whenever the engine's ordering
    only rearranges rows, an expense stored by [db.addExpense] under a
    new id comes back from the next load with its fields and exactly its
    splits, beside the expenses loaded before, unchanged; and the
    notifications loaded are the former ones and the new ones.  The
    call returns normally when the copy to IndexedDB succeeds. *)
Theorem addExpense_then_load (e : Expense) (ns : list Notification)
    (d : Db.Database) :
  (∀ rows, orderExpenses rows ≡ₚ rows) →
  (∀ rows, orderNotifications rows ≡ₚ rows) →
  expId e ∉ Db.rowId <$> Db.tblExpenses d →
  (∀ r, r ∈ Db.tblExpenseSplits d → Db.splitExpenseId r ≠ expId e) →
  NoDup (notifId <$> ns) →
  (∀ n, n ∈ ns → notifId n ∉ notifId <$> Db.tblNotifications d) →
  ∃ d',
    (Db.addExpense saveDbToIndexedDB e ns (Some d)).1 = Some d'
    ∧ (saveDbToIndexedDB d' = Ok tt →
       Db.addExpense saveDbToIndexedDB e ns (Some d) = (Some d', Ok tt))
    ∧ loadExpenses orderExpenses d' ≡ₚ e :: loadExpenses orderExpenses d
    ∧ loadNotifications orderNotifications d'
      ≡ₚ loadNotifications orderNotifications d ++ ns
    ∧ unreadNotificationsCount (loadNotifications orderNotifications d')
      = (unreadNotificationsCount (loadNotifications orderNotifications d)
         + unreadNotificationsCount ns)%nat.
Proof.
  intros Hexp Hnot Hid Hsplits Hnodup Hfresh.
  exists (persisted d e ns).
  rewrite addExpense_commits by done.
  split; [done|].
  split; [intros Hsaved; unfold afterCommit; by rewrite Hsaved|].
  assert (loadNotifications orderNotifications (persisted d e ns)
          ≡ₚ loadNotifications orderNotifications d ++ ns) as Hloaded.
  { unfold loadNotifications. simpl. by rewrite !Hnot. }
  split; [|split; [exact Hloaded|]].
  - unfold loadExpenses. simpl.
    rewrite filter_app, filter_cons, decide_True, filter_nil by done.
    set (kept := filter (λ r, Db.rowTripId r = None) (Db.tblExpenses d)).
    rewrite (Hexp (kept ++ [expenseRowOf e])).
    rewrite <- Permutation_cons_append, fmap_cons. simpl.
    rewrite loadSplits_persisted_new by done.
    assert (∀ x : Expense, {| expId := expId x; description := description x;
                              expAmount := expAmount x; date := date x;
                              payerId := payerId x; categoryId := categoryId x;
                              splits := splits x |} = x) as Heta
      by (by intros []).
    rewrite Heta. apply Permutation_skip.
    assert (∀ (f g : Db.ExpenseRow → Expense) (l : list Db.ExpenseRow),
              (∀ r, r ∈ l → f r = g r) → f <$> l = g <$> l) as Hext.
    { intros f g l. induction l as [|r l IH]; intros H; [done|].
      rewrite !fmap_cons, (H r) by left. f_equal. apply IH.
      intros r' Hr'. apply H. by right. }
    rewrite (Hexp kept).
    match goal with |- ?a ≡ₚ ?b => replace a with b; [reflexivity|] end.
    symmetry. apply Hext.
    intros r Hr. simpl. f_equal. apply loadSplits_persisted_old.
    intros Heq. apply Hid. rewrite <- Heq.
    apply list_elem_of_fmap_2.
    by apply list_elem_of_filter in Hr as [_ ?].
  - unfold unreadNotificationsCount.
    rewrite Hloaded, filter_app, length_app. done.
Qed.

End ReadBack.

(** An expense stored in an empty database, with an ordering that
    leaves the rows where they are. *)
Lemma addExpense_then_load_witness :
  let d := Db.mkDatabase [] [] [] in
  let e := {| expId := js "exp-1"; description := js "Dinner";
              expAmount := 1000;
              date := mkDate (js "2024-03-10T00:00:00.000Z") 2024 2 10;
              payerId := js "mem-1"; categoryId := js "cat-3";
              splits := [mkSplit (js "mem-1") 600;
                         mkSplit (js "mem-2") 400] |} in
  let copied := λ _ : Db.Database, Ok tt in
  ∃ d', Db.addExpense copied e [] (Some d) = (Some d', Ok tt)
        ∧ loadExpenses id d' ≡ₚ [e].
Proof.
  intros d e copied.
  destruct (addExpense_then_load id id copied e [] d)
    as (d' & _ & Hstored & Hload & _).
  - done.
  - done.
  - apply not_elem_of_nil.
  - intros r []%elem_of_nil.
  - apply NoDup_nil_2.
  - intros n []%elem_of_nil.
  - exists d'. split; [by apply Hstored | exact Hload].
Defined.

(** ** The dashboard: order and reconciliation *)

Lemma sortInsert_descending (x : MemberSpent) (rows : list MemberSpent) :
  (∀ row, row ∈ x :: rows → ∃ z, memberSpent row = Some (Num z)) →
  StronglySorted (λ a b, shown b ≤ shown a) rows →
  StronglySorted (λ a b, shown b ≤ shown a)
                 (sortInsert bySpentDescending x rows).
Proof.
  intros Hnum Hsorted.
  induction Hsorted as [|y rest Hrest IH Hy]; simpl.
  { repeat constructor. }
  destruct (Hnum x) as [zx Hx]; [left|].
  destruct (Hnum y) as [zy Hzy]; [right; left|].
  unfold movesBehind, bySpentDescending. rewrite Hx, Hzy. simpl.
  destruct (Z.ltb_spec 0 (zy - zx)) as [Hlt|Hge].
  - constructor.
    + apply IH. intros row Hrow. apply Hnum.
      apply elem_of_cons in Hrow as [->|Hrow]; [left|by do 2 right].
    + apply Forall_forall. intros row Hrow.
      rewrite sortInsert_Permutation in Hrow.
      apply elem_of_cons in Hrow as [->|Hrow].
      * unfold shown. rewrite Hx, Hzy. lia.
      * by apply (proj1 (Forall_forall _ _) Hy).
  - constructor; [by constructor|].
    apply Forall_cons. split.
    + unfold shown. rewrite Hx, Hzy. lia.
    + apply Forall_forall. intros row Hrow.
      pose proof (proj1 (Forall_forall _ _) Hy row Hrow) as Hle.
      unfold shown in *. rewrite Hx. rewrite Hzy in Hle. lia.
Qed.

Lemma sort_descending (rows : list MemberSpent) :
  (∀ row, row ∈ rows → ∃ z, memberSpent row = Some (Num z)) →
  StronglySorted (λ a b, shown b ≤ shown a)
                 (Dashboard.sort bySpentDescending rows).
Proof.
  induction rows as [|x rows IH]; intros Hnum; simpl; [constructor|].
  apply sortInsert_descending.
  - intros row Hrow. apply Hnum.
    apply elem_of_cons in Hrow as [->|Hrow]; [left|right].
    by rewrite <- (sort_Permutation bySpentDescending rows).
  - apply IH. intros row Hrow. apply Hnum. by right.
Qed.

Lemma StronglySorted_lookup_le {A} (R : A → A → Prop) (l : list A)
    (i j : nat) (a b : A) :
  StronglySorted R l → (i < j)%nat →
  l !! i = Some a → l !! j = Some b → R a b.
Proof.
  intros Hsorted. revert i j.
  induction Hsorted as [|x l Hl IH Hx]; intros i j Hij Hi Hj; [done|].
  destruct j as [|j]; [lia|]. simpl in Hj.
  destruct i as [|i]; simpl in Hi.
  - injection Hi as <-.
    apply (proj1 (Forall_forall _ _) Hx). by eapply list_elem_of_lookup_2.
  - apply (IH i j); [lia|done..].
Qed.

(** X11.  The members' spending is listed from the highest amount to the
    lowest: a row never shows less than a row listed after it, and every
    row shows a number. *)
Theorem spendingByMember_descending (members : list Member)
    (selected : list Expense) (i j : nat) (a b : MemberSpent) :
  (i < j)%nat →
  spendingByMember members selected !! i = Some a →
  spendingByMember members selected !! j = Some b →
  (∃ za zb, memberSpent a = Some (Num za) ∧ memberSpent b = Some (Num zb)
            ∧ zb ≤ za).
Proof.
  intros Hij Ha Hb.
  assert (shown b ≤ shown a) as Hle.
  { apply (StronglySorted_lookup_le (λ a b, shown b ≤ shown a)
             (spendingByMember members selected) i j); [|done..].
    unfold spendingByMember. apply sort_descending.
    intros row (m & -> & Hm)%list_elem_of_fmap. simpl.
    rewrite memberSpending_lookup.
    rewrite decide_True; [by eexists|].
    by apply list_elem_of_fmap_2. }
  apply list_elem_of_lookup_2, spendingByMember_rows in Ha as (ma & _ & ->).
  apply list_elem_of_lookup_2, spendingByMember_rows in Hb as (mb & _ & ->).
  do 2 eexists. split; [done|]. split; [done|]. exact Hle.
Qed.

(** Two members, one dinner: the larger share comes first. *)
Lemma spendingByMember_descending_witness :
  let household := [mkMember (js "mem-1") (js "Rohan") [];
                    mkMember (js "mem-2") (js "Priya") []] in
  let e := {| expId := js "exp-1"; description := js "Dinner";
              expAmount := 1000;
              date := mkDate (js "2024-03-10T00:00:00.000Z") 2024 2 10;
              payerId := js "mem-1"; categoryId := js "cat-3";
              splits := [mkSplit (js "mem-1") 300;
                         mkSplit (js "mem-2") 700] |} in
  ∃ a b za zb,
    spendingByMember household [e] !! 0%nat = Some a
    ∧ spendingByMember household [e] !! 1%nat = Some b
    ∧ memberSpent a = Some (Num za) ∧ memberSpent b = Some (Num zb)
    ∧ zb ≤ za.
Proof.
  intros household e.
  destruct (spendingByMember household [e] !! 0%nat) as [a|] eqn:Ha;
    [|by vm_compute in Ha].
  destruct (spendingByMember household [e] !! 1%nat) as [b|] eqn:Hb;
    [|by vm_compute in Hb].
  destruct (spendingByMember_descending household [e] 0 1 a b)
    as (za & zb & Hza & Hzb & Hle); [lia | exact Ha | exact Hb |].
  exists a, b, za, zb. done.
Defined.

Lemma sumZ_splits_complete (selected : list Expense) :
  (∀ e, e ∈ selected → sumOf amount (splits e) = expAmount e) →
  sumZ (amount <$> (selected ≫= splits)) = sumZ (expAmount <$> selected).
Proof.
  induction selected as [|e selected IH]; intros Hsum; [done|].
  rewrite bind_cons, fmap_app, sumZ_app, fmap_cons.
  rewrite IH by (intros e' He'; apply Hsum; by right).
  rewrite <- sumOf_sumZ, Hsum by left. done.
Qed.

(** X12.  The members' column adds up to the month's total: when no two
    members share an id and every expense of the month is split in full
    among members of the household, the total over the members equals
    the total spending of the month. *)
Theorem member_totals_reconcile (members : list Member)
    (expenses : list Expense) (nowMonth : Z) :
  NoDup (memId <$> members) →
  (∀ e, e ∈ expensesThisMonth expenses nowMonth →
     sumOf amount (splits e) = expAmount e
     ∧ ∀ s, s ∈ splits e → memberId s ∈ memId <$> members) →
  totalSpentByMembers
    (spendingByMember members (expensesThisMonth expenses nowMonth))
  = Num (totalExpensesThisMonth expenses nowMonth).
Proof.
  intros Hnodup Hfull.
  set (selected := expensesThisMonth expenses nowMonth) in *.
  unfold totalSpentByMembers. rewrite totalSpentByMembers_from.
  - rewrite spendingByMember_shown, owed_over_members by done.
    rewrite filter_all.
    + rewrite sumZ_splits_complete by (intros e He; by apply Hfull).
      unfold totalExpensesThisMonth. fold selected.
      by rewrite sumOf_sumZ, Z.add_0_l.
    + intros s (e & Hs & He)%list_elem_of_bind.
      by apply (Hfull e He).
  - intros row (m & _ & ->)%spendingByMember_rows. by eexists.
Qed.

Lemma member_totals_reconcile_witness :
  let household := [mkMember (js "mem-1") (js "Rohan") [];
                    mkMember (js "mem-2") (js "Priya") []] in
  let e := {| expId := js "exp-1"; description := js "Dinner";
              expAmount := 1000;
              date := mkDate (js "2024-03-10T00:00:00.000Z") 2024 2 10;
              payerId := js "mem-1"; categoryId := js "cat-3";
              splits := [mkSplit (js "mem-1") 300;
                         mkSplit (js "mem-2") 700] |} in
  totalSpentByMembers (spendingByMember household (expensesThisMonth [e] 2))
  = Num (totalExpensesThisMonth [e] 2).
Proof.
  intros household e.
  apply (member_totals_reconcile household [e] 2).
  - apply (bool_decide_unpack _). vm_compute. exact I.
  - intros e' He'.
    assert (e' = e) as ->.
    { apply list_elem_of_filter in He' as [_ He'].
      by apply list_elem_of_singleton in He'. }
    split; [reflexivity|].
    intros s Hs.
    repeat (apply elem_of_cons in Hs as [->|Hs];
            [apply (bool_decide_unpack _); vm_compute; exact I|]).
    by apply elem_of_nil in Hs.
Defined.

Lemma filter_ext_elem {A} (P Q : A → Prop) `{∀ x, Decision (P x)}
    `{∀ x, Decision (Q x)} (l : list A) :
  (∀ x, x ∈ l → P x ↔ Q x) → filter P l = filter Q l.
Proof.
  induction l as [|x l IH]; intros Hiff; [done|].
  rewrite !filter_cons.
  rewrite IH by (intros y Hy; apply Hiff; by right).
  destruct (decide (P x)) as [HP|HP], (decide (Q x)) as [HQ|HQ];
    try done; exfalso.
  - apply HQ, (Hiff x); [left | done].
  - apply HP, (Hiff x); [left | done].
Qed.

(** X13.  The budget check and the dashboard count the same spending
    when the dates are ordinary: if every expense of the category is
    dated in the current year up to the current month, or in an earlier
    year in another month, the amount the budget check takes as spent
    before the new expense is the amount the budgets overview shows for
    that budget. *)
Theorem budget_check_agrees_with_dashboard (household : Household)
    (newExpense : NewExpense) (env : Env) (budget : Budget) :
  budCategoryId budget = newCategoryId newExpense →
  (∀ e, e ∈ expenses household →
     categoryId e = newCategoryId newExpense →
     (fullYear (date e) = nowYear env ∧ month (date e) ≤ nowMonth env)
     ∨ (fullYear (date e) < nowYear env ∧ month (date e) ≠ nowMonth env)) →
  spentBefore household newExpense env
  = Dashboard.spent (expenses household) (nowMonth env) budget.
Proof.
  intros Hcat Hdates.
  unfold spentBefore, expensesForCategoryThisMonth, Dashboard.spent,
    expensesThisMonth.
  rewrite list_filter_filter. f_equal.
  apply filter_ext_elem. intros e He. rewrite Hcat.
  unfold sinceStartOfMonth. split.
  - intros [Hc Hsince]. split; [done|].
    destruct (Hdates e He Hc) as [[Hy Hm]|[Hy Hm]].
    + apply Is_true_true in Hsince.
      apply orb_true_iff in Hsince as [Hlt|Heq]; [lia|].
      apply andb_true_iff in Heq as [_ Hle]. lia.
    + apply Is_true_true in Hsince.
      apply orb_true_iff in Hsince as [Hlt|Heq]; [lia|].
      apply andb_true_iff in Heq as [Heq _]. lia.
  - intros [Hc Hm]. split; [done|].
    destruct (Hdates e He Hc) as [[Hy Hm']|[Hy Hm']]; [|done].
    apply Is_true_true, orb_true_iff. right.
    apply andb_true_iff. split; lia.
Qed.

(** Two expenses of March 2024 and one of February, seen in March. *)
Lemma budget_check_agrees_with_dashboard_witness :
  let e (k m : Z) (cat : jsstring) :=
    {| expId := js "exp"; description := js "Groceries"; expAmount := k;
       date := mkDate (js "2024-03-10T00:00:00.000Z") 2024 m 10;
       payerId := js "mem-1"; categoryId := cat; splits := [] |} in
  let household :=
    {| members := []; categories := []; rules := [];
       expenses := [e 500 2 (js "cat-1"); e 300 1 (js "cat-1");
                    e 200 2 (js "cat-2")];
       budgets := []; notifications := [] |} in
  let newExpense :=
    {| newDescription := js "Milk"; newAmount := 100;
       newCategoryId := js "cat-1"; newMemberId := js "mem-1";
       newDate := mkDate (js "2024-03-12T00:00:00.000Z") 2024 2 12;
       newSplits := [] |} in
  let env := {| nowYear := 2024; nowMonth := 2; nowIso := js "now";
                nowIsoAfterCheck := js "later";
                uuidExpense := js "u1"; uuidBudget := js "u2";
                uuidAnomaly := js "u3" |} in
  let budget := {| budId := js "bud-1"; budCategoryId := js "cat-1";
                   budAmount := 1000 |} in
  spentBefore household newExpense env = 500
  ∧ Dashboard.spent (expenses household) (nowMonth env) budget = 500.
Proof.
  intros e household newExpense env budget.
  split; [reflexivity|].
  rewrite <- (budget_check_agrees_with_dashboard household newExpense env budget).
  - reflexivity.
  - reflexivity.
  - intros x Hx _.
    repeat (apply elem_of_cons in Hx as [->|Hx]; [left; simpl; lia|]).
    by apply elem_of_nil in Hx.
Defined.

(** ** The trend chart and the month's total *)

Lemma aggregate_other_year (now : Now) (dc dp : Z)
    (temp : list double * list double)
    (e : Expense) :
  month (date e) = currentMonth now →
  fullYear (date e) ≠ currentYear now →
  aggregate now dc dp temp e = temp.
Proof.
  intros Hm Hy. unfold aggregate. destruct temp as [tc tp].
  repeat match goal with
         | |- context [?a =? ?b] => destruct (Z.eqb_spec a b)
         end; try lia; done.
Qed.

(** X14.  The month's total reads the month only, the trend chart reads
    the year too: an expense dated in the current month of another year
    adds its amount to the total spending of the month and leaves the
    trend chart as it is. *)
Theorem other_years_count_in_total_only (now : Now)
    (before after : list Expense) (e : Expense) :
  month (date e) = currentMonth now →
  fullYear (date e) ≠ currentYear now →
  totalExpensesThisMonth (before ++ e :: after) (currentMonth now)
  = expAmount e + totalExpensesThisMonth (before ++ after) (currentMonth now)
  ∧ prepareTrendData now (before ++ e :: after)
    = prepareTrendData now (before ++ after).
Proof.
  intros Hm Hy. split.
  - unfold totalExpensesThisMonth, expensesThisMonth.
    rewrite !filter_app, filter_cons, decide_True by done.
    rewrite !sumOf_app, sumOf_cons. lia.
  - assert (dailyTotals now (before ++ e :: after)
            = dailyTotals now (before ++ after)) as Hdaily.
    { unfold dailyTotals. rewrite !foldl_app. simpl.
      by rewrite aggregate_other_year. }
    unfold prepareTrendData. by rewrite Hdaily.
Qed.

(** March 2023 seen from March 2024. *)
Lemma other_years_count_in_total_only_witness :
  let now := {| currentYear := 2024; currentMonth := 2; today := 15 |} in
  let e := {| expId := js "exp-1"; description := js "Dinner";
              expAmount := 1000;
              date := mkDate (js "2023-03-10T00:00:00.000Z") 2023 2 10;
              payerId := js "mem-1"; categoryId := js "cat-3";
              splits := [mkSplit (js "mem-1") 1000] |} in
  totalExpensesThisMonth [e] 2 = 1000
  ∧ prepareTrendData now [e] = prepareTrendData now [].
Proof.
  intros now e.
  destruct (other_years_count_in_total_only now [] [] e) as [Htotal Htrend];
    [reflexivity | simpl; lia |].
  split; [exact Htotal | exact Htrend].
Defined.

Lemma take_addAt (arr arr' : list double) (i : Z) (v : double) (n : nat) :
  take n arr = take n arr' →
  take n (addAt arr i v) = take n (addAt arr' i v).
Proof.
  intros Htake. unfold addAt. destruct (i <? 0); [done|].
  destruct (decide (Z.to_nat i < n)%nat).
  - by rewrite !take_alter_lt, Htake by done.
  - by rewrite !take_alter_ge by lia.
Qed.

Lemma take_addAt_outside (arr : list double) (i : Z) (v : double) (n : nat) :
  i < 0 ∨ Z.of_nat n ≤ i → take n (addAt arr i v) = take n arr.
Proof.
  intros Hout. unfold addAt. destruct (Z.ltb_spec i 0); [done|].
  apply take_alter_ge. lia.
Qed.

(** The first [n] buckets of the current month after one expense: they
    are moved by an expense of the current month dated on one of the
    first [n] days, and by no other. *)
Lemma aggregate_take_current (now : Now) (dc dp : Z)
    (temp temp' : list double * list double) (e : Expense) (n : nat) :
  Z.of_nat n ≤ dc →
  take n temp.1 = take n temp'.1 →
  take n (aggregate now dc dp temp e).1
  = take n (if decide (fullYear (date e) = currentYear now
                       ∧ month (date e) = currentMonth now
                       ∧ 1 ≤ dayOfMonth (date e) ≤ Z.of_nat n)
            then aggregate now dc dp temp' e else temp').1.
Proof.
  intros Hn Htake. destruct temp as [tc tp], temp' as [tc' tp'].
  simpl in Htake. unfold aggregate.
  repeat match goal with
         | |- context [?a =? ?b] => destruct (Z.eqb_spec a b)
         | |- context [?a <? ?b] => destruct (Z.ltb_spec a b)
         end; case_decide; simpl; try done; try lia;
    first [ by apply take_addAt
          | rewrite take_addAt_outside by lia; done ].
Qed.

Lemma foldl_aggregate_take_current (now : Now) (dc dp : Z) (es : list Expense)
    (temp temp' : list double * list double) (n : nat) :
  Z.of_nat n ≤ dc →
  take n temp.1 = take n temp'.1 →
  take n (foldl (aggregate now dc dp) temp es).1
  = take n (foldl (aggregate now dc dp) temp'
              (filter (λ e, fullYear (date e) = currentYear now
                            ∧ month (date e) = currentMonth now
                            ∧ 1 ≤ dayOfMonth (date e) ≤ Z.of_nat n) es)).1.
Proof.
  intros Hn. revert temp temp'.
  induction es as [|e es IH]; intros temp temp' Htake; [done|].
  cbn [foldl]. rewrite filter_cons.
  pose proof (aggregate_take_current now dc dp temp temp' e n Hn Htake)
    as Hstep.
  case_decide; cbn [foldl]; by apply IH.
Qed.

Lemma foldl_add_zeros (k : nat) : foldl add zero (replicate k zero) = zero.
Proof. induction k as [|k IH]; [done|]. simpl. exact IH. Qed.

Lemma addAt_lookup (arr : list double) (i : Z) (v : double) (k : nat) :
  addAt arr i v !! k
  = (λ x, if decide (i = Z.of_nat k) then add x v else x) <$> arr !! k.
Proof.
  unfold addAt. destruct (Z.ltb_spec i 0).
  - destruct (decide (i = Z.of_nat k)); [lia|]. by destruct (arr !! k).
  - rewrite list_lookup_alter.
    destruct (decide (i = Z.of_nat k)) as [->|].
    + by rewrite Nat2Z.id, decide_True.
    + rewrite decide_False by lia. by destruct (arr !! k).
Qed.

(** The bucket of a day of the current month after one expense. *)
Lemma aggregate_lookup_current (now : Now) (dc dp : Z)
    (temp : list double * list double) (e : Expense) (k : nat) :
  Z.of_nat k < dc →
  (aggregate now dc dp temp e).1 !! k
  = (λ x, if decide (inCurrentMonth now e
                     ∧ dayOfMonth (date e) = Z.of_nat k + 1)
          then add x (quotient (expAmount e) 100) else x)
    <$> temp.1 !! k.
Proof.
  intros Hk. destruct temp as [tc tp]. unfold aggregate, inCurrentMonth.
  repeat match goal with
         | |- context [?a =? ?b] => destruct (Z.eqb_spec a b)
         | |- context [?a <? ?b] => destruct (Z.ltb_spec a b)
         end; simpl; rewrite ?addAt_lookup;
    destruct (tc !! k); simpl; try done;
    repeat case_decide; try done; try lia; exfalso; intuition lia.
Qed.

Lemma aggregate_lookup_previous (now : Now) (dc dp : Z)
    (temp : list double * list double) (e : Expense) (k : nat) :
  Z.of_nat k < dp →
  Z.of_nat k < dc →
  (aggregate now dc dp temp e).2 !! k
  = (λ x, if decide (inPreviousMonth now e
                     ∧ dayOfMonth (date e) = Z.of_nat k + 1)
          then add x (quotient (expAmount e) 100) else x)
    <$> temp.2 !! k.
Proof.
  intros Hk Hk'. destruct temp as [tc tp]. unfold aggregate, inPreviousMonth.
  repeat match goal with
         | |- context [?a =? ?b] => destruct (Z.eqb_spec a b)
         | |- context [?a <? ?b] => destruct (Z.ltb_spec a b)
         end; simpl; rewrite ?addAt_lookup;
    destruct (tp !! k); simpl; try done;
    repeat case_decide; try done; try lia; exfalso; intuition lia.
Qed.

Lemma foldl_aggregate_lookup_current (now : Now) (dc dp : Z)
    (es : list Expense) (temp : list double * list double) (k : nat) :
  Z.of_nat k < dc →
  (foldl (aggregate now dc dp) temp es).1 !! k
  = (λ x, foldl (λ acc e, add acc (quotient (expAmount e) 100)) x
            (filter (λ e, inCurrentMonth now e
                          ∧ dayOfMonth (date e) = Z.of_nat k + 1) es))
    <$> temp.1 !! k.
Proof.
  intros Hk. revert temp. induction es as [|e es IH]; intros temp.
  { simpl. by destruct (temp.1 !! k). }
  cbn [foldl]. rewrite IH, aggregate_lookup_current by done.
  rewrite filter_cons. destruct (temp.1 !! k); [simpl|done].
  repeat case_decide; first [done | exfalso; tauto].
Qed.

Lemma foldl_aggregate_lookup_previous (now : Now) (dc dp : Z)
    (es : list Expense) (temp : list double * list double) (k : nat) :
  Z.of_nat k < dp →
  Z.of_nat k < dc →
  (foldl (aggregate now dc dp) temp es).2 !! k
  = (λ x, foldl (λ acc e, add acc (quotient (expAmount e) 100)) x
            (filter (λ e, inPreviousMonth now e
                          ∧ dayOfMonth (date e) = Z.of_nat k + 1) es))
    <$> temp.2 !! k.
Proof.
  intros Hk Hk'. revert temp. induction es as [|e es IH]; intros temp.
  { simpl. by destruct (temp.2 !! k). }
  cbn [foldl]. rewrite IH, aggregate_lookup_previous by done.
  rewrite filter_cons. destruct (temp.2 !! k); [simpl|done].
  repeat case_decide; first [done | exfalso; tauto].
Qed.

(** The buckets of the first days of the current month: what the
    expenses of each day add up to. *)
Lemma dailyTotals_current (now : Now) (expenses : list Expense) (n : nat) :
  Z.of_nat n ≤ daysInCurrentMonthOf (currentYear now) (currentMonth now) →
  take n (dailyTotals now expenses).1
  = (λ d : nat,
       addedUp (filter (λ e, inCurrentMonth now e
                             ∧ dayOfMonth (date e) = Z.of_nat d) expenses))
    <$> seq 1 n.
Proof.
  intros Hn. apply list_eq. intros k.
  destruct (decide (k < n)%nat) as [Hk|Hk].
  - rewrite lookup_take_lt by done. unfold dailyTotals.
    rewrite foldl_aggregate_lookup_current by lia. simpl.
    unfold filled. rewrite lookup_replicate_2 by lia. simpl.
    rewrite list_lookup_fmap, lookup_seq_lt by done. simpl.
    unfold addedUp. do 3 f_equal.
    apply filter_ext_elem. intros e _.
    replace (Z.of_nat (S k)) with (Z.of_nat k + 1) by lia. done.
  - rewrite lookup_take_ge by lia.
    rewrite list_lookup_fmap, lookup_seq_ge by lia. done.
Qed.

Lemma dailyTotals_previous (now : Now) (expenses : list Expense) (n : nat) :
  Z.of_nat n ≤ daysInPreviousMonthOf (currentYear now) (currentMonth now) →
  Z.of_nat n ≤ daysInCurrentMonthOf (currentYear now) (currentMonth now) →
  take n (dailyTotals now expenses).2
  = (λ d : nat,
       addedUp (filter (λ e, inPreviousMonth now e
                             ∧ dayOfMonth (date e) = Z.of_nat d) expenses))
    <$> seq 1 n.
Proof.
  intros Hn Hn'. apply list_eq. intros k.
  destruct (decide (k < n)%nat) as [Hk|Hk].
  - rewrite lookup_take_lt by done. unfold dailyTotals.
    rewrite foldl_aggregate_lookup_previous by lia. simpl.
    unfold filled. rewrite lookup_replicate_2 by lia. simpl.
    rewrite list_lookup_fmap, lookup_seq_lt by done. simpl.
    unfold addedUp. do 3 f_equal.
    apply filter_ext_elem. intros e _.
    replace (Z.of_nat (S k)) with (Z.of_nat k + 1) by lia. done.
  - rewrite lookup_take_ge by lia.
    rewrite list_lookup_fmap, lookup_seq_ge by lia. done.
Qed.

(** X15.  What the current month's line shows.  For a day of the month
    up to today the entry is a number: the amounts of the expenses dated
    in the current month of the current year, divided by 100, added up
    day by day in the order of the list, and the days added up from the
    first to that day, all in the host's arithmetic.  It depends on no
    other expense: the chart shows the same value for those expenses
    alone, and zero when there is none. *)
Theorem currentMonthData_meaning (now : Now) (expenses : list Expense)
    (day : Z) :
  1 ≤ day ≤ today now →
  day ≤ daysInCurrentMonthOf (currentYear now) (currentMonth now) →
  let spentOn (d : nat) :=
    addedUp (filter (λ e, inCurrentMonth now e
                          ∧ dayOfMonth (date e) = Z.of_nat d) expenses) in
  let counted :=
    filter (λ e, inCurrentMonth now e ∧ 1 ≤ dayOfMonth (date e) ≤ day)
           expenses in
  currentMonthData (prepareTrendData now expenses) !! Z.to_nat (day - 1)
  = Some (Some (foldl add zero (spentOn <$> seq 1 (Z.to_nat day))))
  ∧ currentMonthData (prepareTrendData now expenses) !! Z.to_nat (day - 1)
    = currentMonthData (prepareTrendData now counted) !! Z.to_nat (day - 1)
  ∧ (counted = [] →
     currentMonthData (prepareTrendData now expenses) !! Z.to_nat (day - 1)
     = Some (Some zero)).
Proof.
  intros Hday Hmonth spentOn counted.
  set (days := daysInCurrentMonthOf (currentYear now) (currentMonth now)) in *.
  assert (∀ es,
            currentMonthData (prepareTrendData now es) !! Z.to_nat (day - 1)
            = Some (Some (foldl add zero
                            (take (Z.to_nat day) (dailyTotals now es).1))))
    as Hentry.
  { intros es. rewrite prepareTrendData_unfold. simpl. fold days.
    destruct (dailyTotals_lengths now es) as [Hlen _]. fold days in Hlen.
    rewrite fillNulls_lookup, reduceCurrent_lookup
      by (rewrite ?length_fmap, ?filled_length; lia).
    simpl.
    rewrite (proj2 (Z.leb_gt _ _)) by lia. simpl.
    rewrite (proj2 (Z.ltb_lt _ _)) by lia.
    by replace (S (Z.to_nat (day - 1) - 0)) with (Z.to_nat day) by lia. }
  assert (take (Z.to_nat day) (dailyTotals now expenses).1
          = take (Z.to_nat day) (dailyTotals now counted).1) as Htake.
  { unfold dailyTotals. fold days. subst counted.
    rewrite (foldl_aggregate_take_current now days _ expenses
               (filled days, filled _) (filled days, filled _)
               (Z.to_nat day)) by (done || lia).
    do 3 f_equal. apply filter_ext_elem. intros e _.
    unfold inCurrentMonth. rewrite Z2Nat.id by lia. tauto. }
  split; [|split].
  - rewrite Hentry, dailyTotals_current by (fold days; lia). done.
  - by rewrite !Hentry, Htake.
  - rewrite Hentry, Htake. intros ->. unfold dailyTotals. simpl.
    unfold filled. rewrite take_replicate. by rewrite foldl_add_zeros.
Qed.

(** The fifteenth of March 2024, after expenses of 5.00 on the 3rd, of
    3.00 on the 10th and of 2.00 on the 20th, and one in February: the
    entry of the 12th is 8, the one the first two expenses give. *)
Lemma currentMonthData_meaning_witness :
  let now := {| currentYear := 2024; currentMonth := 2; today := 15 |} in
  let e (iso : jsstring) (k m d : Z) :=
    {| expId := js "exp"; description := js "Groceries"; expAmount := k;
       date := mkDate iso 2024 m d;
       payerId := js "mem-1"; categoryId := js "cat-1"; splits := [] |} in
  let third := e (js "2024-03-03T00:00:00.000Z") 500 2 3 in
  let tenth := e (js "2024-03-10T00:00:00.000Z") 300 2 10 in
  let twentieth := e (js "2024-03-20T00:00:00.000Z") 200 2 20 in
  let february := e (js "2024-02-05T00:00:00.000Z") 900 1 5 in
  let expenses := [third; tenth; twentieth; february] in
  currentMonthData (prepareTrendData now expenses) !! 11%nat
  = Some (Some (ofInteger 8))
  ∧ currentMonthData (prepareTrendData now expenses) !! 11%nat
    = currentMonthData (prepareTrendData now [third; tenth]) !! 11%nat.
Proof.
  intros now e third tenth twentieth february expenses.
  destruct (currentMonthData_meaning now expenses 12
              ltac:(simpl; lia) ltac:(vm_compute; discriminate))
    as (Hvalue & Hsame & _).
  split; [|exact Hsame].
  change (Z.to_nat (12 - 1)) with 11%nat in Hvalue.
  rewrite Hvalue. vm_compute. reflexivity.
Defined.

(** The host's sum in the bucket of a day: ten and twenty cents make
    0.30000000000000004. *)
Example currentMonthData_float :
  let now := {| currentYear := 2024; currentMonth := 2; today := 15 |} in
  let e (k : Z) :=
    {| expId := js "exp"; description := js "Sweets"; expAmount := k;
       date := mkDate (js "2024-03-10T00:00:00.000Z") 2024 2 10;
       payerId := js "mem-1"; categoryId := js "cat-1"; splits := [] |} in
  currentMonthData (prepareTrendData now [e 10; e 20]) !! 9%nat
  = Some (Some (mkDouble 1351079888211149 (-52)))
  ∧ quotient 30 100 = mkDouble 5404319552844595 (-54).
Proof. split; vm_compute; reflexivity. Qed.

(** ** The exported file: cells that cannot be confused *)

(** X16.  The amounts of the exported file, below 2^52 cents: two
    different amounts are never written alike, the text read back gives
    the amount, and it holds no comma, quote or line break, so that it
    stands in its row as [formatCSVCell] would have left it.  (From
    about 2^52 cents on the host writes neighbouring amounts alike.) *)
Theorem exported_amounts_are_plain (a b : Z) :
  Z.abs a < 2 ^ 52 → Z.abs b < 2 ^ 52 →
  (toFixed2 a = toFixed2 b ↔ a = b)
  ∧ readAmount (toFixed2 a) = Some a
  ∧ ¬ needsQuoting (toFixed2 a)
  ∧ formatCSVCell (toFixed2 a) = toFixed2 a.
Proof.
  intros Ha Hb.
  split; [|split; [by apply readAmount_toFixed2|split]].
  - split; [|by intros ->].
    intros Heq. apply (f_equal readAmount) in Heq.
    rewrite !readAmount_toFixed2 in Heq by done. by injection Heq.
  - apply toFixed2_plain.
  - apply formatCSVCell_spec, toFixed2_plain.
Qed.

(** 10.00 and 10.01. *)
Lemma exported_amounts_are_plain_witness :
  (toFixed2 1000 = toFixed2 1001 ↔ 1000 = 1001)
  ∧ readAmount (toFixed2 1000) = Some 1000
  ∧ ¬ needsQuoting (toFixed2 1000)
  ∧ formatCSVCell (toFixed2 1000) = toFixed2 1000.
Proof.
  apply (exported_amounts_are_plain 1000 1001); reflexivity.
Defined.

Lemma doubleQuotes_inj (s t : jsstring) :
  doubleQuotes s = doubleQuotes t → s = t.
Proof.
  revert t. induction s as [|c s IH]; intros [|d t]; try done.
  - rewrite doubleQuotes_cons. by case_bool_decide.
  - rewrite doubleQuotes_cons. by case_bool_decide.
  - rewrite !doubleQuotes_cons.
    do 2 case_bool_decide; simpl; intros Heq; simplify_eq;
      try done; f_equal; by apply IH.
Qed.

(** X17.  [formatCSVCell] never writes two different texts alike: a
    reader who knows the convention finds the text again, whether the
    cell was quoted or not. *)
Theorem formatCSVCell_inj (s t : jsstring) :
  formatCSVCell s = formatCSVCell t ↔ s = t.
Proof.
  split; [|by intros ->].
  destruct (formatCSVCell_spec s) as [Hqs Hps],
           (formatCSVCell_spec t) as [Hqt Hpt].
  destruct (decide (needsQuoting s)) as [Hs|Hs],
           (decide (needsQuoting t)) as [Ht|Ht].
  - rewrite Hqs, Hqt by done. intros Heq.
    apply app_inv_head, app_inv_tail in Heq. by apply doubleQuotes_inj.
  - rewrite Hqs, Hpt by done. intros Heq. exfalso. apply Ht.
    right. left. rewrite <- Heq. left.
  - rewrite Hps, Hqt by done. intros Heq. exfalso. apply Hs.
    right. left. rewrite Heq. left.
  - by rewrite Hps, Hpt.
Qed.

(** ** Relative times *)

Import Time.

(** X18.  The text [timeAgo] gives for a date that is not in the future
    is a whole number followed by a unit, and the number stays within
    the unit: at most 60 seconds, 1 to 60 minutes, 1 to 24 hours, 1 to
    30 days, 1 to 12 months, or at least 1 year.  A unit is left only
    when it is exceeded, so that a full hour reads as 60 minutes. *)
Theorem timeAgo_ranges (nowMs dateMs : Z) :
  dateMs ≤ nowMs →
  ∃ n unit,
    timeAgo nowMs dateMs = numberText n ++ unit
    ∧ ((unit = js "s ago" ∧ 0 ≤ n ≤ 60)
       ∨ (unit = js "m ago" ∧ 1 ≤ n ≤ 60)
       ∨ (unit = js "h ago" ∧ 1 ≤ n ≤ 24)
       ∨ (unit = js "d ago" ∧ 1 ≤ n ≤ 30)
       ∨ (unit = js "mo ago" ∧ 1 ≤ n ≤ 12)
       ∨ (unit = js "y ago" ∧ 1 ≤ n)).
Proof.
  intros Hpast. unfold timeAgo. cbv zeta.
  set (seconds := (nowMs - dateMs) / 1000).
  assert (0 ≤ seconds) as Hseconds
    by (subst seconds; apply Z.div_pos; lia).
  repeat match goal with
         | |- context [?a <? ?b] => destruct (Z.ltb_spec a b)
         end;
    eexists _, _; (split; [reflexivity|]).
  - do 5 right. split; [done|].
    apply Z.div_le_lower_bound; lia.
  - do 4 right. left. split; [done|]. split.
    + apply Z.div_le_lower_bound; lia.
    + apply Z.lt_succ_r, Z.div_lt_upper_bound; lia.
  - do 3 right. left. split; [done|]. split.
    + apply Z.div_le_lower_bound; lia.
    + apply Z.lt_succ_r, Z.div_lt_upper_bound; lia.
  - do 2 right. left. split; [done|]. split.
    + apply Z.div_le_lower_bound; lia.
    + apply Z.lt_succ_r, Z.div_lt_upper_bound; lia.
  - right. left. split; [done|]. split.
    + apply Z.div_le_lower_bound; lia.
    + apply Z.lt_succ_r, Z.div_lt_upper_bound; lia.
  - left. split; [done|]. lia.
Qed.

(** One hour exactly. *)
Lemma timeAgo_ranges_witness :
  ∃ n unit,
    timeAgo 1710000000000 1709996400000 = numberText n ++ unit
    ∧ ((unit = js "s ago" ∧ 0 ≤ n ≤ 60)
       ∨ (unit = js "m ago" ∧ 1 ≤ n ≤ 60)
       ∨ (unit = js "h ago" ∧ 1 ≤ n ≤ 24)
       ∨ (unit = js "d ago" ∧ 1 ≤ n ≤ 30)
       ∨ (unit = js "mo ago" ∧ 1 ≤ n ≤ 12)
       ∨ (unit = js "y ago" ∧ 1 ≤ n)).
Proof.
  apply (timeAgo_ranges 1710000000000 1709996400000). lia.
Defined.

Example timeAgo_full_hour :
  timeAgo 1710000000000 1709996400000 = js "60m ago".
Proof. reflexivity. Qed.

(** ** Budgets and rules in the settings *)

Import Settings.

Lemma find_budget_Some (budgets : list Budget) (c : jsstring) (b : Budget) :
  List.find (λ b, bool_decide (budCategoryId b = c)) budgets = Some b →
  b ∈ budgets ∧ budCategoryId b = c.
Proof.
  intros Hfind. apply find_some in Hfind as [Hin Hcat].
  split; [by apply list_elem_of_In | by apply bool_decide_eq_true in Hcat].
Qed.

Lemma find_budget_None (budgets : list Budget) (c : jsstring) :
  List.find (λ b, bool_decide (budCategoryId b = c)) budgets = None ↔
  c ∉ budCategoryId <$> budgets.
Proof.
  induction budgets as [|b budgets IH]; simpl.
  - split; [intros _; apply not_elem_of_nil | done].
  - rewrite not_elem_of_cons. case_bool_decide as Hc.
    + split; [done | intros [Hne _]; congruence].
    + rewrite IH. split; [intros ?; split; [congruence | done] | by intros [_ ?]].
Qed.

Lemma find_budget_fmap_other (budgets : list Budget) (c c' : jsstring)
    (amountInCents : Z) :
  c' ≠ c →
  List.find (λ b, bool_decide (budCategoryId b = c'))
    ((λ b, if bool_decide (budCategoryId b = c)
           then {| budId := budId b; budCategoryId := budCategoryId b;
                   budAmount := amountInCents |}
           else b) <$> budgets)
  = List.find (λ b, bool_decide (budCategoryId b = c')) budgets.
Proof.
  intros Hne. induction budgets as [|b budgets IH]; [done|].
  rewrite fmap_cons. cbn [List.find].
  destruct (decide (budCategoryId b = c)) as [Hc|Hc].
  - rewrite (bool_decide_eq_true_2 (budCategoryId b = c)) by done. simpl.
    rewrite !bool_decide_eq_false_2 by congruence. apply IH.
  - rewrite (bool_decide_eq_false_2 (budCategoryId b = c)) by done.
    by rewrite IH.
Qed.

Lemma find_budget_fmap_same (budgets : list Budget) (c : jsstring)
    (amountInCents : Z) (b : Budget) :
  List.find (λ b, bool_decide (budCategoryId b = c)) budgets = Some b →
  List.find (λ b, bool_decide (budCategoryId b = c))
    ((λ b, if bool_decide (budCategoryId b = c)
           then {| budId := budId b; budCategoryId := budCategoryId b;
                   budAmount := amountInCents |}
           else b) <$> budgets)
  = Some {| budId := budId b; budCategoryId := c;
            budAmount := amountInCents |}.
Proof.
  induction budgets as [|x budgets IH]; [done|].
  rewrite fmap_cons. cbn [List.find].
  destruct (decide (budCategoryId x = c)) as [Hc|Hc].
  - rewrite !(bool_decide_eq_true_2 (budCategoryId x = c)) by done. simpl.
    rewrite ?bool_decide_eq_true_2 by done. intros [= <-]. by rewrite Hc.
  - rewrite !(bool_decide_eq_false_2 (budCategoryId x = c)) by done.
    apply IH.
Qed.

Lemma find_app_None {A} (p : A → bool) (l l' : list A) :
  List.find p l = None → List.find p (l ++ l') = List.find p l'.
Proof.
  induction l as [|x l IH]; [done|]. simpl.
  destruct (p x); [done | apply IH].
Qed.

Lemma find_app_Some {A} (p : A → bool) (l l' : list A) (x : A) :
  List.find p l = Some x → List.find p (l ++ l') = Some x.
Proof.
  induction l as [|y l IH]; [done|]. simpl.
  destruct (p y); [done | apply IH].
Qed.

Lemma handleBudgetChange_find (budgets : list Budget)
    (categoryId : jsstring) (amountInCents : Z) :
  ∃ id,
    List.find (λ b, bool_decide (budCategoryId b = categoryId))
      (handleBudgetChange budgets categoryId amountInCents)
    = Some {| budId := id; budCategoryId := categoryId;
              budAmount := amountInCents |}
    ∧ (id = js "bud-" ++ categoryId
       ∨ ∃ old,
           List.find (λ b, bool_decide (budCategoryId b = categoryId)) budgets
           = Some old ∧ id = budId old).
Proof.
  unfold handleBudgetChange.
  destruct (List.find _ budgets) as [existing|] eqn:Hfind.
  - exists (budId existing). split.
    + by apply find_budget_fmap_same.
    + right. by exists existing.
  - exists (js "bud-" ++ categoryId). split; [|by left].
    rewrite find_app_None by done. simpl.
    by rewrite bool_decide_eq_true_2.
Qed.

(** X19.  After [handleBudgetChange] the budget in force for the
    category, the one [find] returns, carries the new amount, under the
    id it had or under a new one; the budget in force for any other
    category is the same as before; the categories that had a budget
    keep their place in the list; and when no two budgets shared a
    category before, none do after. *)
Theorem handleBudgetChange_sets_budget (budgets : list Budget)
    (categoryId : jsstring) (amountInCents : Z) :
  let newBudgets := handleBudgetChange budgets categoryId amountInCents in
  let inForce (c : jsstring) (bs : list Budget) :=
    List.find (λ b, bool_decide (budCategoryId b = c)) bs in
  (∃ id, inForce categoryId newBudgets
         = Some {| budId := id; budCategoryId := categoryId;
                   budAmount := amountInCents |}
         ∧ (id = js "bud-" ++ categoryId
            ∨ ∃ old, inForce categoryId budgets = Some old ∧ id = budId old))
  ∧ (∀ other, other ≠ categoryId →
       inForce other newBudgets = inForce other budgets)
  ∧ (budCategoryId <$> newBudgets = budCategoryId <$> budgets
     ∨ budCategoryId <$> newBudgets
       = (budCategoryId <$> budgets) ++ [categoryId])
  ∧ (NoDup (budCategoryId <$> budgets) →
     NoDup (budCategoryId <$> newBudgets)).
Proof.
  intros newBudgets inForce. subst newBudgets inForce.
  split; [apply handleBudgetChange_find|].
  unfold handleBudgetChange.
  destruct (List.find _ budgets) as [existing|] eqn:Hfind.
  - assert (budCategoryId <$>
              ((λ b, if bool_decide (budCategoryId b = categoryId)
                     then {| budId := budId b;
                             budCategoryId := budCategoryId b;
                             budAmount := amountInCents |}
                     else b) <$> budgets)
            = budCategoryId <$> budgets) as Hcats.
    { rewrite <- list_fmap_compose. apply list_fmap_ext.
      intros i b _. simpl. by case_bool_decide. }
    split; [|split].
    + intros other Hother. by apply find_budget_fmap_other.
    + by left.
    + by rewrite Hcats.
  - split; [|split].
    + intros other Hother.
      destruct (List.find (λ b, bool_decide (budCategoryId b = other)) budgets)
        as [b|] eqn:Hb.
      * by apply find_app_Some.
      * rewrite find_app_None by done. simpl.
        by rewrite bool_decide_eq_false_2.
    + right. by rewrite fmap_app.
    + intros Hnodup. rewrite fmap_app. simpl.
      apply NoDup_app. split; [done|]. split.
      * intros c Hc ->%list_elem_of_singleton.
        by apply find_budget_None in Hfind.
      * apply NoDup_singleton.
Qed.

(** X20.  A budget set to zero or less switches the budget check off
    for its category: whatever is spent, an expense of that category
    raises no budget notification. *)
Theorem zero_budget_silences_check (formatCurrencyForNotif : Z → jsstring)
    (household : Household) (newExpense : NewExpense) (env : Env)
    (amountInCents : Z) :
  amountInCents ≤ 0 →
  budgetAlertCheck formatCurrencyForNotif
    (withBudgets household
       (handleBudgetChange (budgets household) (newCategoryId newExpense)
          amountInCents))
    newExpense env
  = [].
Proof.
  intros Hzero.
  destruct (handleBudgetChange_find (budgets household)
              (newCategoryId newExpense) amountInCents) as (id & Hfind & _).
  unfold budgetAlertCheck. cbn [budgets withBudgets].
  rewrite Hfind. cbn [budAmount].
  by rewrite (proj2 (Z.ltb_ge _ _)).
Qed.

(** A budget of 500.00 for groceries, nearly used up, then set to zero. *)
Lemma zero_budget_silences_check_witness :
  let e := {| expId := js "exp-1"; description := js "Groceries";
              expAmount := 49000;
              date := mkDate (js "2024-03-10T00:00:00.000Z") 2024 2 10;
              payerId := js "mem-1"; categoryId := js "cat-1";
              splits := [] |} in
  let household :=
    {| members := []; categories := []; rules := []; expenses := [e];
       budgets := [mkBudget (js "bud-1") (js "cat-1") 50000];
       notifications := [] |} in
  let newExpense :=
    {| newDescription := js "Milk"; newAmount := 5000;
       newCategoryId := js "cat-1"; newMemberId := js "mem-1";
       newDate := mkDate (js "2024-03-12T00:00:00.000Z") 2024 2 12;
       newSplits := [] |} in
  let env := {| nowYear := 2024; nowMonth := 2; nowIso := js "now";
                nowIsoAfterCheck := js "later";
                uuidExpense := js "u1"; uuidBudget := js "u2";
                uuidAnomaly := js "u3" |} in
  length (budgetAlertCheck toFixed2 household newExpense env) = 1%nat
  ∧ budgetAlertCheck toFixed2
      (withBudgets household
         (handleBudgetChange (budgets household) (js "cat-1") 0))
      newExpense env
    = [].
Proof.
  intros e household newExpense env.
  split; [reflexivity|].
  apply (zero_budget_silences_check toFixed2 household newExpense env 0).
  lia.
Defined.

Lemma firstMatch_app (toLowerCase : jsstring → jsstring)
    (lowercasedDescription : jsstring) (rules more : list Rule) :
  firstMatch toLowerCase lowercasedDescription (rules ++ more)
  = match firstMatch toLowerCase lowercasedDescription rules with
    | Some c => Some c
    | None => firstMatch toLowerCase lowercasedDescription more
    end.
Proof.
  induction rules as [|r rules IH]; [done|]. simpl.
  destruct (includes _ _); [done | apply IH].
Qed.

(** X21.  A rule added in the settings goes to the end of the list, with
    its keyword trimmed and lower-cased, and never overrides an older
    rule: the category suggested for a description is the one the older
    rules suggest, and the new rule is consulted only when none of them
    matches.  A blank keyword or an empty category adds nothing. *)
Theorem handleAddRule_applies_last (toLowerCase : jsstring → jsstring)
    (rules : list Rule) (uuid newRuleKeyword newRuleCategoryId : jsstring) :
  (trim newRuleKeyword = [] ∨ newRuleCategoryId = [] →
   handleAddRule toLowerCase rules uuid newRuleKeyword newRuleCategoryId
   = None)
  ∧ (trim newRuleKeyword ≠ [] → newRuleCategoryId ≠ [] →
     let newRule := {| ruleId := js "rule-" ++ uuid;
                       keyword := toLowerCase (trim newRuleKeyword);
                       ruleCategoryId := newRuleCategoryId |} in
     handleAddRule toLowerCase rules uuid newRuleKeyword newRuleCategoryId
     = Some (rules ++ [newRule])
     ∧ ∀ description categories,
         suggestCategory toLowerCase description (rules ++ [newRule]) categories
         = match suggestCategory toLowerCase description rules categories with
           | Some c => Some c
           | None => if ruleMatches toLowerCase description newRule
                     then Some newRuleCategoryId else None
           end).
Proof.
  unfold handleAddRule, falsy. split.
  - intros [Hk|Hc].
    + by rewrite (bool_decide_eq_true_2 _ Hk).
    + by rewrite (bool_decide_eq_true_2 _ Hc), orb_true_r.
  - intros Hk Hc.
    rewrite (bool_decide_eq_false_2 _ Hk), (bool_decide_eq_false_2 _ Hc).
    split; [done|].
    intros description categories. unfold suggestCategory, ruleMatches.
    rewrite firstMatch_app. done.
Qed.

(** ** Rules and budgets in the store *)

Lemma insertRule_fresh (r : Rule) (acc : list Rule) (bs : list Budget) :
  ruleId r ∉ ruleId <$> acc →
  DbUpdate.insertRule r (DbUpdate.mkTables acc bs)
  = Ok (DbUpdate.mkTables (acc ++ [r]) bs).
Proof.
  intros Hnew. unfold DbUpdate.insertRule. simpl.
  by rewrite bool_decide_eq_false_2.
Qed.

Lemma insertRule_taken (r : Rule) (acc : list Rule) (bs : list Budget) :
  ruleId r ∈ ruleId <$> acc →
  ∃ reason, DbUpdate.insertRule r (DbUpdate.mkTables acc bs) = Throw reason.
Proof.
  intros Hin. unfold DbUpdate.insertRule. simpl.
  rewrite bool_decide_eq_true_2 by done. by eexists.
Qed.

Lemma insertBudget_fresh (b : Budget) (acc : list Budget) (rs : list Rule) :
  budId b ∉ budId <$> acc → budCategoryId b ∉ budCategoryId <$> acc →
  DbUpdate.insertBudget b (DbUpdate.mkTables rs acc)
  = Ok (DbUpdate.mkTables rs (acc ++ [b])).
Proof.
  intros Hid Hcat. unfold DbUpdate.insertBudget. simpl.
  by rewrite !bool_decide_eq_false_2.
Qed.

Lemma insertBudget_taken (b : Budget) (acc : list Budget) (rs : list Rule) :
  budId b ∈ budId <$> acc ∨ budCategoryId b ∈ budCategoryId <$> acc →
  ∃ reason, DbUpdate.insertBudget b (DbUpdate.mkTables rs acc) = Throw reason.
Proof.
  intros Hin. unfold DbUpdate.insertBudget. simpl.
  destruct (decide (budId b ∈ budId <$> acc)) as [Hid|Hid].
  - rewrite bool_decide_eq_true_2 by done. by eexists.
  - rewrite bool_decide_eq_false_2 by done.
    destruct Hin as [?|Hcat]; [done|].
    rewrite bool_decide_eq_true_2 by done. by eexists.
Qed.

Lemma NoDup_snoc_fresh {A} (f : A → jsstring) (acc rest : list A) (x : A) :
  NoDup (f <$> (acc ++ [x]) ++ rest) → f x ∉ f <$> acc.
Proof.
  intros Hnodup Hin. rewrite !fmap_app in Hnodup.
  apply NoDup_app in Hnodup as [Hnodup _].
  apply NoDup_app in Hnodup as (_ & Hdisj & _).
  apply (Hdisj _ Hin). simpl. left.
Qed.

Lemma NoDup_snoc_grow {A} (f : A → jsstring) (acc : list A) (x : A) :
  NoDup (f <$> acc) → f x ∉ f <$> acc → NoDup (f <$> acc ++ [x]).
Proof.
  intros Hnodup Hnew. rewrite fmap_app. apply NoDup_app.
  split; [done|]. split.
  - intros y Hy ->%list_elem_of_singleton. done.
  - apply NoDup_singleton.
Qed.

Lemma forEachM_insertRule (rs acc : list Rule) (bs : list Budget) :
  NoDup (ruleId <$> acc) →
  (NoDup (ruleId <$> acc ++ rs) →
   DbUpdate.forEachM DbUpdate.insertRule rs (DbUpdate.mkTables acc bs)
   = Ok (DbUpdate.mkTables (acc ++ rs) bs))
  ∧ (¬ NoDup (ruleId <$> acc ++ rs) →
     ∃ reason,
       DbUpdate.forEachM DbUpdate.insertRule rs (DbUpdate.mkTables acc bs)
       = Throw reason).
Proof.
  revert acc. induction rs as [|r rs IH]; intros acc Hacc.
  { rewrite app_nil_r. split; [done|]. by intros []. }
  cbn [DbUpdate.forEachM].
  replace (acc ++ r :: rs) with ((acc ++ [r]) ++ rs)
    by (by rewrite <- app_assoc).
  destruct (decide (ruleId r ∈ ruleId <$> acc)) as [Hr|Hr].
  - destruct (insertRule_taken r acc bs Hr) as [reason ->].
    split; [|by eexists]. intros Hnodup.
    by apply NoDup_snoc_fresh in Hnodup.
  - rewrite insertRule_fresh by done.
    apply IH. by apply NoDup_snoc_grow.
Qed.

Lemma forEachM_insertBudget (bs acc : list Budget) (rs : list Rule) :
  NoDup (budId <$> acc) → NoDup (budCategoryId <$> acc) →
  (NoDup (budId <$> acc ++ bs) ∧ NoDup (budCategoryId <$> acc ++ bs) →
   DbUpdate.forEachM DbUpdate.insertBudget bs (DbUpdate.mkTables rs acc)
   = Ok (DbUpdate.mkTables rs (acc ++ bs)))
  ∧ (¬ (NoDup (budId <$> acc ++ bs) ∧ NoDup (budCategoryId <$> acc ++ bs)) →
     ∃ reason,
       DbUpdate.forEachM DbUpdate.insertBudget bs (DbUpdate.mkTables rs acc)
       = Throw reason).
Proof.
  revert acc. induction bs as [|b bs IH]; intros acc Hids Hcats.
  { rewrite app_nil_r. split; [done|]. intros []. done. }
  cbn [DbUpdate.forEachM].
  replace (acc ++ b :: bs) with ((acc ++ [b]) ++ bs)
    by (by rewrite <- app_assoc).
  destruct (decide (budId b ∈ budId <$> acc
                    ∨ budCategoryId b ∈ budCategoryId <$> acc)) as [Hb|Hb].
  - destruct (insertBudget_taken b acc rs Hb) as [reason ->].
    split; [|by eexists]. intros [Hnid Hncat].
    destruct Hb as [Hb|Hb]; [by apply NoDup_snoc_fresh in Hnid
                            | by apply NoDup_snoc_fresh in Hncat].
  - assert (budId b ∉ budId <$> acc) as Hid
      by (intros Hin; apply Hb; by left).
    assert (budCategoryId b ∉ budCategoryId <$> acc) as Hcat
      by (intros Hin; apply Hb; by right).
    rewrite insertBudget_fresh by done.
    apply IH; by apply NoDup_snoc_grow.
Qed.

(** The tables present in a valid update are written and committed;
    the call completes as the copy to IndexedDB lets it. *)
Lemma updateHousehold_commits (save : DbUpdate.Tables → Result unit)
    (data : DbUpdate.Update) (t : DbUpdate.Tables) :
  (∀ rs, DbUpdate.dataRules data = Some rs → NoDup (ruleId <$> rs)) →
  (∀ bs, DbUpdate.dataBudgets data = Some bs →
     NoDup (budId <$> bs) ∧ NoDup (budCategoryId <$> bs)) →
  let written :=
    {| DbUpdate.tblRules :=
         default (DbUpdate.tblRules t) (DbUpdate.dataRules data);
       DbUpdate.tblBudgets :=
         default (DbUpdate.tblBudgets t) (DbUpdate.dataBudgets data) |} in
  DbUpdate.updateHousehold save data (Some t)
  = (Some written, afterCommit save written).
Proof.
  intros Hrules Hbudgets written. subst written.
  destruct data as [rules budgets], t as [rs0 bs0].
  unfold DbUpdate.updateHousehold. simpl in *.
  assert (∃ t1,
            match rules with
            | Some rs =>
                DbUpdate.forEachM DbUpdate.insertRule rs
                  (DbUpdate.mkTables [] bs0)
            | None => Ok (DbUpdate.mkTables rs0 bs0)
            end = Ok t1
            ∧ t1 = DbUpdate.mkTables (default rs0 rules) bs0)
    as (t1 & -> & ->).
  { destruct rules as [rs|]; [|by eexists].
    destruct (forEachM_insertRule rs [] bs0) as [Hok _];
      [apply NoDup_nil_2|].
    rewrite Hok by (by apply Hrules). by eexists. }
  unfold mbind, Result_bind, afterCommit. simpl.
  destruct budgets as [bs|]; simpl.
  - destruct (forEachM_insertBudget bs [] (default rs0 rules)) as [Hok _];
      [apply NoDup_nil_2 ..|].
    rewrite Hok by (by apply Hbudgets). simpl. by destruct (save _).
  - by destruct (save _).
Qed.

(** An update with a repeated key is rolled back and the call returns
    normally. *)
Lemma updateHousehold_rolls_back (save : DbUpdate.Tables → Result unit)
    (data : DbUpdate.Update) (t : DbUpdate.Tables) :
  ¬ ((∀ rs, DbUpdate.dataRules data = Some rs → NoDup (ruleId <$> rs))
     ∧ (∀ bs, DbUpdate.dataBudgets data = Some bs →
          NoDup (budId <$> bs) ∧ NoDup (budCategoryId <$> bs))) →
  DbUpdate.updateHousehold save data (Some t) = (Some t, Ok tt).
Proof.
  intros Hinvalid.
  destruct data as [rules budgets], t as [rs0 bs0].
  unfold DbUpdate.updateHousehold. simpl in *.
  destruct rules as [rs|].
  - destruct (forEachM_insertRule rs [] bs0) as [Hok Hthrow];
      [apply NoDup_nil_2|].
    rewrite app_nil_l in Hok, Hthrow.
    destruct (decide (NoDup (ruleId <$> rs))) as [Hrs|Hrs].
    + rewrite (Hok Hrs). unfold mbind, Result_bind. simpl.
      destruct budgets as [bs|].
      * destruct (forEachM_insertBudget bs [] rs) as [_ Hbad];
          [apply NoDup_nil_2 ..|].
        rewrite app_nil_l in Hbad.
        destruct Hbad as [reason ->]; [|done].
        intros Hbs. apply Hinvalid. split.
        -- by intros ? [= <-].
        -- by intros ? [= <-].
      * exfalso. apply Hinvalid. split; [by intros ? [= <-] | done].
    + by destruct (Hthrow Hrs) as [reason ->].
  - unfold mbind, Result_bind. simpl.
    destruct budgets as [bs|].
    + destruct (forEachM_insertBudget bs [] rs0) as [_ Hbad];
        [apply NoDup_nil_2 ..|].
      rewrite app_nil_l in Hbad.
      destruct Hbad as [reason ->]; [|done].
      intros Hbs. apply Hinvalid. split; [done | by intros ? [= <-]].
    + exfalso. apply Hinvalid. split; done.
Qed.

Lemma updateHousehold_budgets (save : DbUpdate.Tables → Result unit)
    (t : DbUpdate.Tables) (bs : list Budget) :
  (NoDup (budId <$> bs) ∧ NoDup (budCategoryId <$> bs) →
   DbUpdate.updateHousehold save (DbUpdate.mkUpdate None (Some bs)) (Some t)
   = (Some (DbUpdate.mkTables (DbUpdate.tblRules t) bs),
      afterCommit save (DbUpdate.mkTables (DbUpdate.tblRules t) bs)))
  ∧ (¬ (NoDup (budId <$> bs) ∧ NoDup (budCategoryId <$> bs)) →
     DbUpdate.updateHousehold save (DbUpdate.mkUpdate None (Some bs)) (Some t)
     = (Some t, Ok tt)).
Proof.
  split; intros Hvalid.
  - apply (updateHousehold_commits save (DbUpdate.mkUpdate None (Some bs)) t).
    + by intros rs [=].
    + by intros ? [= <-].
  - apply updateHousehold_rolls_back. intros [_ Hbudgets].
    apply Hvalid. by apply Hbudgets.
Qed.

Lemma updateHousehold_rules (save : DbUpdate.Tables → Result unit)
    (t : DbUpdate.Tables) (rs : list Rule) :
  (NoDup (ruleId <$> rs) →
   DbUpdate.updateHousehold save (DbUpdate.mkUpdate (Some rs) None) (Some t)
   = (Some (DbUpdate.mkTables rs (DbUpdate.tblBudgets t)),
      afterCommit save (DbUpdate.mkTables rs (DbUpdate.tblBudgets t))))
  ∧ (¬ NoDup (ruleId <$> rs) →
     DbUpdate.updateHousehold save (DbUpdate.mkUpdate (Some rs) None) (Some t)
     = (Some t, Ok tt)).
Proof.
  split; intros Hvalid.
  - apply (updateHousehold_commits save (DbUpdate.mkUpdate (Some rs) None) t).
    + by intros ? [= <-].
    + by intros bs [=].
  - apply updateHousehold_rolls_back. intros [Hrules _].
    apply Hvalid. by apply Hrules.
Qed.

(** X22.  [updateHousehold] is all or nothing on rules and budgets.
    With no database open it does nothing.  When the new rules have
    distinct ids and the new budgets have distinct ids and distinct
    categories, the tables present in the update replace the stored
    ones; the call then returns normally if the copy to IndexedDB
    succeeds, and rejects with the error of [ROLLBACK] if the copy
    fails, the new tables staying committed.  Otherwise the transaction
    is rolled back, both tables are as before, also the one that could
    have been written, and the call returns normally. *)
Theorem updateHousehold_all_or_nothing
    (save : DbUpdate.Tables → Result unit) (data : DbUpdate.Update)
    (t : DbUpdate.Tables) :
  let valid :=
    (∀ rs, DbUpdate.dataRules data = Some rs → NoDup (ruleId <$> rs))
    ∧ (∀ bs, DbUpdate.dataBudgets data = Some bs →
         NoDup (budId <$> bs) ∧ NoDup (budCategoryId <$> bs)) in
  let written :=
    {| DbUpdate.tblRules :=
         default (DbUpdate.tblRules t) (DbUpdate.dataRules data);
       DbUpdate.tblBudgets :=
         default (DbUpdate.tblBudgets t) (DbUpdate.dataBudgets data) |} in
  let outcome := DbUpdate.updateHousehold save data (Some t) in
  (valid →
   outcome.1 = Some written
   ∧ (save written = Ok tt → outcome.2 = Ok tt)
   ∧ (∀ reason,
        save written = Throw reason →
        outcome.2 = Throw (js "cannot rollback - no transaction is active")))
  ∧ (¬ valid → outcome = (Some t, Ok tt))
  ∧ DbUpdate.updateHousehold save data None = (None, Ok tt).
Proof.
  intros valid written outcome. subst valid outcome.
  split; [|split; [|done]].
  - intros [Hrules Hbudgets].
    rewrite updateHousehold_commits by done. cbv zeta. fold written. simpl.
    split; [done|]. apply afterCommit_cases.
  - apply updateHousehold_rolls_back.
Qed.

Lemma handleBudgetChange_cases (budgets : list Budget) (c : jsstring)
    (a : Z) :
  ((c ∈ budCategoryId <$> budgets)
   ∧ budId <$> handleBudgetChange budgets c a = budId <$> budgets
   ∧ budCategoryId <$> handleBudgetChange budgets c a
     = budCategoryId <$> budgets)
  ∨ ((c ∉ budCategoryId <$> budgets)
     ∧ handleBudgetChange budgets c a
       = budgets ++ [{| budId := js "bud-" ++ c; budCategoryId := c;
                        budAmount := a |}]).
Proof.
  unfold handleBudgetChange.
  destruct (List.find _ budgets) as [existing|] eqn:Hfind.
  - left. apply find_budget_Some in Hfind as [Hin <-].
    split; [by apply list_elem_of_fmap_2|].
    split; rewrite <- list_fmap_compose; apply list_fmap_ext;
      intros i b _; simpl; by case_bool_decide.
  - right. by apply find_budget_None in Hfind.
Qed.

(** X23.  A budget changed in the settings reaches the store, with one
    exception.  When the stored budgets have distinct ids and distinct
    categories, the list [handleBudgetChange] builds is accepted by
    [updateHousehold] if the category already had a budget or the id
    made from the category is still free; if the category had no budget
    and that id is taken by the budget of another category, the update
    is rolled back and the change is lost without an error.  An
    accepted update completes as the copy to IndexedDB lets it: the call
    returns normally when the copy succeeds. *)
Theorem handleBudgetChange_stored (save : DbUpdate.Tables → Result unit)
    (t : DbUpdate.Tables) (c : jsstring) (a : Z) :
  NoDup (budId <$> DbUpdate.tblBudgets t) →
  NoDup (budCategoryId <$> DbUpdate.tblBudgets t) →
  let newBudgets := handleBudgetChange (DbUpdate.tblBudgets t) c a in
  let update := DbUpdate.mkUpdate None (Some newBudgets) in
  ((c ∈ budCategoryId <$> DbUpdate.tblBudgets t)
   ∨ (js "bud-" ++ c ∉ budId <$> DbUpdate.tblBudgets t) →
   DbUpdate.updateHousehold save update (Some t)
   = (Some (DbUpdate.mkTables (DbUpdate.tblRules t) newBudgets),
      afterCommit save (DbUpdate.mkTables (DbUpdate.tblRules t) newBudgets)))
  ∧ (c ∉ budCategoryId <$> DbUpdate.tblBudgets t →
     js "bud-" ++ c ∈ budId <$> DbUpdate.tblBudgets t →
     DbUpdate.updateHousehold save update (Some t) = (Some t, Ok tt)).
Proof.
  intros Hids Hcats newBudgets update. subst newBudgets update.
  destruct (updateHousehold_budgets save t
              (handleBudgetChange (DbUpdate.tblBudgets t) c a))
    as [Hok Hbad].
  destruct (handleBudgetChange_cases (DbUpdate.tblBudgets t) c a)
    as [(Hin & Hsameids & Hsamecats)|[Hnew Happ]].
  - split; [|done]. intros _. apply Hok.
    by rewrite Hsameids, Hsamecats.
  - split.
    + intros [Hin|Hfree]; [done|]. apply Hok. rewrite Happ.
      split; by apply NoDup_snoc_grow.
    + intros _ Htaken. apply Hbad. rewrite Happ. intros [Hnodup _].
      rewrite fmap_app in Hnodup.
      apply NoDup_app in Hnodup as (_ & Hdisj & _).
      apply (Hdisj _ Htaken). simpl. left.
Qed.

(** New rules that are fine, sent with two budgets for one category:
    nothing is written, the rules neither. *)
Lemma updateHousehold_all_or_nothing_witness :
  let t := DbUpdate.mkTables [mkRule (js "rule-1") (js "netflix") (js "cat-5")]
                             [mkBudget (js "bud-1") (js "cat-1") 2000000] in
  let data :=
    DbUpdate.mkUpdate
      (Some [mkRule (js "rule-2") (js "uber") (js "cat-2")])
      (Some [mkBudget (js "bud-1") (js "cat-1") 100;
             mkBudget (js "bud-2") (js "cat-1") 200]) in
  let copied := λ _ : DbUpdate.Tables, Ok tt in
  DbUpdate.updateHousehold copied data (Some t) = (Some t, Ok tt).
Proof.
  intros t data copied.
  apply (updateHousehold_all_or_nothing copied data t).
  intros [_ Hbudgets].
  destruct (Hbudgets _ eq_refl) as [_ Hcats].
  apply NoDup_cons in Hcats as [Hnew _]. apply Hnew. left.
Defined.

(** The seeded budgets, then a budget for a fifth category; and a store
    where the id made for that category is already taken. *)
Lemma handleBudgetChange_stored_witness :
  let seeded := [mkBudget (js "bud-1") (js "cat-1") 2000000;
                 mkBudget (js "bud-2") (js "cat-2") 1000000] in
  let clash := [mkBudget (js "bud-cat-5") (js "cat-1") 2000000] in
  let copied := λ _ : DbUpdate.Tables, Ok tt in
  DbUpdate.updateHousehold copied
    (DbUpdate.mkUpdate None (Some (handleBudgetChange seeded (js "cat-5") 500)))
    (Some (DbUpdate.mkTables [] seeded))
  = (Some (DbUpdate.mkTables []
             (seeded ++ [mkBudget (js "bud-cat-5") (js "cat-5") 500])),
     Ok tt)
  ∧ DbUpdate.updateHousehold copied
      (DbUpdate.mkUpdate None (Some (handleBudgetChange clash (js "cat-5") 500)))
      (Some (DbUpdate.mkTables [] clash))
    = (Some (DbUpdate.mkTables [] clash), Ok tt).
Proof.
  intros seeded clash copied. split.
  - apply (handleBudgetChange_stored copied (DbUpdate.mkTables [] seeded)
             (js "cat-5") 500).
    + apply (bool_decide_unpack _). vm_compute. exact I.
    + apply (bool_decide_unpack _). vm_compute. exact I.
    + right. apply (bool_decide_unpack _). vm_compute. exact I.
  - apply (handleBudgetChange_stored copied (DbUpdate.mkTables [] clash)
             (js "cat-5") 500).
    + apply (bool_decide_unpack _). vm_compute. exact I.
    + apply (bool_decide_unpack _). vm_compute. exact I.
    + apply (bool_decide_unpack _). vm_compute. exact I.
    + apply (bool_decide_unpack _). vm_compute. exact I.
Defined.

(** ** Importing a bank statement *)

Import StatementImport.

Section StatementImportFacts.

Variable Amount : Type.
Variable amountInCents : Amount → Z.
Variable toISODate : jsstring → Result JsDate.
Variable toLowerCase : jsstring → jsstring.
Variable askCategoryIds : Household → list jsstring → Result (list jsstring).

Lemma fmap_imap_const {A B C} (f : nat → A → B) (g : B → C) (h : A → C)
    (l : list A) :
  (∀ i x, g (f i x) = h x) → g <$> imap f l = h <$> l.
Proof.
  intros Hgf. revert f Hgf. induction l as [|x l IH]; intros f Hgf; [done|].
  simpl. rewrite Hgf. f_equal. apply IH. intros i y. apply Hgf.
Qed.

(** X24.  [categorizeTransactions] always answers for the transactions
    it was given.  Nothing is asked for an empty list, and the result
    is empty.  For a list that is not empty, an exception of the call
    to the language model is passed on; an answer of another length
    than the list gives every transaction, in order and unchanged, with
    the fallback category; an answer of the right length gives the
    transactions, all of them, in their order and unchanged, each with
    the category the answer has at its position. *)
Theorem categorizeTransactions_keeps_transactions
    (transactions : list (UncategorizedTransaction Amount))
    (household : Household) :
  let outcome :=
    categorizeTransactions Amount toLowerCase askCategoryIds
      transactions household in
  let asked := askCategoryIds household (txDescription <$> transactions) in
  (transactions = [] → outcome = Ok [])
  ∧ (∀ reason, transactions ≠ [] → asked = Throw reason →
       outcome = Throw reason)
  ∧ (∀ answer, transactions ≠ [] → asked = Ok answer →
       (length answer ≠ length transactions →
        outcome
        = Ok ((λ t, {| uncategorized := t;
                       txCategoryId := otherCategoryId toLowerCase household |})
              <$> transactions))
       ∧ (length answer = length transactions →
          ∃ result,
            outcome = Ok result
            ∧ uncategorized <$> result = transactions
            ∧ txCategoryId <$> result = Some <$> answer)).
Proof.
  intros outcome asked. subst outcome asked.
  unfold categorizeTransactions.
  case_bool_decide as Hempty.
  { apply nil_length_inv in Hempty as ->. by repeat split. }
  split; [by intros ->|]. split.
  { intros reason _ ->. done. }
  intros answer _ ->. unfold mbind, Result_bind.
  split; intros Hlen.
  - by rewrite bool_decide_eq_true_2.
  - rewrite bool_decide_eq_false_2 by (intros Hne; by apply Hne).
    eexists. split; [reflexivity|].
    split; [by rewrite (fmap_imap_const _ _ id), list_fmap_id|].
    apply list_eq. intros i.
    rewrite !list_lookup_fmap, list_lookup_imap.
    destruct (transactions !! i) as [t|] eqn:Ht; simpl.
    + apply lookup_lt_Some in Ht. rewrite <- Hlen in Ht.
      apply lookup_lt_is_Some_2 in Ht as [c Hc]. by rewrite Hc.
    + apply lookup_ge_None in Ht. rewrite <- Hlen in Ht.
      apply lookup_ge_None in Ht. by rewrite Ht.
Qed.

(** X25.  The selection of the review always names rows of the list,
    each once: at the start, after the box that selects all or none, and
    after a row that is shown has been ticked or unticked.  Ticking
    turns the membership of that row over and leaves the others. *)
Theorem selection_stays_valid (reviewable : list (ParsedTransaction Amount))
    (selectedRows : list nat) (index : nat) (checked : bool) :
  selectionOk reviewable (initialSelectedRows Amount reviewable)
  ∧ selectionOk reviewable (handleSelectAll Amount checked reviewable)
  ∧ (selectionOk reviewable selectedRows →
     (index < length reviewable)%nat →
     selectionOk reviewable (handleSelectionChange selectedRows index))
  ∧ (index ∈ handleSelectionChange selectedRows index ↔ index ∉ selectedRows)
  ∧ (∀ other, other ≠ index →
       other ∈ handleSelectionChange selectedRows index
       ↔ other ∈ selectedRows).
Proof.
  assert (selectionOk reviewable (seq 0 (length reviewable))) as Hall.
  { split; [apply NoDup_seq|]. intros i Hi%elem_of_seq. lia. }
  split; [exact Hall|]. split.
  { destruct checked; [exact Hall|].
    split; [apply NoDup_nil_2 | by intros i ?%elem_of_nil]. }
  unfold handleSelectionChange.
  split; [|split].
  - intros [Hnodup Hrange] Hindex. case_bool_decide as Hin.
    + split; [by apply NoDup_filter|].
      intros i [_ Hi]%list_elem_of_filter. by apply Hrange.
    + split.
      * apply NoDup_app. split; [done|]. split; [|apply NoDup_singleton].
        by intros i Hi ->%list_elem_of_singleton.
      * intros i [Hi| ->%list_elem_of_singleton]%elem_of_app;
          [by apply Hrange | done].
  - case_bool_decide as Hin.
    + rewrite list_elem_of_filter. split; [by intros [? _] | done].
    + rewrite elem_of_app, list_elem_of_singleton. split; [done | by right].
  - intros other Hother. case_bool_decide as Hin.
    + rewrite list_elem_of_filter. split; [by intros [_ ?] | done].
    + rewrite elem_of_app, list_elem_of_singleton.
      split; [by intros [?|?] | by left].
Qed.

Lemma withoutImported_length (importedIndices : list nat) (index : nat)
    (prev : list (ParsedTransaction Amount)) :
  (length (withoutImported Amount importedIndices index prev)
   + length (filter (λ i, i ∈ importedIndices) (seq index (length prev)))
   = length prev)%nat.
Proof.
  revert index. induction prev as [|t prev IH]; intros index; [done|].
  cbn [withoutImported length seq]. rewrite filter_cons.
  specialize (IH (S index)).
  case_bool_decide as Hin.
  - rewrite decide_True by done. simpl. lia.
  - rewrite decide_False by done. simpl. lia.
Qed.

Lemma selected_rows_counted {A} (reviewable : list A)
    (selectedRows : list nat) :
  selectionOk reviewable selectedRows →
  length (filter (λ i, i ∈ selectedRows) (seq 0 (length reviewable)))
  = length selectedRows.
Proof.
  intros [Hnodup Hrange]. apply Permutation_length.
  apply NoDup_Permutation; [apply NoDup_filter, NoDup_seq | done|].
  intros i. rewrite list_elem_of_filter, elem_of_seq.
  split; [by intros [? _]|]. intros Hi. split; [done|].
  specialize (Hrange i Hi). lia.
Qed.

Lemma expenseToImport_Ok (reviewable : list (ParsedTransaction Amount))
    (index : nat) (t : ParsedTransaction Amount) (d : JsDate) :
  reviewable !! index = Some t →
  toISODate (parsedDate t) = Ok d →
  expenseToImport Amount amountInCents toISODate reviewable index
  = Ok {| newDescription := parsedDescription t;
          newAmount := amountInCents (parsedAmount t);
          newCategoryId := parsedCategoryId t;
          newMemberId := parsedMemberId t;
          newDate := d;
          newSplits := [{| memberId := parsedMemberId t;
                           amount := amountInCents (parsedAmount t) |}] |}.
Proof.
  intros Ht Hd. unfold expenseToImport. by rewrite Ht, Hd.
Qed.

Lemma expensesToImport_rows
    (reviewable : list (ParsedTransaction Amount)) (selectedRows : list nat) :
  (∀ i, i ∈ selectedRows → (i < length reviewable)%nat) →
  (∀ t, t ∈ reviewable → ∃ d, toISODate (parsedDate t) = Ok d) →
  ∃ expenses,
    expensesToImport Amount amountInCents toISODate reviewable selectedRows
    = Ok expenses
    ∧ length expenses = length selectedRows
    ∧ ∀ k index, selectedRows !! k = Some index →
        ∃ t e, reviewable !! index = Some t ∧ expenses !! k = Some e
               ∧ newDescription e = parsedDescription t
               ∧ newAmount e = amountInCents (parsedAmount t)
               ∧ newCategoryId e = parsedCategoryId t
               ∧ newMemberId e = parsedMemberId t
               ∧ newSplits e = [{| memberId := newMemberId e;
                                   amount := newAmount e |}].
Proof.
  intros Hrange Hdates.
  induction selectedRows as [|index rest IH].
  { exists []. split; [done|]. split; [done|]. by intros k index [=]. }
  destruct (lookup_lt_is_Some_2 reviewable index) as [t Ht];
    [apply Hrange; left|].
  destruct (Hdates t) as [d Hd]; [by eapply list_elem_of_lookup_2|].
  destruct IH as (es & Hes & Hlen & Hrows);
    [intros i Hi; apply Hrange; by right|].
  cbn [expensesToImport].
  rewrite (expenseToImport_Ok reviewable index t d Ht Hd), Hes.
  eexists. split; [reflexivity|]. split; [simpl; by rewrite Hlen|].
  intros [|k] i Hk; simpl in Hk.
  - injection Hk as <-. exists t. eexists.
    split; [done|]. split; [reflexivity|]. done.
  - by apply Hrows.
Qed.

(** X26.  Importing the selected rows.  When the selection names rows of
    the list, each once, and every date reads as a date, an expense is
    built for each selected row, in the order of the selection, with the
    description, the category and the payer of the row and one split:
    the payer's, for the whole amount.  The rows that stay under review
    and the expenses built together count as many as the rows before. *)
Theorem handleImportSelected_imports
    (reviewable : list (ParsedTransaction Amount)) (selectedRows : list nat) :
  selectionOk reviewable selectedRows →
  (∀ t, t ∈ reviewable → ∃ d, toISODate (parsedDate t) = Ok d) →
  ∃ expenses,
    expensesToImport Amount amountInCents toISODate reviewable selectedRows
    = Ok expenses
    ∧ length expenses = length selectedRows
    ∧ (length (withoutImported Amount selectedRows 0 reviewable)
       + length expenses = length reviewable)%nat
    ∧ (∀ k index, selectedRows !! k = Some index →
         ∃ t e, reviewable !! index = Some t ∧ expenses !! k = Some e
                ∧ newDescription e = parsedDescription t
                ∧ newAmount e = amountInCents (parsedAmount t)
                ∧ newCategoryId e = parsedCategoryId t
                ∧ newMemberId e = parsedMemberId t
                ∧ newSplits e = [{| memberId := newMemberId e;
                                    amount := newAmount e |}]).
Proof.
  intros Hsel Hdates.
  destruct (expensesToImport_rows reviewable selectedRows (proj2 Hsel) Hdates)
    as (expenses & Hok & Hlen & Hrows).
  exists expenses. split; [done|]. split; [done|]. split; [|done].
  rewrite Hlen, <- (selected_rows_counted reviewable selectedRows Hsel).
  apply withoutImported_length.
Qed.

End StatementImportFacts.

(** Three rows under review, the first and the last selected. *)
Lemma handleImportSelected_imports_witness :
  let row (d : jsstring) (k : Z) :=
    mkParsed Z (js "2024-03-10") d k debit (js "cat-1") (js "mem-1") in
  let reviewable := [row (js "Rent") 1200000; row (js "Milk") 4500;
                     row (js "Taxi") 30000] in
  let toISODate (s : jsstring) :=
    Ok (mkDate (s ++ js "T00:00:00.000Z") 2024 2 10) in
  ∃ expenses,
    expensesToImport Z id toISODate reviewable [0; 2]%nat = Ok expenses
    ∧ length expenses = 2%nat
    ∧ length (withoutImported Z [0; 2]%nat 0 reviewable) = 1%nat.
Proof.
  intros row reviewable toISODate.
  destruct (handleImportSelected_imports Z id toISODate reviewable [0; 2]%nat)
    as (expenses & Hok & Hlen & Hcount & _).
  - split.
    + apply (bool_decide_unpack _). vm_compute. exact I.
    + intros i Hi.
      repeat (apply elem_of_cons in Hi as [->|Hi]; [simpl; lia|]).
      by apply elem_of_nil in Hi.
  - intros t _. by eexists.
  - exists expenses. split; [exact Hok|]. split; [exact Hlen|].
    change (length expenses = 2%nat) in Hlen. rewrite Hlen in Hcount.
    change (length reviewable) with 3%nat in Hcount. lia.
Defined.

(** ** Rule edits and the store *)

(** X27.  Rule edits and the store.  When the stored rules have distinct
    ids, deleting a rule is always accepted by [updateHousehold] and the
    rule is gone, the others staying in their order; adding a rule is
    accepted when the identifier drawn for it is new, and otherwise the
    update is rolled back and the rule is lost without an error.  An
    accepted update completes as the copy to IndexedDB lets it: the call
    returns normally when the copy succeeds. *)
Theorem rule_edits_stored (toLowerCase : jsstring → jsstring)
    (save : DbUpdate.Tables → Result unit)
    (t : DbUpdate.Tables) (id uuid keyword categoryId : jsstring)
    (added : list Rule) :
  NoDup (ruleId <$> DbUpdate.tblRules t) →
  handleAddRule toLowerCase (DbUpdate.tblRules t) uuid keyword categoryId
  = Some added →
  let deleted := handleDeleteRule (DbUpdate.tblRules t) id in
  DbUpdate.updateHousehold save (DbUpdate.mkUpdate (Some deleted) None)
    (Some t)
  = (Some (DbUpdate.mkTables deleted (DbUpdate.tblBudgets t)),
     afterCommit save (DbUpdate.mkTables deleted (DbUpdate.tblBudgets t)))
  ∧ (id ∉ ruleId <$> deleted)
  ∧ deleted = filter (λ r, ruleId r ≠ id) (DbUpdate.tblRules t)
  ∧ (js "rule-" ++ uuid ∉ ruleId <$> DbUpdate.tblRules t →
     DbUpdate.updateHousehold save (DbUpdate.mkUpdate (Some added) None)
       (Some t)
     = (Some (DbUpdate.mkTables added (DbUpdate.tblBudgets t)),
        afterCommit save (DbUpdate.mkTables added (DbUpdate.tblBudgets t))))
  ∧ (js "rule-" ++ uuid ∈ ruleId <$> DbUpdate.tblRules t →
     DbUpdate.updateHousehold save (DbUpdate.mkUpdate (Some added) None)
       (Some t)
     = (Some t, Ok tt)).
Proof.
  intros Hnodup Hadded deleted. subst deleted.
  unfold handleAddRule in Hadded.
  destruct (falsy (trim keyword) || falsy categoryId); [done|].
  injection Hadded as <-.
  split; [|split; [|split; [done|split]]].
  - apply updateHousehold_rules. unfold handleDeleteRule.
    clear -Hnodup. induction (DbUpdate.tblRules t) as [|r rs IH]; [done|].
    rewrite fmap_cons in Hnodup. apply NoDup_cons in Hnodup as [Hr Hrs].
    rewrite filter_cons. case_decide; [|by apply IH].
    rewrite fmap_cons. apply NoDup_cons. split; [|by apply IH].
    intros (r' & Heq & [_ Hin]%list_elem_of_filter)%list_elem_of_fmap.
    apply Hr. rewrite Heq. by apply list_elem_of_fmap_2.
  - unfold handleDeleteRule.
    intros (r & -> & [Hne _]%list_elem_of_filter)%list_elem_of_fmap. done.
  - intros Hfresh. apply updateHousehold_rules.
    by apply NoDup_snoc_grow.
  - intros Htaken. apply updateHousehold_rules.
    rewrite fmap_app. intros (_ & Hdisj & _)%NoDup_app.
    apply (Hdisj _ Htaken). simpl. left.
Qed.

Lemma rule_edits_stored_witness :
  let t := DbUpdate.mkTables
             [mkRule (js "rule-1") (js "netflix") (js "cat-5");
              mkRule (js "rule-2") (js "uber") (js "cat-2")]
             [] in
  let copied := λ _ : DbUpdate.Tables, Ok tt in
  DbUpdate.updateHousehold copied
    (DbUpdate.mkUpdate (Some (handleDeleteRule (DbUpdate.tblRules t) (js "rule-1")))
                       None) (Some t)
  = (Some (DbUpdate.mkTables [mkRule (js "rule-2") (js "uber") (js "cat-2")]
                             []),
     Ok tt).
Proof.
  intros t copied.
  destruct (rule_edits_stored asciiToLowerCase copied t (js "rule-1") (js "u-7")
              (js " Zomato ") (js "cat-3") _
              ltac:(apply (bool_decide_unpack _); vm_compute; exact I)
              eq_refl) as [Hdeleted _].
  exact Hdeleted.
Defined.

(** ** The list of expenses and its export *)

Import ExpenseList.

Lemma expense_sortInsert_Permutation (compare : Expense → Expense → Z)
    (x : Expense) (sorted : list Expense) :
  ExpenseList.sortInsert compare x sorted ≡ₚ x :: sorted.
Proof.
  induction sorted as [|y rest IH]; simpl; [done|].
  destruct (0 <? compare x y); [|done].
  rewrite IH. apply Permutation_swap.
Qed.

Lemma expense_sort_Permutation (compare : Expense → Expense → Z)
    (xs : list Expense) :
  ExpenseList.sort compare xs ≡ₚ xs.
Proof.
  induction xs as [|x xs IH]; simpl; [done|].
  by rewrite expense_sortInsert_Permutation, IH.
Qed.

Lemma expense_sort_descending (getTime : JsDate → Z) (xs : list Expense) :
  StronglySorted (λ a b, getTime (date b) ≤ getTime (date a))
                 (ExpenseList.sort (byDateDescending getTime) xs).
Proof.
  induction xs as [|x xs IH]; simpl; [constructor|].
  induction IH as [|y rest Hrest IH Hy]; simpl; [repeat constructor|].
  unfold byDateDescending at 1.
  destruct (Z.ltb_spec 0 (getTime (date y) - getTime (date x))) as [Hlt|Hge].
  - constructor; [done|].
    apply Forall_forall. intros e He.
    rewrite expense_sortInsert_Permutation in He.
    apply elem_of_cons in He as [->|He]; [lia|].
    by apply (proj1 (Forall_forall _ _) Hy).
  - constructor; [by constructor|].
    apply Forall_cons. split; [lia|].
    apply Forall_forall. intros e He.
    pose proof (proj1 (Forall_forall _ _) Hy e He) as Hle.
    cbv beta in Hle. lia.
Qed.

Lemma hasShare_rows (members : list Member) (categories : list Category)
    (m : jsstring) (exp : Expense) :
  hasShare m exp = true → expenseRows members categories exp ≠ [].
Proof.
  unfold hasShare, expenseRows. rewrite existsb_exists.
  intros (s & Hs & [_ Hpos%Z.ltb_lt]%andb_true_iff) Hnil.
  apply fmap_nil_inv in Hnil.
  apply list_elem_of_In in Hs.
  assert (s ∈ filter (λ split, 0 < amount split) (splits exp)) as Hin
    by (by apply list_elem_of_filter).
  rewrite Hnil in Hin. by apply elem_of_nil in Hin.
Qed.

(** X28.  The list of expenses shown: it holds the expenses that pass
    the two filters, each as often as before, the latest first; its
    total is the sum of their full amounts, whatever member is selected;
    and when a member is selected, every expense shown gives at least
    one row of the exported file, so that the file has at least as many
    data rows as the list has expenses. *)
Theorem filteredExpenses_shown (getTime : JsDate → Z)
    (members : list Member) (categories : list Category)
    (expenses : list Expense) (filter' : Filter) :
  let shown' := filteredExpenses getTime expenses filter' in
  let passes (exp : Expense) :=
    (filterMemberId filter' = ALL
     ∨ hasShare (filterMemberId filter') exp = true)
    ∧ (filterCategoryId filter' = ALL
       ∨ categoryId exp = filterCategoryId filter') in
  shown' ≡ₚ filter passes expenses
  ∧ (∀ i j a b, (i < j)%nat → shown' !! i = Some a → shown' !! j = Some b →
       getTime (date b) ≤ getTime (date a))
  ∧ totalFilteredAmount getTime expenses filter'
    = sumOf expAmount (filter passes expenses)
  ∧ (filterMemberId filter' ≠ ALL →
     (∀ exp, exp ∈ shown' → expenseRows members categories exp ≠ [])
     ∧ (length shown' ≤ length (dataRows members categories shown'))%nat).
Proof.
  intros shown' passes.
  assert (shown' ≡ₚ filter passes expenses) as Hperm.
  { subst shown'. unfold filteredExpenses.
    rewrite expense_sort_Permutation, list_filter_filter.
    match goal with |- ?a ≡ₚ ?b => replace a with b; [reflexivity|] end.
    apply filter_ext_elem. intros exp _. subst passes. cbv beta.
    rewrite !Is_true_true, !orb_true_iff, !bool_decide_eq_true.
    tauto. }
  split; [exact Hperm|]. split; [|split].
  - intros i j a b Hij Ha Hb.
    apply (StronglySorted_lookup_le
             (λ a b, getTime (date b) ≤ getTime (date a)) shown' i j);
      [apply expense_sort_descending | done..].
  - unfold totalFilteredAmount. fold shown'.
    rewrite !sumOf_sumZ. apply sumZ_Permutation.
    by apply fmap_Permutation.
  - intros Hmember.
    assert (∀ exp, exp ∈ shown' → expenseRows members categories exp ≠ [])
      as Hrows.
    { intros exp Hexp. rewrite Hperm in Hexp.
      apply list_elem_of_filter in Hexp as [[[Hall|Hshare] _] _]; [done|].
      by apply (hasShare_rows members categories (filterMemberId filter')). }
    split; [exact Hrows|].
    clear Hperm. induction shown' as [|exp rest IH]; [done|].
    unfold dataRows. rewrite bind_cons, length_app. fold (dataRows members categories rest).
    assert (length rest ≤ length (dataRows members categories rest))%nat
      by (apply IH; intros e He; apply Hrows; by right).
    assert (expenseRows members categories exp ≠ []) as Hne
      by (apply Hrows; left).
    destruct (expenseRows members categories exp); [done|]. simpl. lia.
Qed.

(** ** A statement imported as it comes *)

Section ImportEverything.

Variable Amount : Type.
Variable amountInCents : Amount → Z.
Variable toISODate : jsstring → Result JsDate.

Lemma withoutImported_all (importedIndices : list nat) (index : nat)
    (prev : list (ParsedTransaction Amount)) :
  (∀ i, (index ≤ i < index + length prev)%nat → i ∈ importedIndices) →
  withoutImported Amount importedIndices index prev = [].
Proof.
  revert index. induction prev as [|t prev IH]; intros index Hall; [done|].
  cbn [withoutImported].
  rewrite bool_decide_eq_true_2 by (apply Hall; simpl; lia).
  apply IH. intros i Hi. apply Hall. simpl. lia.
Qed.

(** X29.  A statement imported as it comes.  The review starts from the
    debits of the statement, in their order, all selected and all paid
    by the first member of the household; importing them without
    touching anything builds one expense for each debit, each with that
    member as payer and as the only one who owes, and leaves no row
    under review.  Credits are never turned into expenses. *)
Theorem import_as_it_comes (members : list Member)
    (transactions : list (ParsedTransaction Amount)) :
  (∀ t, t ∈ transactions → ∃ d, toISODate (parsedDate t) = Ok d) →
  let reviewable := initialReviewableTransactions Amount members transactions in
  let selectedRows := initialSelectedRows Amount reviewable in
  let payer := default [] (memId <$> head members) in
  parsedDescription <$> reviewable
  = parsedDescription <$> filter (λ t, parsedType t = debit) transactions
  ∧ (∀ t, t ∈ reviewable → parsedType t = debit)
  ∧ ∃ expenses,
      expensesToImport Amount amountInCents toISODate reviewable selectedRows
      = Ok expenses
      ∧ newDescription <$> expenses = parsedDescription <$> reviewable
      ∧ (∀ e, e ∈ expenses →
           newMemberId e = payer
           ∧ newSplits e = [{| memberId := payer; amount := newAmount e |}])
      ∧ withoutImported Amount selectedRows 0 reviewable = [].
Proof.
  intros Hdates reviewable selectedRows payer.
  assert (∀ t, t ∈ reviewable →
            parsedType t = debit ∧ parsedMemberId t = payer
            ∧ ∃ d, toISODate (parsedDate t) = Ok d) as Hrows.
  { intros t (t0 & -> & [Hdebit Ht0]%list_elem_of_filter)%list_elem_of_fmap.
    simpl. split; [done|]. split; [done|]. by apply Hdates. }
  split; [|split].
  - subst reviewable. unfold initialReviewableTransactions.
    by rewrite <- list_fmap_compose.
  - intros t Ht. by apply Hrows.
  - destruct (expensesToImport_rows Amount amountInCents toISODate
                reviewable selectedRows)
      as (expenses & Hok & Hlen & Hbuilt).
    + subst selectedRows. unfold initialSelectedRows.
      intros i Hi%elem_of_seq. lia.
    + intros t Ht. by apply Hrows.
    + exists expenses. split; [done|].
      subst selectedRows. unfold initialSelectedRows in *.
      rewrite length_seq in Hlen.
      split; [|split].
      * apply list_eq. intros k. rewrite !list_lookup_fmap.
        destruct (decide (k < length reviewable)%nat) as [Hk|Hk].
        -- destruct (Hbuilt k k) as (t & e & Ht & He & Hd & _).
           { rewrite lookup_seq. split; [done | lia]. }
           rewrite Ht, He. simpl. by rewrite Hd.
        -- rewrite !lookup_ge_None_2 by lia. done.
      * intros e (k & Hk)%list_elem_of_lookup_1.
        destruct (Hbuilt k k) as (t & e' & Ht & He & _ & _ & _ & Hm & Hs).
        { rewrite lookup_seq. split; [done|].
          apply lookup_lt_Some in Hk. lia. }
        rewrite Hk in He. injection He as <-.
        destruct (Hrows t) as (_ & Hpayer & _);
          [by eapply list_elem_of_lookup_2|].
        rewrite Hs, Hm, Hpayer. done.
      * apply withoutImported_all. intros i Hi.
        apply elem_of_seq. lia.
Qed.

End ImportEverything.

(** A salary and two debits. *)
Lemma import_as_it_comes_witness :
  let row (d : jsstring) (k : Z) (ty : TransactionType) :=
    mkParsed Z (js "2024-03-10") d k ty (js "cat-1") [] in
  let transactions := [row (js "Salary") 9000000 credit;
                       row (js "Milk") 4500 debit;
                       row (js "Taxi") 30000 debit] in
  let toISODate (s : jsstring) :=
    Ok (mkDate (s ++ js "T00:00:00.000Z") 2024 2 10) in
  let members := [mkMember (js "mem-1") (js "Rohan") []] in
  ∃ expenses,
    expensesToImport Z id toISODate
      (initialReviewableTransactions Z members transactions) [0; 1]%nat
    = Ok expenses
    ∧ newDescription <$> expenses = [js "Milk"; js "Taxi"].
Proof.
  intros row transactions toISODate members.
  destruct (import_as_it_comes Z id toISODate members transactions)
    as (_ & _ & expenses & Hok & Hdescriptions & _).
  - intros t _. by eexists.
  - exists expenses. split; [exact Hok | exact Hdescriptions].
Defined.

(** ** The previous month's line *)

(** The first [n] buckets of the previous month after one expense. *)
Lemma aggregate_take_previous (now : Now) (dc dp : Z)
    (temp temp' : list double * list double) (e : Expense) (n : nat) :
  Z.of_nat n ≤ dp →
  take n temp.2 = take n temp'.2 →
  take n (aggregate now dc dp temp e).2
  = take n (if decide (((currentMonth now = 0
                         ∧ fullYear (date e) = currentYear now - 1
                         ∧ month (date e) = 11)
                        ∨ (fullYear (date e) = currentYear now
                           ∧ month (date e) = currentMonth now - 1))
                       ∧ 1 ≤ dayOfMonth (date e) ≤ Z.of_nat n)
            then aggregate now dc dp temp' e else temp').2.
Proof.
  intros Hn Htake. destruct temp as [tc tp], temp' as [tc' tp'].
  simpl in Htake. unfold aggregate.
  repeat match goal with
         | |- context [?a =? ?b] => destruct (Z.eqb_spec a b)
         | |- context [?a <? ?b] => destruct (Z.ltb_spec a b)
         end; case_decide; simpl; try done; try lia;
    first [ by apply take_addAt
          | rewrite take_addAt_outside by lia; done ].
Qed.

Lemma foldl_aggregate_take_previous (now : Now) (dc dp : Z)
    (es : list Expense) (temp temp' : list double * list double) (n : nat) :
  Z.of_nat n ≤ dp →
  take n temp.2 = take n temp'.2 →
  take n (foldl (aggregate now dc dp) temp es).2
  = take n (foldl (aggregate now dc dp) temp'
              (filter (λ e, ((currentMonth now = 0
                              ∧ fullYear (date e) = currentYear now - 1
                              ∧ month (date e) = 11)
                             ∨ (fullYear (date e) = currentYear now
                                ∧ month (date e) = currentMonth now - 1))
                            ∧ 1 ≤ dayOfMonth (date e) ≤ Z.of_nat n) es)).2.
Proof.
  intros Hn. revert temp temp'.
  induction es as [|e es IH]; intros temp temp' Htake; [done|].
  cbn [foldl]. rewrite filter_cons.
  pose proof (aggregate_take_previous now dc dp temp temp' e n Hn Htake)
    as Hstep.
  case_decide; cbn [foldl]; by apply IH.
Qed.

(** X30.  What the previous month's line shows.  For a day that the
    previous month has, the entry is the amounts of the expenses dated
    in the previous month (December of the year before, seen from
    January), divided by 100, added up day by day in the order of the
    list, and the days added up from the first to that day, all in the
    host's arithmetic.  It depends on no other expense: the chart shows
    the same value for those expenses alone, and zero when there is
    none.  For the days of the current month that the previous month
    does not have, it shows zero. *)
Theorem previousMonthData_meaning (now : Now) (expenses : list Expense)
    (day : Z) :
  1 ≤ day ≤ daysInCurrentMonthOf (currentYear now) (currentMonth now) →
  let spentOn (d : nat) :=
    addedUp (filter (λ e, inPreviousMonth now e
                          ∧ dayOfMonth (date e) = Z.of_nat d) expenses) in
  let counted :=
    filter (λ e, inPreviousMonth now e ∧ 1 ≤ dayOfMonth (date e) ≤ day)
           expenses in
  (day ≤ daysInPreviousMonthOf (currentYear now) (currentMonth now) →
   previousMonthData (prepareTrendData now expenses) !! Z.to_nat (day - 1)
   = Some (foldl add zero (spentOn <$> seq 1 (Z.to_nat day)))
   ∧ previousMonthData (prepareTrendData now expenses) !! Z.to_nat (day - 1)
     = previousMonthData (prepareTrendData now counted) !! Z.to_nat (day - 1)
   ∧ (counted = [] →
      previousMonthData (prepareTrendData now expenses) !! Z.to_nat (day - 1)
      = Some zero))
  ∧ (daysInPreviousMonthOf (currentYear now) (currentMonth now) < day →
     previousMonthData (prepareTrendData now expenses) !! Z.to_nat (day - 1)
     = Some zero).
Proof.
  intros Hday spentOn counted.
  pose proof (daysInPreviousMonthOf_bounds (currentYear now) (currentMonth now))
    as Hprevious.
  set (dp := daysInPreviousMonthOf (currentYear now) (currentMonth now)) in *.
  split.
  - intros Hin.
    assert (take (Z.to_nat day) (dailyTotals now expenses).2
            = take (Z.to_nat day) (dailyTotals now counted).2) as Htake.
    { unfold dailyTotals. fold dp. subst counted.
      rewrite (foldl_aggregate_take_previous now _ dp expenses
                 (filled _, filled dp) (filled _, filled dp)
                 (Z.to_nat day)) by (done || lia).
      do 3 f_equal. apply filter_ext_elem. intros e _.
      unfold inPreviousMonth. rewrite Z2Nat.id by lia. tauto. }
    rewrite !previousMonthData_lookup by lia. fold dp.
    rewrite !decide_True by lia.
    replace (S (Z.to_nat (day - 1))) with (Z.to_nat day) by lia.
    split; [|split].
    + rewrite dailyTotals_previous by (fold dp; lia). done.
    + by rewrite Htake.
    + rewrite Htake. intros ->. unfold dailyTotals. simpl.
      unfold filled. rewrite take_replicate. by rewrite foldl_add_zeros.
  - intros Hout. rewrite previousMonthData_lookup by lia. fold dp.
    by rewrite decide_False by lia.
Qed.

(** The tenth of March 2024, after an expense of 10.00 on the tenth of
    February and one on the twentieth: the entry is 10; and the
    thirtieth, a day February does not have. *)
Lemma previousMonthData_meaning_witness :
  let now := {| currentYear := 2024; currentMonth := 2; today := 15 |} in
  let e (iso : jsstring) (d : Z) :=
    {| expId := js "exp-6"; description := js "Netflix";
       expAmount := 1000;
       date := mkDate iso 2024 1 d;
       payerId := js "mem-2"; categoryId := js "cat-5";
       splits := [mkSplit (js "mem-2") 1000] |} in
  let tenth := e (js "2024-02-10T00:00:00.000Z") 10 in
  let twentieth := e (js "2024-02-20T00:00:00.000Z") 20 in
  previousMonthData (prepareTrendData now [tenth; twentieth]) !! 9%nat
  = Some (ofInteger 10)
  ∧ previousMonthData (prepareTrendData now [tenth; twentieth]) !! 9%nat
    = previousMonthData (prepareTrendData now [tenth]) !! 9%nat
  ∧ previousMonthData (prepareTrendData now [tenth; twentieth]) !! 29%nat
    = Some zero.
Proof.
  intros now e tenth twentieth.
  destruct (previousMonthData_meaning now [tenth; twentieth] 10
              ltac:(vm_compute; split; discriminate)) as [Hin _].
  destruct (Hin ltac:(vm_compute; discriminate)) as (Hvalue & Hsame & _).
  destruct (previousMonthData_meaning now [tenth; twentieth] 30
              ltac:(vm_compute; split; discriminate)) as [_ Hout].
  split; [|split].
  - change (Z.to_nat (10 - 1)) with 9%nat in Hvalue.
    rewrite Hvalue. vm_compute. reflexivity.
  - exact Hsame.
  - exact (Hout ltac:(reflexivity)).
Defined.
